(** * zexson_toolkit: a shallow embedding of [src/crypt.ts],
      [src/generator.ts] and [src/decorators.ts], and the properties of
      the transform, the codec, the token generator, the comparator, the
      object walker, the field decorator and the demonstration
      [cryptExample].

    Strings are JavaScript strings: finite sequences of UTF-16 code units.
    A code unit is an integer of [0, 65536); [String.fromCharCode] reduces
    its argument modulo 2^16.  The runtime is modelled where the source
    calls it: [Buffer] (UTF-8 and base64), [trim], [slice], and, as
    parameters, [toLowerCase] and the numbers with their [String(n)].

    Random draws come from an oracle [rnd : nat -> nat] read at an
    increasing position: the value of [Math.floor(Math.random() * n)] is
    the oracle's value modulo [n].  The two loops that the source does
    not bound, the [do ... while] of [tokenGenerator] and the retry of
    [encrypt], carry a fuel counter; a run that needs more is
    [OutOfFuel].

    The definitions come first, then the lemmas on each function, then
    the claims C1 to C10, then the properties X1 and following, which
    the code has beyond the claims. *)

From Stdlib Require Import ZArith List Bool Lia String Ascii DecimalString.
From Stdlib Require DecimalNat.
Import ListNotations.
Open Scope Z_scope.
Set Warnings "-register-all".

(** ** JavaScript strings *)

Definition jsstring := list Z.

(** [String.fromCharCode(n)]: the code unit [ToUint16(n)]. *)
Definition fromCharCode (n : Z) : Z := n mod 65536.

(** A string literal of the source (ASCII only). *)
Definition lit (s : string) : jsstring :=
  map (fun a => Z.of_N (N_of_ascii a)) (list_ascii_of_string s).

Definition is_code_unit (c : Z) : Prop := 0 <= c < 65536.
Definition is_string (s : jsstring) : Prop := Forall is_code_unit s.

Definition str_eqb (a b : jsstring) : bool :=
  if list_eq_dec Z.eq_dec a b then true else false.

(** [s.split('').map((char, index) => f(char, index)).join('')], where
    [f] returns one code unit. *)
Fixpoint map_chars_from (f : Z -> Z -> Z) (index : Z) (s : jsstring) : jsstring :=
  match s with
  | [] => []
  | char :: rest => f char index :: map_chars_from f (index + 1) rest
  end.

Definition map_chars (f : Z -> Z -> Z) (s : jsstring) : jsstring :=
  map_chars_from f 0 s.

(** White space and line terminators removed by [String.prototype.trim]. *)
Definition is_white_space (c : Z) : bool :=
  ((9 <=? c) && (c <=? 13)) || (c =? 32) || (c =? 160) || (c =? 5760)
  || ((8192 <=? c) && (c <=? 8202)) || (c =? 8232) || (c =? 8233)
  || (c =? 8239) || (c =? 8287) || (c =? 12288) || (c =? 65279).

Fixpoint trim_start (s : jsstring) : jsstring :=
  match s with
  | [] => []
  | c :: rest => if is_white_space c then trim_start rest else s
  end.

Definition trim (s : jsstring) : jsstring :=
  rev (trim_start (rev (trim_start s))).

(** [s.slice(from, to)], with negative positions counted from the end. *)
Definition slice (s : jsstring) (from to : Z) : jsstring :=
  let len := Z.of_nat (List.length s) in
  let a := if from <? 0 then Z.max (len + from) 0 else Z.min from len in
  let b := if to <? 0 then Z.max (len + to) 0 else Z.min to len in
  firstn (Z.to_nat (b - a)) (skipn (Z.to_nat a) s).

(** [s[i]]: [None] stands for [undefined]. *)
Definition char_at_index (s : jsstring) (i : Z) : option Z :=
  if i <? 0 then None else nth_error s (Z.to_nat i).

(** ** The runtime's [Buffer]: UTF-8 and base64 *)

Module Buffer.

Definition is_high_surrogate (c : Z) : bool := (55296 <=? c) && (c <=? 56319).
Definition is_low_surrogate (c : Z) : bool := (56320 <=? c) && (c <=? 57343).

(** [Buffer.from(s)] (UTF-8): the bytes of the string; a surrogate
    that is not part of a pair is written as U+FFFD (EF BF BD). *)
Fixpoint from_utf8 (s : jsstring) : list Z :=
  match s with
  | [] => []
  | c :: rest =>
      if c <? 128 then c :: from_utf8 rest
      else if c <? 2048 then
        192 + c / 64 :: 128 + c mod 64 :: from_utf8 rest
      else if is_high_surrogate c then
        match rest with
        | lo :: rest' =>
            if is_low_surrogate lo then
              let cp := 65536 + (c - 55296) * 1024 + (lo - 56320) in
              240 + cp / 262144 :: 128 + (cp / 4096) mod 64
                :: 128 + (cp / 64) mod 64 :: 128 + cp mod 64
                :: from_utf8 rest'
            else 239 :: 191 :: 189 :: from_utf8 rest
        | [] => [239; 191; 189]
        end
      else if is_low_surrogate c then 239 :: 191 :: 189 :: from_utf8 rest
      else
        224 + c / 4096 :: 128 + (c / 64) mod 64 :: 128 + c mod 64
          :: from_utf8 rest
  end.

(** [s.toWellFormed()]: every surrogate that is not part of a pair
    replaced by U+FFFD. *)
Fixpoint toWellFormed (s : jsstring) : jsstring :=
  match s with
  | [] => []
  | c :: rest =>
      if is_high_surrogate c then
        match rest with
        | lo :: rest' =>
            if is_low_surrogate lo then c :: lo :: toWellFormed rest'
            else 65533 :: toWellFormed rest
        | [] => [65533]
        end
      else if is_low_surrogate c then 65533 :: toWellFormed rest
      else c :: toWellFormed rest
  end.

(** [s.isWellFormed()] *)
Definition isWellFormed (s : jsstring) : bool := str_eqb (toWellFormed s) s.

Definition in_range (b lo hi : Z) : bool := (lo <=? b) && (b <=? hi).

(** Bounds of the second byte of a three-byte and a four-byte sequence. *)
Definition lower3 (b0 : Z) : Z := if b0 =? 224 then 160 else 128.
Definition upper3 (b0 : Z) : Z := if b0 =? 237 then 159 else 191.
Definition lower4 (b0 : Z) : Z := if b0 =? 240 then 144 else 128.
Definition upper4 (b0 : Z) : Z := if b0 =? 244 then 143 else 191.

(** The code units of a code point: itself, or a surrogate pair. *)
Definition units_of_code_point (cp : Z) : jsstring :=
  if cp <? 65536 then [cp]
  else [55296 + (cp - 65536) / 1024; 56320 + (cp - 65536) mod 1024].

(** [buf.toString()] (UTF-8): every maximal ill-formed part of the
    input becomes one U+FFFD; a byte that cannot continue a sequence is
    read again as the start of the next one. *)
Fixpoint to_utf8 (bs : list Z) : jsstring :=
  match bs with
  | [] => []
  | b0 :: r0 =>
      if b0 <? 128 then b0 :: to_utf8 r0
      else if in_range b0 194 223 then
        match r0 with
        | b1 :: r1 =>
            if in_range b1 128 191
            then (b0 - 192) * 64 + (b1 - 128) :: to_utf8 r1
            else 65533 :: to_utf8 r0
        | [] => [65533]
        end
      else if in_range b0 224 239 then
        match r0 with
        | b1 :: r1 =>
            if in_range b1 (lower3 b0) (upper3 b0) then
              match r1 with
              | b2 :: r2 =>
                  if in_range b2 128 191
                  then (b0 - 224) * 4096 + (b1 - 128) * 64 + (b2 - 128)
                         :: to_utf8 r2
                  else 65533 :: to_utf8 r1
              | [] => [65533]
              end
            else 65533 :: to_utf8 r0
        | [] => [65533]
        end
      else if in_range b0 240 244 then
        match r0 with
        | b1 :: r1 =>
            if in_range b1 (lower4 b0) (upper4 b0) then
              match r1 with
              | b2 :: r2 =>
                  if in_range b2 128 191 then
                    match r2 with
                    | b3 :: r3 =>
                        if in_range b3 128 191
                        then units_of_code_point
                               ((b0 - 240) * 262144 + (b1 - 128) * 4096
                                + (b2 - 128) * 64 + (b3 - 128))
                               ++ to_utf8 r3
                        else 65533 :: to_utf8 r2
                    | [] => [65533]
                    end
                  else 65533 :: to_utf8 r1
              | [] => [65533]
              end
            else 65533 :: to_utf8 r0
        | [] => [65533]
        end
      else 65533 :: to_utf8 r0
  end.

(** The base64 digit of a six-bit value (standard alphabet). *)
Definition digit (v : Z) : Z :=
  if v <? 26 then 65 + v
  else if v <? 52 then 71 + v
  else if v <? 62 then v - 4
  else if v =? 62 then 43 else 47.

(** [buf.toString('base64')]. *)
Fixpoint to_base64 (bs : list Z) : jsstring :=
  match bs with
  | [] => []
  | [b0] => [digit (b0 / 4); digit ((b0 mod 4) * 16); 61; 61]
  | [b0; b1] =>
      [digit (b0 / 4); digit ((b0 mod 4) * 16 + b1 / 16);
       digit ((b1 mod 16) * 4); 61]
  | b0 :: b1 :: b2 :: rest =>
      digit (b0 / 4) :: digit ((b0 mod 4) * 16 + b1 / 16)
        :: digit ((b1 mod 16) * 4 + b2 / 64) :: digit (b2 mod 64)
        :: to_base64 rest
  end.

(** The value of a base64 digit; the decoder also reads the URL-safe
    digits [-] and [_]. *)
Definition unbase64 (c : Z) : option Z :=
  if in_range c 65 90 then Some (c - 65)
  else if in_range c 97 122 then Some (c - 71)
  else if in_range c 48 57 then Some (c + 4)
  else if (c =? 43) || (c =? 45) then Some 62
  else if (c =? 47) || (c =? 95) then Some 63
  else None.

(** The decoder reads the low byte of every code unit.  It is lenient:
    it skips what is not a digit and stops at the first [=]. *)
Fixpoint sextets (s : jsstring) : list Z :=
  match s with
  | [] => []
  | c :: rest =>
      let b := c mod 256 in
      if b =? 61 then []
      else match unbase64 b with
           | Some v => v :: sextets rest
           | None => sextets rest
           end
  end.

Fixpoint bytes_of_sextets (l : list Z) : list Z :=
  match l with
  | s0 :: s1 :: s2 :: s3 :: rest =>
      s0 * 4 + s1 / 16 :: (s1 mod 16) * 16 + s2 / 4 :: (s2 mod 4) * 64 + s3
        :: bytes_of_sextets rest
  | [s0; s1; s2] => [s0 * 4 + s1 / 16; (s1 mod 16) * 16 + s2 / 4]
  | [s0; s1] => [s0 * 4 + s1 / 16]
  | _ => []
  end.

(** [Buffer.from(s, 'base64')]. *)
Definition from_base64 (s : jsstring) : list Z := bytes_of_sextets (sextets s).

End Buffer.

(** ** crypt.ts: the codec *)

Definition default_key : jsstring := lit "qwertyuioplkjhgfdsazxcvbnm".

Definition shiftChar (char shift : Z) : Z := fromCharCode (char + shift).
Definition unshiftChar (char shift : Z) : Z := fromCharCode (char - shift).

(** [key.split('').reduce((acc, char) => acc + char.charCodeAt(0), 0)] *)
Definition keySum (key : jsstring) : Z := fold_left (fun acc char => acc + char) key 0.

(** A parameter with a default value: [None] is [undefined]. *)
Definition or_default (key : option jsstring) : jsstring :=
  match key with Some k => k | None => default_key end.

Definition base64Encode (data : jsstring) (key : option jsstring) : jsstring :=
  let key := or_default key in
  let keySum := keySum key in
  let shifted := map_chars (fun char index => shiftChar char (Z.rem (keySum + index) 20)) data in
  let step1 := Buffer.to_base64 (Buffer.from_utf8 shifted) in
  let step2 := Buffer.to_base64 (Buffer.from_utf8 step1) in
  let finalMix := map_chars (fun char index => shiftChar char (Z.rem index 5)) step2 in
  finalMix.

Definition base64Decode (encryptedData : jsstring) (key : option jsstring) : jsstring :=
  let key := or_default key in
  let keySum := keySum key in
  let unmixed := map_chars (fun char index => unshiftChar char (Z.rem index 5)) encryptedData in
  let step1 := Buffer.to_utf8 (Buffer.from_base64 unmixed) in
  let step2 := Buffer.to_utf8 (Buffer.from_base64 step1) in
  let final := map_chars (fun char index => unshiftChar char (Z.rem (keySum + index) 20)) step2 in
  final.

(** The key-dependent shift of [base64Encode] and its inverse in
    [base64Decode]. *)
Definition key_shifted (key : option jsstring) (data : jsstring) : jsstring :=
  map_chars (fun char index => shiftChar char (Z.rem (keySum (or_default key) + index) 20)) data.

Definition key_unshifted (key : option jsstring) (data : jsstring) : jsstring :=
  map_chars (fun char index => unshiftChar char (Z.rem (keySum (or_default key) + index) 20)) data.

Definition is_byte (b : Z) : Prop := 0 <= b < 256.

(** Printable ASCII: the code units from the space to the tilde. *)
Definition printable_ascii (s : jsstring) : Prop := Forall (fun c => 32 <= c <= 126) s.

(** ** Errors, results and the monad of the randomised functions *)

Inductive exn : Type :=
| TypeError
| EncodingError (cause : exn)   (* Error(`Error occurred during encoding: ${err}`) *)
| DecodingError (cause : exn).  (* Error(`Error occurred during decoding: ${err}`) *)

Inductive result (A : Type) : Type :=
| Ok (a : A)
| Raise (e : exn).
Arguments Ok {A} a.
Arguments Raise {A} e.

Inductive outcome (A : Type) : Type :=
| Return (a : A)
| Throw (e : exn)
| OutOfFuel.
Arguments Return {A} a.
Arguments Throw {A} e.
Arguments OutOfFuel {A}.

(** A computation reads the oracle from a position on and gives an
    outcome and the next position. *)
Definition M (A : Type) : Type := nat -> outcome A * nat.

Definition ret {A} (a : A) : M A := fun pos => (Return a, pos).
Definition throw {A} (e : exn) : M A := fun pos => (Throw e, pos).
Definition out_of_fuel {A} : M A := fun pos => (OutOfFuel, pos).

Definition bind {A B} (m : M A) (k : A -> M B) : M B :=
  fun pos =>
    match m pos with
    | (Return a, pos') => k a pos'
    | (Throw e, pos') => (Throw e, pos')
    | (OutOfFuel, pos') => (OutOfFuel, pos')
    end.

Notation "x <- m ;; k" := (bind m (fun x => k))
  (at level 61, m at next level, right associativity).

(** [try { m } catch (err) { throw wrap(err) }] *)
Definition try_rethrow {A} (wrap : exn -> exn) (m : M A) : M A :=
  fun pos =>
    match m pos with
    | (Throw e, pos') => (Throw (wrap e), pos')
    | r => r
    end.

Definition lift {A} (r : result A) : M A :=
  match r with
  | Ok a => ret a
  | Raise e => throw e
  end.

(** ** generator.ts *)

(** The names of the character sets, as the type [CharacterSetType] of
    [types.ts] has them. *)
Inductive CharacterSetType : Type := defaultSet | set1 | set2.

Definition characterSets (type_ : CharacterSetType) : jsstring :=
  match type_ with
  | defaultSet => lit "ABCDEFGHIJKLMNOPQRSTUVWXYZabcdefghijklmnopqrstuvwxyz0123456789"
  | set1 => lit "0123456789"
  | set2 => lit "ABCDEFGHIJKLMNOPQRSTUVWXYZabcdefghijklmnopqrstuvwxyz"
  end.

(** [characterSets[type_] || characterSets.defaultSet]; [None] is a
    [type_] that is [undefined]. *)
Definition resolve_set (type_ : option CharacterSetType) : jsstring :=
  match type_ with
  | Some t => characterSets t
  | None => characterSets defaultSet
  end.

(** [s.charAt(i)]: a string of one code unit, or the empty string. *)
Definition charAt (s : jsstring) (i : nat) : jsstring :=
  match nth_error s i with
  | Some c => [c]
  | None => []
  end.

(** [token.split('')] and [_token_.join('')]. *)
Definition split (s : jsstring) : list jsstring := map (fun c => [c]) s.
Definition join (a : list jsstring) : jsstring := List.concat a.

(** [_token_[0] === '0'] *)
Definition first_is_zero (_token_ : list jsstring) : bool :=
  match _token_ with
  | x :: _ => str_eqb x (lit "0")
  | [] => false
  end.

(** [_token_[0] = v] *)
Definition set_first (_token_ : list jsstring) (v : jsstring) : list jsstring :=
  match _token_ with
  | _ :: rest => v :: rest
  | [] => [v]
  end.

Definition len (s : jsstring) : Z := Z.of_nat (List.length s).

Section Randomised.

(** The random source: the [i]-th call of [Math.random()] is the
    [i]-th value of the oracle, scaled to the range asked for. *)
Variable rnd : nat -> nat.

(** [Math.floor(Math.random() * n)] *)
Definition random_below (n : nat) : M nat :=
  fun pos => (Return (match n with O => O | _ => Nat.modulo (rnd pos) n end), S pos).

(** [characterSet.charAt(Math.floor(Math.random() * characterSet.length))] *)
Definition random_char (characterSet : jsstring) : M jsstring :=
  i <- random_below (List.length characterSet) ;;
  ret (charAt characterSet i).

(** [for (i = 0; i < length; i++) token += random char]: [count] is
    the number of iterations left. *)
Fixpoint fill (count : nat) (characterSet token : jsstring) : M jsstring :=
  match count with
  | O => ret token
  | S count' =>
      c <- random_char characterSet ;;
      fill count' characterSet (token ++ c)
  end.

(** The [do ... while] loop of [tokenGenerator]. *)
Fixpoint revalidate (fuel : nat) (characterSet : jsstring) (length : Z)
    (token : jsstring) : M jsstring :=
  match fuel with
  | O => out_of_fuel
  | S fuel' =>
      let _token_ := split token in
      _token_ <- (if first_is_zero _token_
                  then c <- random_char characterSet ;; ret (set_first _token_ c)
                  else ret _token_) ;;
      token <- (if len token <? length
                then c <- random_char characterSet ;; ret (token ++ c)
                else ret token) ;;
      if first_is_zero _token_ || negb (len token =? length)
      then revalidate fuel' characterSet length token
      else ret (join _token_)
  end.

Definition tokenGenerator (fuel : nat) (length : Z)
    (type_ : option CharacterSetType) : M jsstring :=
  let characterSet := resolve_set type_ in
  token <- fill (Z.to_nat length) characterSet [] ;;
  revalidate fuel characterSet length token.

End Randomised.

(** The redraws of the first character come to an end on this oracle:
    from every position on, some draw in the set is not [0]. *)
Definition settles (rnd : nat -> nat) (characterSet : jsstring) : Prop :=
  forall p : nat, exists d : nat,
    charAt characterSet (Nat.modulo (rnd (p + d)%nat) (List.length characterSet)) <> lit "0".

(** ** crypt.ts: decrypt *)

(** An optional property of an options object: absent, or present with
    a value that may be [undefined]. *)
Inductive property (A : Type) : Type :=
| Absent
| Present (v : option A).
Arguments Absent {A}.
Arguments Present {A} v.

Module DecryptOptions.
Record t : Type := mk { key : property jsstring }.
End DecryptOptions.

(** The loop of [decrypt]; [steps] bounds the iterations by the number
    of positions from the first [i] to [data.length]. *)
Fixpoint decrypt_loop (steps : nat) (data : jsstring) (secondPart : Z) (i : Z)
    (res : jsstring) : result jsstring :=
  match steps with
  | O => Ok res
  | S steps' =>
      match char_at_index data i with
      | None => Raise TypeError
      | Some charCode =>
          let length := len (slice data i (len data - 1)) in
          if negb (length =? secondPart)
          then decrypt_loop steps' data secondPart (i + 1)
                 (res ++ [fromCharCode ((charCode - 80) + 70)])
          else Ok res
      end
  end.

Definition try_decoding {A} (r : result A) : result A :=
  match r with
  | Ok a => Ok a
  | Raise e => Raise (DecodingError e)
  end.

(** The fixed shift of [encrypt], [(code + 80) - 70], and its inverse
    in [decrypt], [(code - 80) + 70]. *)
Definition shift10 (c : Z) : Z := fromCharCode ((c + 80) - 70).
Definition unshift10 (c : Z) : Z := fromCharCode ((c - 80) + 70).

(** The second half of [decrypt], on the decoded and unshifted text:
    the two markers are read and the loop collects the plaintext. *)
Definition unpad (data : jsstring) : result jsstring :=
  match char_at_index data 0, char_at_index (slice data (-1) (len data)) 0 with
  | Some c0, Some c1 =>
      let firsPart := c0 - 85 in
      let secondPart := c1 - 85 in
      decrypt_loop (Z.to_nat (len data - (firsPart + 1))) data secondPart
        (firsPart + 1) []
  | _, _ => Raise TypeError
  end.

Definition decrypt (data : jsstring) (options : option DecryptOptions.t) : result jsstring :=
  try_decoding
    (let options := match options with
                    | None => DecryptOptions.mk (Present (Some default_key))
                    | Some o => o
                    end in
     let key := match DecryptOptions.key options with
                | Present k => k
                | Absent => Some (lit "secretKey")
                end in
     let data := map (fun DataCharCode => fromCharCode ((DataCharCode - 80) + 70))
                     (base64Decode (trim data) key) in
     unpad data).

(** The text that [encrypt] checks and returns, for a trimmed plaintext
    and two paddings. *)
Definition candidate (data randomChars0 randomChars1 : jsstring)
    (key : option jsstring) : jsstring :=
  base64Encode
    (map shift10
       ([fromCharCode (len randomChars0 + 85)] ++ randomChars0 ++ map shift10 data
          ++ randomChars1 ++ [fromCharCode (len randomChars1 + 85)]))
    key.

(** ** crypt.ts: encrypt *)

Module EncryptOptions.
Record t : Type := mk {
  firstRandomCharSet : option CharacterSetType;
  secondRandomCharSet : option CharacterSetType;
  key : option jsstring
}.
End EncryptOptions.

(** The options of [encrypt] after its first statement. *)
Definition resolved_options (options : option EncryptOptions.t) : EncryptOptions.t :=
  match options with
  | None => EncryptOptions.mk (Some defaultSet) (Some defaultSet) (Some default_key)
  | Some o => o
  end.

Section Encrypt.

Variable rnd : nat -> nat.

(** [encrypt] on a string.  [None] as a result is [undefined]: the
    value of a call whose candidate failed the check, after the retry.
    The retry is a call of [encrypt] inside its own [try]: a run whose
    candidates fail the check again and again is [OutOfFuel] here for
    every fuel, where the runtime ends it with the error of its
    exhausted stack.  What is stated about errors of [encrypt] is
    therefore stated on plaintexts whose first candidate passes. *)
Fixpoint encrypt (fuel : nat) (data : jsstring) (options : option EncryptOptions.t)
    : M (option jsstring) :=
  match fuel with
  | O => out_of_fuel
  | S fuel' =>
      try_rethrow EncodingError
        (let options := resolved_options options in
         let data := trim data in
         n0 <- random_below rnd 20 ;;
         randomChars0 <- tokenGenerator rnd fuel' (Z.of_nat n0 + 1)
                           (EncryptOptions.firstRandomCharSet options) ;;
         n1 <- random_below rnd 20 ;;
         randomChars1 <- tokenGenerator rnd fuel' (Z.of_nat n1 + 1)
                           (EncryptOptions.secondRandomCharSet options) ;;
         let firsPart := [fromCharCode (len randomChars0 + 85)] in
         let secondPart := [fromCharCode (len randomChars1 + 85)] in
         let res := map (fun charCode => fromCharCode ((charCode + 80) - 70)) data in
         let encrypted := firsPart ++ randomChars0 ++ res ++ randomChars1 ++ secondPart in
         let encrypted :=
           base64Encode
             (map (fun DataCharCode => fromCharCode ((DataCharCode + 80) - 70)) encrypted)
             (EncryptOptions.key options) in
         decrypted <- lift (decrypt encrypted
                        (Some (DecryptOptions.mk (Present (EncryptOptions.key options))))) ;;
         if str_eqb decrypted data then ret (Some encrypted)
         else _ <- encrypt fuel' data (Some options) ;; ret None)
  end.

End Encrypt.

(** The options that [encrypt] passes to [decrypt] for the check. *)
Definition check_options (options : option EncryptOptions.t) : option DecryptOptions.t :=
  Some (DecryptOptions.mk (Present (EncryptOptions.key (resolved_options options)))).

(** ** crypt.ts: isEqual *)

Module IsEqualOptions.
Record t : Type := mk {
  caseSensitive : option bool;
  key : option jsstring;
  log : option bool
}.
End IsEqualOptions.

(** The [method] strings of the source, in the order of its four tests. *)
Inductive method : Type :=
| Direct_comparison
| Decrypted_Text1_matched_Text
| Decrypted_Text_matches_Text1
| Both_decrypted_values_match.

Module Verdict.
Record t : Type := mk { isEqual : bool; method : option method }.
End Verdict.

Section IsEqual.

(** [String.prototype.toLowerCase] of the runtime. *)
Variable toLowerCase : jsstring -> jsstring.

(** [decrypt(t, { key })] inside [try]/[catch]: the text itself when
    [decrypt] throws. *)
Definition decrypt_or_self (t : jsstring) (key : option jsstring) : jsstring :=
  match decrypt t (Some (DecryptOptions.mk (Present key))) with
  | Ok d => d
  | Raise _ => t
  end.

(** The diagnostic output on [options.log] is left out. *)
Definition isEqual (text text1 : jsstring) (options : option IsEqualOptions.t)
    : Verdict.t :=
  let Text := text in
  let Text1 := text1 in
  let options := match options with
                 | Some o => o
                 | None => IsEqualOptions.mk (Some true) None None
                 end in
  let key := match IsEqualOptions.key options with
             | Some [] => None
             | k => k
             end in
  let isCaseSensitive : jsstring -> jsstring :=
    match IsEqualOptions.caseSensitive options with
    | Some true => fun s => s
    | _ => toLowerCase
    end in
  if str_eqb Text Text1 || str_eqb (isCaseSensitive Text) Text1
     || str_eqb Text (isCaseSensitive Text1)
     || str_eqb (isCaseSensitive Text) (isCaseSensitive Text1)
  then Verdict.mk true (Some Direct_comparison)
  else
    let decryptedText := decrypt_or_self Text key in
    let decryptedText1 := decrypt_or_self Text1 key in
    if str_eqb decryptedText1 Text || str_eqb (isCaseSensitive decryptedText1) Text
       || str_eqb decryptedText1 (isCaseSensitive Text)
       || str_eqb (isCaseSensitive decryptedText1) (isCaseSensitive Text)
    then Verdict.mk true (Some Decrypted_Text1_matched_Text)
    else if str_eqb decryptedText Text1 || str_eqb (isCaseSensitive decryptedText) Text1
    then Verdict.mk true (Some Decrypted_Text_matches_Text1)
    else if str_eqb decryptedText1 decryptedText
            || str_eqb (isCaseSensitive decryptedText1) decryptedText
            || str_eqb decryptedText1 (isCaseSensitive decryptedText)
    then Verdict.mk true (Some Both_decrypted_values_match)
    else Verdict.mk false None.

End IsEqual.

(** [toLowerCase] on strings of ASCII code units. *)
Definition ascii_toLowerCase (s : jsstring) : jsstring :=
  map (fun c => if (65 <=? c) && (c <=? 90) then c + 32 else c) s.

(** ** crypt.ts: encryptObject and decryptObject *)

(** An object is given by its own properties in enumeration order.
    [define_own] is the assignment that creates or updates an own
    property. *)
Fixpoint define_own {V} (obj : list (jsstring * V)) (k : jsstring) (v : V)
    : list (jsstring * V) :=
  match obj with
  | [] => [(k, v)]
  | (k', v') :: rest =>
      if str_eqb k' k then (k', v) :: rest else (k', v') :: define_own rest k v
  end.

(** [obj[k] = v] on an object that was made by [{}] and by such
    assignments.  The key [__proto__] is the accessor of
    [Object.prototype]: assigning to it makes no own property, whatever
    the value is.  Every other key becomes, or stays, an own property. *)
Definition set_prop {V} (obj : list (jsstring * V)) (k : jsstring) (v : V)
    : list (jsstring * V) :=
  if str_eqb k (lit "__proto__") then obj else define_own obj k v.

(** [obj[k]] on an own property; [None] is [undefined]. *)
Fixpoint get_prop {V} (obj : list (jsstring * V)) (k : jsstring) : option V :=
  match obj with
  | [] => None
  | (k', v') :: rest => if str_eqb k' k then Some v' else get_prop rest k
  end.

Section Loops.

Context {V : Type}.

(** [for (const [k, v] of entries) out[k] = f(v)] and [a.map(f)], for
    an [f] with effects. *)
Variable f : V -> M V.

Fixpoint for_entries (entries out : list (jsstring * V)) : M (list (jsstring * V)) :=
  match entries with
  | [] => ret out
  | (k, v) :: rest => r <- f v ;; for_entries rest (set_prop out k r)
  end.

Fixpoint array_map (a : list V) : M (list V) :=
  match a with
  | [] => ret []
  | item :: rest => r <- f item ;; rs <- array_map rest ;; ret (r :: rs)
  end.

(** The same loops for an [f] that returns or throws. *)
Variable g : V -> result V.

Fixpoint for_entries_pure (entries out : list (jsstring * V))
    : result (list (jsstring * V)) :=
  match entries with
  | [] => Ok out
  | (k, v) :: rest =>
      match g v with
      | Ok r => for_entries_pure rest (set_prop out k r)
      | Raise e => Raise e
      end
  end.

Fixpoint array_map_pure (a : list V) : result (list V) :=
  match a with
  | [] => Ok []
  | item :: rest =>
      match g item with
      | Ok r => match array_map_pure rest with
                | Ok rs => Ok (r :: rs)
                | Raise e => Raise e
                end
      | Raise e => Raise e
      end
  end.

End Loops.

(** [Object.entries] of an array: the keys are the indices in decimal. *)
Definition index_key (i : nat) : jsstring :=
  lit (NilEmpty.string_of_uint (Nat.to_uint i)).

Fixpoint indexed_from {V} (i : nat) (a : list V) : list (jsstring * V) :=
  match a with
  | [] => []
  | x :: rest => (index_key i, x) :: indexed_from (S i) rest
  end.

Definition String_of_boolean (b : bool) : jsstring :=
  if b then lit "true" else lit "false".

Section Walker.

(** The numbers of the runtime and their [String(n)]. *)
Variable number : Type.
Variable String_of_number : number -> jsstring.

(** The values that the walkers tell apart; [VUndefined] stands for
    the values that are no string, number, boolean, array or object. *)
Inductive value : Type :=
| VString (s : jsstring)
| VNumber (n : number)
| VBoolean (b : bool)
| VNull
| VUndefined
| VArray (items : list value)
| VObject (props : list (jsstring * value)).

Definition map_result {A B} (h : A -> B) (r : result A) : result B :=
  match r with
  | Ok a => Ok (h a)
  | Raise e => Raise e
  end.

Section Encrypting.

Variable rnd : nat -> nat.
Variable fuel : nat.
Variable key : jsstring.

(** [encrypt(s, { key })] as a value: a string or [undefined]. *)
Definition encrypt_leaf (s : jsstring) : M value :=
  r <- encrypt rnd fuel s (Some (EncryptOptions.mk None None (Some key))) ;;
  ret (match r with Some c => VString c | None => VUndefined end).

(** The three dispatches of [encryptObject]: on the value of a
    property, on an item of an array that is the value of a property,
    and on an item [subItem] of an array that is such an item.
    [encryptObject(v, key)] on an object [v] is the loop over its
    entries, and [encryptObject({ arr: subItem }, key).arr] is the
    dispatch on a property applied to [subItem]. *)
Fixpoint encrypt_property (v : value) : M value :=
  match v with
  | VString s => encrypt_leaf (trim s)
  | VNumber n => encrypt_leaf (trim (String_of_number n))
  | VBoolean b => encrypt_leaf (trim (String_of_boolean b))
  | VArray items =>
      encryptedArray <- array_map encrypt_item items ;;
      ret (VArray encryptedArray)
  | VObject props =>
      encryptedData <- for_entries encrypt_property props [] ;;
      ret (VObject encryptedData)
  | VNull => throw TypeError
  | VUndefined => ret v
  end
with encrypt_item (item : value) : M value :=
  match item with
  | VString s => encrypt_leaf s
  | VNumber n => encrypt_leaf (String_of_number n)
  | VArray subItems =>
      r <- array_map encrypt_subItem subItems ;;
      ret (VArray r)
  | VObject props =>
      encryptedData <- for_entries encrypt_property props [] ;;
      ret (VObject encryptedData)
  | VNull => throw TypeError
  | VBoolean _ | VUndefined => ret item
  end
with encrypt_subItem (subItem : value) : M value :=
  match subItem with
  | VString s => encrypt_leaf s
  | VNumber n => encrypt_leaf (String_of_number n)
  | VArray items =>
      encryptedArray <- array_map encrypt_item items ;;
      ret (VArray encryptedArray)
  | VObject props =>
      encryptedData <- for_entries encrypt_property props [] ;;
      ret (VObject encryptedData)
  | VNull => throw TypeError
  | VBoolean _ | VUndefined => ret subItem
  end.

End Encrypting.

(** [Object.entries(data)]; [None] when it throws (on [null] and
    [undefined]). *)
Definition Object_entries (data : value) : option (list (jsstring * value)) :=
  match data with
  | VObject props => Some props
  | VArray items => Some (indexed_from 0 items)
  | VString s => Some (indexed_from 0 (map (fun c => VString [c]) s))
  | VNumber _ | VBoolean _ => Some []
  | VNull | VUndefined => None
  end.

Definition encryptObject (rnd : nat -> nat) (fuel : nat) (data : value)
    (key : option jsstring) : M value :=
  let key := or_default key in
  match Object_entries data with
  | Some entries =>
      encryptedData <- for_entries (encrypt_property rnd fuel key) entries [] ;;
      ret (VObject encryptedData)
  | None => throw TypeError
  end.

Section Decrypting.

Variable key : jsstring.

Definition decrypt_leaf (s : jsstring) : result value :=
  map_result VString (decrypt s (Some (DecryptOptions.mk (Present (Some key))))).

Fixpoint decrypt_property (v : value) : result value :=
  match v with
  | VString s => decrypt_leaf (trim s)
  | VArray items => map_result VArray (array_map_pure decrypt_item items)
  | VObject props => map_result VObject (for_entries_pure decrypt_property props [])
  | VNull => Raise TypeError
  | VNumber _ | VBoolean _ | VUndefined => Ok v
  end
with decrypt_item (item : value) : result value :=
  match item with
  | VString s => decrypt_leaf s
  | VArray subItems => map_result VArray (array_map_pure decrypt_subItem subItems)
  | VObject props => map_result VObject (for_entries_pure decrypt_property props [])
  | VNull => Raise TypeError
  | VNumber _ | VBoolean _ | VUndefined => Ok item
  end
with decrypt_subItem (subItem : value) : result value :=
  match subItem with
  | VString s => decrypt_leaf s
  | VArray items => map_result VArray (array_map_pure decrypt_item items)
  | VObject props => map_result VObject (for_entries_pure decrypt_property props [])
  | VNull => Raise TypeError
  | VNumber _ | VBoolean _ | VUndefined => Ok subItem
  end.

End Decrypting.

Definition decryptObject (data : value) (key : option jsstring) : result value :=
  let key := or_default key in
  match Object_entries data with
  | Some entries => map_result VObject (for_entries_pure (decrypt_property key) entries [])
  | None => Raise TypeError
  end.

End Walker.

Arguments VString {number} s.
Arguments VNumber {number} n.
Arguments VBoolean {number} b.
Arguments VNull {number}.
Arguments VUndefined {number}.
Arguments VArray {number} items.
Arguments VObject {number} props.
Arguments encrypt_leaf {number} rnd fuel key s.
Arguments encrypt_property {number} String_of_number rnd fuel key v.
Arguments encrypt_item {number} String_of_number rnd fuel key item.
Arguments encrypt_subItem {number} String_of_number rnd fuel key subItem.
Arguments encryptObject {number} String_of_number rnd fuel data key.
Arguments decrypt_leaf {number} key s.
Arguments decrypt_property {number} key v.
Arguments decrypt_item {number} key item.
Arguments decrypt_subItem {number} key subItem.
Arguments decryptObject {number} data key.
Arguments Object_entries {number} data.

(** [r.arr] on what [encryptObject({ arr: subItem }, key)] returns. *)
Definition arr_of {number : Type} (r : value number) : value number :=
  match r with
  | VObject props =>
      match get_prop props (lit "arr") with
      | Some v => v
      | None => VUndefined
      end
  | _ => VUndefined
  end.

(** [encrypt] on any value: a string goes through the transform, an
    object, an array or [null] goes to [encryptObject] inside the [try]
    of [encrypt], and on another value [data.trim] is not a function. *)
Definition encrypt_any {number : Type} (String_of_number : number -> jsstring)
    (rnd : nat -> nat) (fuel : nat) (data : value number)
    (options : option EncryptOptions.t) : M (value number) :=
  match data with
  | VString s =>
      r <- encrypt rnd fuel s options ;;
      ret (match r with Some c => VString c | None => VUndefined end)
  | VArray _ | VObject _ | VNull =>
      try_rethrow EncodingError
        (encryptObject String_of_number rnd fuel data
           (EncryptOptions.key (resolved_options options)))
  | VNumber _ | VBoolean _ | VUndefined => throw (EncodingError TypeError)
  end.

(** The shape of a value: the kind of every container, the keys of
    every object in order and the length of every array. *)
Inductive shape : Type :=
| Leaf
| Seq (items : list shape)
| Map (props : list (jsstring * shape)).

Fixpoint shape_of {number : Type} (v : value number) : shape :=
  match v with
  | VArray items => Seq (map shape_of items)
  | VObject props => Map (map (fun kv => (fst kv, shape_of (snd kv))) props)
  | _ => Leaf
  end.


(** The keys of every object are pairwise distinct, as in any object,
    and none of them is [__proto__]: they are keys that assignment on a
    fresh object keeps as own properties. *)
Fixpoint shape_ordinary (s : shape) : Prop :=
  match s with
  | Leaf => True
  | Seq items => fold_right (fun x acc => shape_ordinary x /\ acc) True items
  | Map props =>
      NoDup (map fst props)
      /\ ~ In (lit "__proto__") (map fst props)
      /\ fold_right (fun kv acc => shape_ordinary (snd kv) /\ acc) True props
  end.

Definition ordinary_keys {number : Type} (v : value number) : Prop :=
  shape_ordinary (shape_of v).


(** A value without [null] whose strings, and whose numbers written as
    strings, are printable ASCII. *)
Fixpoint plain {number : Type} (String_of_number : number -> jsstring)
    (v : value number) : Prop :=
  match v with
  | VString s => printable_ascii s
  | VNumber n => printable_ascii (String_of_number n)
  | VBoolean _ | VUndefined => True
  | VNull => False
  | VArray items => fold_right (fun x acc => plain String_of_number x /\ acc) True items
  | VObject props =>
      fold_right (fun kv acc => plain String_of_number (snd kv) /\ acc) True props
  end.


(** ** Sample inputs *)

Definition sample_oracle (i : nat) : nat := (7 * i + 3)%nat.

(** Integers as the numbers of the runtime, written in decimal. *)
Definition String_of_Z (n : Z) : jsstring := lit (NilZero.string_of_int (Z.to_int n)).

(** What [encrypt("hello", {})] returns on the sample oracle. *)
Definition sample_ciphertext : jsstring :=
  lit "YXy{fGK[goNqVXxHe4;7Q3q7W1S5e~lOXnY5XHj}ZEHp]0uIX[txYopXcFQqOFvLh29xT6doRW4=".

(** Options of [isEqual] that name a key and nothing else. *)
Definition key_only (key : jsstring) : option IsEqualOptions.t :=
  Some (IsEqualOptions.mk None (Some key) None).

(** The object [{a: "x", b: [1, "y", {c: true}]}]. *)
Definition sample_props : list (jsstring * value Z) :=
  [(lit "a", VString (lit "x"));
   (lit "b", VArray [VNumber 1; VString (lit "y"); VObject [(lit "c", VBoolean true)]])].

Definition sample_value : value Z := VObject sample_props.

(** ** Notions for the properties beyond the specification *)

(** The key that [decrypt] hands to [base64Decode]. *)
Definition decrypt_key (options : option DecryptOptions.t) : option jsstring :=
  match options with
  | None => Some default_key
  | Some o =>
      match DecryptOptions.key o with
      | Present k => k
      | Absent => Some (lit "secretKey")
      end
  end.

(** The text of [decrypt] before its two markers are read: [data]
    after the first statement of the [try] block. *)
Definition decoded (data : jsstring) (options : option DecryptOptions.t) : jsstring :=
  map unshift10 (base64Decode (trim data) (decrypt_key options)).

(** The key of [isEqual]: [options.key || undefined], after
    [options = options || { caseSensitive: true }]. *)
Definition isEqual_key (options : option IsEqualOptions.t) : option jsstring :=
  match options with
  | None => None
  | Some o =>
      match IsEqualOptions.key o with
      | Some [] => None
      | k => k
      end
  end.

(** A value with [null] in it: the value itself, an item of an array
    or the value of a property, at any depth. *)
Fixpoint has_null {number : Type} (v : value number) : Prop :=
  match v with
  | VNull => True
  | VArray items => fold_right (fun x acc => has_null x \/ acc) False items
  | VObject props => fold_right (fun kv acc => has_null (snd kv) \/ acc) False props
  | VString _ | VNumber _ | VBoolean _ | VUndefined => False
  end.

Section Restored.

Context {number : Type}.
Variable String_of_number : number -> jsstring.

(** What [decryptObject] makes of what [encryptObject] made of a
    value, read off the two walkers position by position: as the value
    of a property, as an item of an array, and as an item of an array
    inside an array.  Strings come back trimmed, numbers as their
    trimmed decimal strings, booleans as strings where they are
    the values of properties and as they are inside arrays. *)
Fixpoint restored_property (v : value number) : value number :=
  match v with
  | VString s => VString (trim s)
  | VNumber n => VString (trim (String_of_number n))
  | VBoolean b => VString (String_of_boolean b)
  | VArray items => VArray (map restored_item items)
  | VObject props => VObject (map (fun kv => (fst kv, restored_property (snd kv))) props)
  | VNull => VNull
  | VUndefined => VUndefined
  end
with restored_item (item : value number) : value number :=
  match item with
  | VString s => VString (trim s)
  | VNumber n => VString (trim (String_of_number n))
  | VBoolean b => VBoolean b
  | VArray subItems => VArray (map restored_subItem subItems)
  | VObject props => VObject (map (fun kv => (fst kv, restored_property (snd kv))) props)
  | VNull => VNull
  | VUndefined => VUndefined
  end
with restored_subItem (subItem : value number) : value number :=
  match subItem with
  | VString s => VString (trim s)
  | VNumber n => VString (trim (String_of_number n))
  | VBoolean b => VBoolean b
  | VArray items => VArray (map restored_item items)
  | VObject props => VObject (map (fun kv => (fst kv, restored_property (snd kv))) props)
  | VNull => VNull
  | VUndefined => VUndefined
  end.

End Restored.

(** ** Further sample inputs *)

(** The object [{a: " x ", n: 7, t: true, l: [true, 2, [" y"]]}]. *)
Definition sample_record : list (jsstring * value Z) :=
  [(lit "a", VString (lit " x "));
   (lit "n", VNumber 7);
   (lit "t", VBoolean true);
   (lit "l", VArray [VBoolean true; VNumber 2; VArray [VString (lit " y")]])].

(** The object [{a: "x", l: [null]}]. *)
Definition sample_with_null : list (jsstring * value Z) :=
  [(lit "a", VString (lit "x")); (lit "l", VArray [VNull])].

(** The characters that [count] successive draws from [pos] on pick in
    a character set: what the [for] loop of [tokenGenerator] appends. *)
Definition drawn (rnd : nat -> nat) (characterSet : jsstring) (pos count : nat) : jsstring :=
  List.concat
    (map (fun i => charAt characterSet (Nat.modulo (rnd i) (List.length characterSet)))
         (seq pos count)).

(** ** The demonstration [cryptExample] *)

(** The values that [cryptExample] computes and prints. *)
Module CryptExample.
Record t : Type := mk {
  E : jsstring;
  D : jsstring;
  eq : bool;
  be : jsstring;
  bd : jsstring;
  encryptedData : value Z;
  decryptedData : value Z
}.
End CryptExample.

Definition originalData : value Z :=
  VObject
    [(lit "username", VString (lit "JohnDoe"));
     (lit "email", VString (lit "john@example.com"));
     (lit "role", VString (lit "admin"));
     (lit "age", VNumber 30);
     (lit "address",
      VObject
        [(lit "street", VString (lit "123 Main St"));
         (lit "city", VString (lit "Exampleville"));
         (lit "zipCode", VString (lit "12"));
         (lit "nested",
          VObject [(lit "a", VString (lit "a")); (lit "b", VString (lit "b"));
                   (lit "c", VObject [(lit "d", VString (lit "d"))])])]);
     (lit "permissions",
      VArray [VString (lit "read"); VString (lit "write");
              VObject [(lit "admin", VBoolean true)]]);
     (lit "settings",
      VArray [VObject [(lit "theme", VString (lit "dark"));
                       (lit "notifications", VBoolean true)];
              VString (lit "simpleString");
              VArray [VNumber 42; VObject [(lit "deepKey", VString (lit "deepValue"))]]])].

Definition secretKey : jsstring := lit "my-secret-key-2023".

(** [cryptExample(v, key)], without what it prints.  [encrypt] may
    return [undefined], on which [decrypt] throws. *)
Definition cryptExample (toLowerCase : jsstring -> jsstring) (rnd : nat -> nat)
    (fuel : nat) (v key : jsstring) : M CryptExample.t :=
  r <- encrypt rnd fuel v (Some (EncryptOptions.mk None None (Some key))) ;;
  match r with
  | None => throw (DecodingError TypeError)
  | Some E =>
      D <- lift (decrypt E (Some (DecryptOptions.mk (Present (Some key))))) ;;
      let eq := Verdict.isEqual
                  (isEqual toLowerCase E D (Some (IsEqualOptions.mk None (Some key) None))) in
      let be := base64Encode v (Some key) in
      let bd := base64Decode be (Some key) in
      encryptedData <- encryptObject String_of_Z rnd fuel originalData (Some secretKey) ;;
      decryptedData <- lift (decryptObject encryptedData (Some secretKey)) ;;
      ret (CryptExample.mk E D eq be bd encryptedData decryptedData)
  end.

(** ** decorators.ts *)

(** The metadata of [reflect-metadata] under the key ['fields'].
    Objects are named by numbers.  Every object has at most one value
    of its own under the key; [Reflect.getMetadata] looks at the
    object, then at its prototypes in order, and gives the first value
    it finds, [None] for [undefined]; [Reflect.defineMetadata] sets the
    object's own value. *)
Module Reflect.

Definition metadata : Type := nat -> option (list jsstring).

Definition empty : metadata := fun _ => None.

(** An object with the objects of its prototype chain. *)
Record object : Type := Object { id : nat; prototypes : list nat }.

Fixpoint lookup (md : metadata) (chain : list nat) : option (list jsstring) :=
  match chain with
  | [] => None
  | o :: rest =>
      match md o with
      | Some value => Some value
      | None => lookup md rest
      end
  end.

Definition getMetadata (md : metadata) (target : object) : option (list jsstring) :=
  lookup md (id target :: prototypes target).

Definition defineMetadata (value : list jsstring) (target : object) (md : metadata)
    : metadata :=
  fun o => if Nat.eqb o (id target) then Some value else md o.

End Reflect.

(** [Reflect.getMetadata('fields', target) || []] *)
Definition fields_or_empty (md : Reflect.metadata) (target : Reflect.object)
    : list jsstring :=
  match Reflect.getMetadata md target with
  | Some fields => fields
  | None => []
  end.

(** [Field()(target, propertyKey)], for a property key that is a
    string: the metadata after the call. *)
Definition Field (target : Reflect.object) (propertyKey : jsstring)
    (md : Reflect.metadata) : Reflect.metadata :=
  let existingFields := fields_or_empty md target in
  Reflect.defineMetadata (existingFields ++ [propertyKey]) target md.

(** What [typeof] and [Array.isArray] tell apart. *)
Inductive kind : Type :=
| KString | KNumber | KBoolean | KUndefined | KFunction | KSymbol | KBigint
| KNull | KArray | KObject.

Definition typeof (k : kind) : jsstring :=
  match k with
  | KString => lit "string"
  | KNumber => lit "number"
  | KBoolean => lit "boolean"
  | KUndefined => lit "undefined"
  | KFunction => lit "function"
  | KSymbol => lit "symbol"
  | KBigint => lit "bigint"
  | KNull | KArray | KObject => lit "object"
  end.

Definition isArray (k : kind) : bool :=
  match k with
  | KArray => true
  | _ => false
  end.

(** [typeof x != 'object' ? typeof x : Array.isArray(x) ? 'array' : 'object'] *)
Definition type_of_field (x : kind) : jsstring :=
  if negb (str_eqb (typeof x) (lit "object")) then typeof x
  else if isArray x then lit "array" else lit "object".

(** [getFieldMetadata(target)]: [get f] is the kind of [target[f]].
    A result is a list of [{ field, type }]. *)
Definition getFieldMetadata (md : Reflect.metadata) (target : Reflect.object)
    (get : jsstring -> kind) : list (jsstring * jsstring) :=
  let fieldds := fields_or_empty md target in
  map (fun f => (f, type_of_field (get f))) fieldds.

(** The property decorators of a class, applied in the order of the
    declarations. *)
Definition decorate (target : Reflect.object) (propertyKeys : list jsstring)
    (md : Reflect.metadata) : Reflect.metadata :=
  fold_left (fun md propertyKey => Field target propertyKey md) propertyKeys md.

(** A base class, a class derived from it, and the kinds of the
    properties of an instance: [tags] is an array, the others are
    strings. *)
Definition sample_base : Reflect.object := Reflect.Object 0 [].
Definition sample_derived : Reflect.object := Reflect.Object 1 [0%nat].
Definition sample_get (f : jsstring) : kind :=
  if str_eqb f (lit "tags") then KArray else KString.

(** A value whose strings, and whose numbers written as strings, are
    printable ASCII; [null] may occur in it. *)
Fixpoint printable_leaves {number : Type} (String_of_number : number -> jsstring)
    (v : value number) : Prop :=
  match v with
  | VString s => printable_ascii s
  | VNumber n => printable_ascii (String_of_number n)
  | VBoolean _ | VNull | VUndefined => True
  | VArray items =>
      fold_right (fun x acc => printable_leaves String_of_number x /\ acc) True items
  | VObject props =>
      fold_right (fun kv acc => printable_leaves String_of_number (snd kv) /\ acc) True props
  end.

(** * Properties *)

(** ** Strings *)

Lemma str_eqb_eq (a b : jsstring) : str_eqb a b = true <-> a = b.
Proof.
  unfold str_eqb. destruct (list_eq_dec Z.eq_dec a b); split; congruence.
Qed.

Lemma str_eqb_refl (a : jsstring) : str_eqb a a = true.
Proof. now apply str_eqb_eq. Qed.

Lemma str_eqb_neq (a b : jsstring) : str_eqb a b = false <-> a <> b.
Proof.
  unfold str_eqb. destruct (list_eq_dec Z.eq_dec a b); split; congruence.
Qed.

Lemma len_app (a b : jsstring) : len (a ++ b) = len a + len b.
Proof. unfold len. rewrite length_app. lia. Qed.

Lemma len_cons (c : Z) (a : jsstring) : len (c :: a) = 1 + len a.
Proof. unfold len. simpl List.length. lia. Qed.

Lemma len_nil : len [] = 0.
Proof. reflexivity. Qed.

Lemma len_nonneg (a : jsstring) : 0 <= len a.
Proof. unfold len. lia. Qed.


(** ** The monad *)

Lemma bind_Return {A B} (m : M A) (k : A -> M B) (pos : nat) (a : A) (pos' : nat) :
  m pos = (Return a, pos') -> bind m k pos = k a pos'.
Proof. intros H. unfold bind. now rewrite H. Qed.

Lemma bind_Throw {A B} (m : M A) (k : A -> M B) (pos : nat) (e : exn) (pos' : nat) :
  m pos = (Throw e, pos') -> bind m k pos = (Throw e, pos').
Proof. intros H. unfold bind. now rewrite H. Qed.

Lemma bind_OutOfFuel {A B} (m : M A) (k : A -> M B) (pos pos' : nat) :
  m pos = (OutOfFuel, pos') -> bind m k pos = (OutOfFuel, pos').
Proof. intros H. unfold bind. now rewrite H. Qed.

(** A bind that returns: both parts returned. *)
Lemma bind_inv {A B} (m : M A) (k : A -> M B) (pos : nat) (b : B) (pos'' : nat) :
  bind m k pos = (Return b, pos'') ->
  exists a pos', m pos = (Return a, pos') /\ k a pos' = (Return b, pos'').
Proof.
  unfold bind. destruct (m pos) as [[a|e|] pos']; try discriminate.
  intros H. now exists a, pos'.
Qed.
(** ** generator.ts *)

Lemma resolve_set_nonempty (type_ : option CharacterSetType) :
  (0 < List.length (resolve_set type_))%nat.
Proof. destruct type_ as [[]|]; vm_compute; lia. Qed.

Section Generator.

Variable rnd : nat -> nat.

Lemma random_char_single (cs : jsstring) (pos : nat) :
  (0 < List.length cs)%nat ->
  exists c, random_char rnd cs pos = (Return [c], S pos).
Proof.
  intros Hne. unfold random_char, bind, random_below, ret, charAt.
  destruct (List.length cs) as [|n] eqn:Hlen; [lia|].
  destruct (nth_error cs (Nat.modulo (rnd pos) (S n))) as [c|] eqn:Hnth.
  - now exists c.
  - apply nth_error_None in Hnth.
    pose proof (Nat.mod_upper_bound (rnd pos) (S n)). lia.
Qed.

Lemma fill_returns (count : nat) (cs token : jsstring) (pos : nat) :
  (0 < List.length cs)%nat ->
  exists chars,
    fill rnd count cs token pos = (Return (token ++ chars), (pos + count)%nat)
    /\ List.length chars = count.
Proof.
  intros Hne. revert token pos.
  induction count as [|count IH]; intros token pos; simpl.
  - exists []. rewrite app_nil_r, Nat.add_0_r. now split.
  - destruct (random_char_single cs pos Hne) as [c Hc].
    unfold bind at 1. rewrite Hc.
    destruct (IH (token ++ [c]) (S pos)) as [chars [Hfill Hlen]].
    exists (c :: chars). rewrite Hfill. split.
    + rewrite <- app_assoc. simpl. f_equal. lia.
    + simpl. now rewrite Hlen.
Qed.

Lemma revalidate_S (fuel : nat) (cs : jsstring) (length : Z) (token : jsstring) :
  revalidate rnd (S fuel) cs length token
  = (_token_ <- (if first_is_zero (split token)
                 then c <- random_char rnd cs ;; ret (set_first (split token) c)
                 else ret (split token)) ;;
     token' <- (if len token <? length
                then c <- random_char rnd cs ;; ret (token ++ c)
                else ret token) ;;
     if first_is_zero _token_ || negb (len token' =? length)
     then revalidate rnd fuel cs length token'
     else ret (join _token_)).
Proof. reflexivity. Qed.

(** A request for a negative length keeps the loop running: no fuel
    is enough. *)
Lemma revalidate_negative (fuel : nat) (cs : jsstring) (length : Z) (pos : nat) :
  length < 0 ->
  revalidate rnd fuel cs length [] pos = (OutOfFuel, pos).
Proof.
  intros Hneg. induction fuel as [|fuel IH]; [reflexivity|].
  rewrite revalidate_S. cbn [split map first_is_zero]. change (len []) with 0.
  destruct (0 <? length) eqn:Hlt; [apply Z.ltb_lt in Hlt; lia|].
  unfold bind at 1 2. unfold ret at 1 2. change (len []) with 0.
  destruct (0 =? length) eqn:Heq; [apply Z.eqb_eq in Heq; lia|].
  cbn [orb negb]. exact IH.
Qed.

Lemma tokenGenerator_nonpositive_fill (length : Z) (type_ : option CharacterSetType)
    (fuel pos : nat) :
  length <= 0 ->
  tokenGenerator rnd fuel length type_ pos
  = revalidate rnd fuel (resolve_set type_) length [] pos.
Proof.
  intros Hle. unfold tokenGenerator.
  replace (Z.to_nat length) with O by lia. reflexivity.
Qed.

Lemma join_split (token : jsstring) : join (split token) = token.
Proof.
  unfold join, split. induction token as [|c token IH]; simpl; congruence.
Qed.

Lemma first_is_zero_split (token : jsstring) :
  first_is_zero (split token) = true <-> hd_error token = Some 48.
Proof.
  destruct token as [|c token]; simpl; [split; discriminate|].
  rewrite str_eqb_eq. change (lit "0") with [48]. split; congruence.
Qed.

(** The loop of [tokenGenerator] on a token of the requested length:
    what it returns has that length and does not start with [0]. *)
Lemma revalidate_shape (fuel : nat) (cs : jsstring) (length : Z)
    (token : jsstring) (pos : nat) (r : jsstring) (pos' : nat) :
  (0 < List.length cs)%nat -> 1 <= length -> len token = length ->
  revalidate rnd fuel cs length token pos = (Return r, pos') ->
  len r = length /\ hd_error r <> Some 48
  /\ (pos <= pos')%nat /\ skipn 1 r = skipn 1 token.
Proof.
  intros Hne Hlen1 Hlen. revert pos.
  induction fuel as [|fuel IH]; intros pos; [discriminate|].
  rewrite revalidate_S. rewrite Hlen, Z.ltb_irrefl.
  destruct (first_is_zero (split token)) eqn:Hz.
  - destruct (random_char_single cs pos Hne) as [c Hc].
    rewrite (bind_Return _ _ pos (set_first (split token) [c]) (S pos)).
    2:{ now rewrite (bind_Return _ _ pos [c] (S pos) Hc). }
    rewrite (bind_Return _ _ (S pos) token (S pos)) by reflexivity.
    rewrite Hlen, Z.eqb_refl. cbn [negb]. rewrite orb_false_r.
    destruct token as [|t0 token]; [discriminate|].
    cbn [split map set_first first_is_zero].
    destruct (str_eqb [c] (lit "0")) eqn:Hc0.
    + intros H. destruct (IH (S pos) H) as (? & ? & ? & ?).
      repeat split; auto; lia.
    + intros H. injection H as <- <-.
      change (map (fun c0 => [c0]) token) with (split token).
      unfold join. cbn [List.concat]. fold (join (split token)).
      rewrite join_split. cbn [app]. repeat split.
      * unfold len in *. simpl in *. lia.
      * simpl. apply str_eqb_neq in Hc0. change (lit "0") with [48] in Hc0.
        congruence.
      * lia.
  - rewrite (bind_Return _ _ pos (split token) pos) by reflexivity.
    rewrite (bind_Return _ _ pos token pos) by reflexivity.
    rewrite Hz, Hlen, Z.eqb_refl. cbn [orb negb].
    intros H. injection H as <- <-. rewrite join_split. repeat split; auto.
    intros Hh. apply first_is_zero_split in Hh. congruence.
Qed.

(** One turn of the loop on a token of the requested length that
    starts with [0]. *)
Lemma revalidate_redraw (fuel : nat) (cs : jsstring) (length : Z)
    (token : jsstring) (pos : nat) :
  (0 < List.length cs)%nat -> len token = length ->
  first_is_zero (split token) = true ->
  revalidate rnd (S fuel) cs length token pos
  = let c := charAt cs (Nat.modulo (rnd pos) (List.length cs)) in
    if str_eqb c (lit "0")
    then revalidate rnd fuel cs length token (S pos)
    else (Return (join (set_first (split token) c)), S pos).
Proof.
  intros Hne Hlen Hz. rewrite revalidate_S. rewrite Hlen, Z.ltb_irrefl, Hz.
  set (c := charAt cs (Nat.modulo (rnd pos) (List.length cs))).
  assert (Hc : random_char rnd cs pos = (Return c, S pos)).
  { unfold random_char, bind, random_below, ret. subst c.
    destruct (List.length cs); [lia|reflexivity]. }
  rewrite (bind_Return _ _ pos (set_first (split token) c) (S pos)).
  2:{ now rewrite (bind_Return _ _ pos c (S pos) Hc). }
  rewrite (bind_Return _ _ (S pos) token (S pos)) by reflexivity.
  rewrite Hlen, Z.eqb_refl. cbn [negb]. rewrite orb_false_r.
  destruct token as [|t0 token]; [discriminate|].
  cbn [split map set_first first_is_zero]. cbv zeta.
  destruct (str_eqb c (lit "0")); reflexivity.
Qed.

Lemma revalidate_keep (fuel : nat) (cs : jsstring) (length : Z)
    (token : jsstring) (pos : nat) :
  len token = length ->
  first_is_zero (split token) = false ->
  revalidate rnd (S fuel) cs length token pos = (Return token, pos).
Proof.
  intros Hlen Hz. rewrite revalidate_S. rewrite Hlen, Z.ltb_irrefl, Hz.
  rewrite (bind_Return _ _ pos (split token) pos) by reflexivity.
  rewrite (bind_Return _ _ pos token pos) by reflexivity.
  rewrite Hz, Hlen, Z.eqb_refl. cbn [orb negb]. unfold ret.
  now rewrite join_split.
Qed.

(** The loop ends as soon as a redraw is not [0]. *)
Lemma revalidate_settles (cs : jsstring) (length : Z) (token : jsstring)
    (d pos : nat) :
  (0 < List.length cs)%nat -> len token = length ->
  charAt cs (Nat.modulo (rnd (pos + d)) (List.length cs)) <> lit "0" ->
  exists r pos',
    forall fuel, (d < fuel)%nat ->
      revalidate rnd fuel cs length token pos = (Return r, pos').
Proof.
  intros Hne Hlen. revert pos.
  destruct (first_is_zero (split token)) eqn:Hz.
  - induction d as [|d IH]; intros pos Hq.
    + rewrite Nat.add_0_r in Hq. apply str_eqb_neq in Hq.
      eexists _, _. intros [|fuel] Hf; [lia|].
      rewrite (revalidate_redraw fuel cs length token pos Hne Hlen Hz).
      cbv zeta. rewrite Hq. reflexivity.
    + destruct (str_eqb (charAt cs (Nat.modulo (rnd pos) (List.length cs))) (lit "0")) eqn:Hc0.
      * replace (pos + S d)%nat with (S pos + d)%nat in Hq by lia.
        destruct (IH (S pos) Hq) as (r & pos' & Hr).
        exists r, pos'. intros [|fuel] Hf; [lia|].
        rewrite (revalidate_redraw fuel cs length token pos Hne Hlen Hz).
        cbv zeta. rewrite Hc0. apply Hr. lia.
      * eexists _, _. intros [|fuel] Hf; [lia|].
        rewrite (revalidate_redraw fuel cs length token pos Hne Hlen Hz).
        cbv zeta. rewrite Hc0. reflexivity.
  - intros pos _. exists token, pos.
    intros [|fuel] Hf; [lia|]. now apply revalidate_keep.
Qed.

Lemma random_char_in (cs : jsstring) (pos : nat) :
  (0 < List.length cs)%nat ->
  exists c, In c cs /\ random_char rnd cs pos = (Return [c], S pos).
Proof.
  intros Hne. unfold random_char, bind, random_below, ret, charAt.
  destruct (List.length cs) as [|n] eqn:Hlen; [lia|].
  destruct (nth_error cs (Nat.modulo (rnd pos) (S n))) as [c|] eqn:Hnth.
  - exists c. split; [now apply nth_error_In in Hnth|reflexivity].
  - apply nth_error_None in Hnth.
    pose proof (Nat.mod_upper_bound (rnd pos) (S n)). lia.
Qed.

Lemma fill_chars (count : nat) (cs token : jsstring) (pos : nat) :
  (0 < List.length cs)%nat ->
  exists chars,
    fill rnd count cs token pos = (Return (token ++ chars), (pos + count)%nat)
    /\ List.length chars = count /\ Forall (fun c => In c cs) chars.
Proof.
  intros Hne. revert token pos.
  induction count as [|count IH]; intros token pos; simpl.
  - exists []. rewrite app_nil_r, Nat.add_0_r. repeat split. constructor.
  - destruct (random_char_in cs pos Hne) as [c [Hin Hc]].
    rewrite (bind_Return _ _ pos [c] (S pos) Hc).
    destruct (IH (token ++ [c]) (S pos)) as [chars (Hfill & Hlen & Hall)].
    exists (c :: chars). rewrite Hfill. repeat split.
    + rewrite <- app_assoc. simpl. f_equal. lia.
    + simpl. now rewrite Hlen.
    + now constructor.
Qed.

(** The characters of the result are characters of the set. *)
Lemma revalidate_chars (fuel : nat) (cs : jsstring) (length : Z)
    (token : jsstring) (pos : nat) (r : jsstring) (pos' : nat) :
  (0 < List.length cs)%nat -> len token = length ->
  Forall (fun c => In c cs) token ->
  revalidate rnd fuel cs length token pos = (Return r, pos') ->
  Forall (fun c => In c cs) r.
Proof.
  intros Hne Hlen Hall. revert pos.
  induction fuel as [|fuel IH]; intros pos; [discriminate|].
  destruct (first_is_zero (split token)) eqn:Hz.
  - rewrite (revalidate_redraw fuel cs length token pos Hne Hlen Hz). cbv zeta.
    destruct (str_eqb _ _); [apply IH|].
    intros H. injection H as <- _.
    destruct token as [|t0 token]; [discriminate|].
    cbn [split map set_first]. change (map (fun c0 => [c0]) token) with (split token).
    unfold join. cbn [List.concat]. fold (join (split token)). rewrite join_split.
    apply Forall_app. split; [|now inversion Hall].
    unfold charAt. destruct (nth_error _ _) eqn:Hn; constructor; [|constructor].
    now apply nth_error_In in Hn.
  - rewrite (revalidate_keep fuel cs length token pos Hlen Hz).
    intros H. now injection H as <- _.
Qed.

Lemma revalidate_no_throw (fuel : nat) (cs : jsstring) (length : Z)
    (token : jsstring) (pos : nat) (e : exn) :
  fst (revalidate rnd fuel cs length token pos) <> Throw e.
Proof.
  revert token pos. induction fuel as [|fuel IH]; intros token pos; [discriminate|].
  rewrite revalidate_S.
  assert (Hrc : forall p, random_char rnd cs p
                          = (Return (charAt cs (match List.length cs with
                                                | O => O
                                                | _ => Nat.modulo (rnd p) (List.length cs)
                                                end)), S p)) by reflexivity.
  set (m1 := if first_is_zero (split token) then _ else _).
  assert (H1 : exists a p, m1 pos = (Return a, p)).
  { subst m1. destruct (first_is_zero (split token)).
    - eexists _, _. now rewrite (bind_Return _ _ pos _ _ (Hrc pos)).
    - now eexists _, _. }
  destruct H1 as (a & p & H1). rewrite (bind_Return _ _ pos a p H1).
  set (m2 := if len token <? length then _ else _).
  assert (H2 : exists b q, m2 p = (Return b, q)).
  { subst m2. destruct (len token <? length).
    - eexists _, _. now rewrite (bind_Return _ _ p _ _ (Hrc p)).
    - now eexists _, _. }
  destruct H2 as (b & q & H2). rewrite (bind_Return _ _ p b q H2).
  destruct (first_is_zero a || negb (len b =? length)); [apply IH|discriminate].
Qed.

Lemma tokenGenerator_no_throw (fuel : nat) (length : Z)
    (type_ : option CharacterSetType) (pos : nat) (e : exn) :
  fst (tokenGenerator rnd fuel length type_ pos) <> Throw e.
Proof.
  unfold tokenGenerator.
  destruct (fill_returns (Z.to_nat length) (resolve_set type_) [] pos
              (resolve_set_nonempty type_)) as (chars & Hfill & _).
  rewrite (bind_Return _ _ pos _ _ Hfill). apply revalidate_no_throw.
Qed.

(** What [tokenGenerator] returns for a length of at least one. *)
Lemma tokenGenerator_shape (fuel : nat) (length : Z)
    (type_ : option CharacterSetType) (pos : nat) (token : jsstring) (pos' : nat) :
  1 <= length ->
  tokenGenerator rnd fuel length type_ pos = (Return token, pos') ->
  len token = length /\ hd_error token <> Some 48
  /\ Forall (fun c => In c (resolve_set type_)) token.
Proof.
  intros Hlen. unfold tokenGenerator.
  destruct (fill_chars (Z.to_nat length) (resolve_set type_) [] pos
              (resolve_set_nonempty type_)) as (chars & Hfill & Hcount & Hall).
  rewrite (bind_Return _ _ pos _ _ Hfill). cbn [app]. intros H.
  assert (Hl : len chars = length) by (unfold len; lia).
  destruct (revalidate_shape _ _ _ _ _ _ _ (resolve_set_nonempty type_) Hlen Hl H)
    as (? & ? & _).
  repeat split; auto.
  exact (revalidate_chars _ _ _ _ _ _ _ (resolve_set_nonempty type_) Hl Hall H).
Qed.

(** [tokenGenerator] returns as soon as a redraw is not [0]: the
    redraws start after the [length] draws of the first loop. *)
Lemma tokenGenerator_settles (length : Z) (type_ : option CharacterSetType)
    (pos d : nat) :
  charAt (resolve_set type_)
    (Nat.modulo (rnd (pos + Z.to_nat length + d)) (List.length (resolve_set type_)))
    <> lit "0" ->
  1 <= length ->
  exists token pos',
    forall fuel, (d < fuel)%nat ->
      tokenGenerator rnd fuel length type_ pos = (Return token, pos').
Proof.
  intros Hd Hlen. unfold tokenGenerator.
  destruct (fill_chars (Z.to_nat length) (resolve_set type_) [] pos
              (resolve_set_nonempty type_)) as (chars & Hfill & Hcount & _).
  assert (Hl : len chars = length) by (unfold len; lia).
  destruct (revalidate_settles (resolve_set type_) length chars d
              (pos + Z.to_nat length) (resolve_set_nonempty type_) Hl Hd)
    as (r & pos' & Hr).
  exists r, pos'. intros fuel Hf.
  rewrite (bind_Return _ _ pos _ _ Hfill). now apply Hr.
Qed.

End Generator.

(** ** The runtime's [Buffer] *)

(** Comparisons decided by linear arithmetic (with division by
    constants). *)
Ltac zlia := Z.to_euclidean_division_equations; lia.

Ltac decide_cmp :=
  repeat match goal with
  | |- context [?a <? ?b] =>
      first [ rewrite (proj2 (Z.ltb_lt a b)) by zlia
            | rewrite (proj2 (Z.ltb_ge a b)) by zlia ]
  | |- context [?a <=? ?b] =>
      first [ rewrite (proj2 (Z.leb_le a b)) by zlia
            | rewrite (proj2 (Z.leb_gt a b)) by zlia ]
  | |- context [?a =? ?b] =>
      first [ rewrite (proj2 (Z.eqb_eq a b)) by zlia
            | rewrite (proj2 (Z.eqb_neq a b)) by zlia ]
  end.

Lemma list_ind3 {A} (P : list A -> Prop) :
  P [] -> (forall a, P [a]) -> (forall a b, P [a; b]) ->
  (forall a b c l, P l -> P (a :: b :: c :: l)) ->
  forall l, P l.
Proof.
  intros H0 H1 H2 H3 l.
  assert (H : P l /\ (forall a, P (a :: l)) /\ (forall a b, P (a :: b :: l))).
  { induction l as [|x l (IH0 & IH1 & IH2)]; repeat split; auto. }
  apply H.
Qed.

Lemma digit_range (v : Z) : 0 <= v < 64 -> 43 <= Buffer.digit v <= 122.
Proof.
  intros Hv. unfold Buffer.digit.
  destruct (v <? 26) eqn:H1; [lia|]. apply Z.ltb_ge in H1.
  destruct (v <? 52) eqn:H2; [apply Z.ltb_lt in H2; lia|]. apply Z.ltb_ge in H2.
  destruct (v <? 62) eqn:H3; [apply Z.ltb_lt in H3; lia|].
  destruct (v =? 62); lia.
Qed.

Lemma unbase64_digit (v : Z) : 0 <= v < 64 -> Buffer.unbase64 (Buffer.digit v) = Some v.
Proof.
  intros Hv. unfold Buffer.digit.
  destruct (v <? 26) eqn:H1; [apply Z.ltb_lt in H1|apply Z.ltb_ge in H1].
  { unfold Buffer.unbase64, Buffer.in_range. decide_cmp. cbn [andb orb]. f_equal. lia. }
  destruct (v <? 52) eqn:H2; [apply Z.ltb_lt in H2|apply Z.ltb_ge in H2].
  { unfold Buffer.unbase64, Buffer.in_range. decide_cmp. cbn [andb orb]. f_equal. lia. }
  destruct (v <? 62) eqn:H3; [apply Z.ltb_lt in H3|apply Z.ltb_ge in H3].
  { unfold Buffer.unbase64, Buffer.in_range. decide_cmp. cbn [andb orb]. f_equal. lia. }
  destruct (v =? 62) eqn:H4; [apply Z.eqb_eq in H4|apply Z.eqb_neq in H4].
  { now subst v. }
  assert (v = 63) by lia. now subst v.
Qed.

Lemma sextets_digit (v : Z) (s : jsstring) :
  0 <= v < 64 -> Buffer.sextets (Buffer.digit v :: s) = v :: Buffer.sextets s.
Proof.
  intros Hv. cbn [Buffer.sextets]. cbv zeta.
  pose proof (digit_range v Hv).
  rewrite (Z.mod_small (Buffer.digit v) 256) by lia.
  rewrite (unbase64_digit v Hv).
  destruct (Buffer.digit v =? 61) eqn:He; [|reflexivity].
  apply Z.eqb_eq in He. exfalso.
  unfold Buffer.digit in He.
  destruct (v <? 26) eqn:H1; [apply Z.ltb_lt in H1; lia|apply Z.ltb_ge in H1].
  destruct (v <? 52) eqn:H2; [apply Z.ltb_lt in H2; lia|apply Z.ltb_ge in H2].
  destruct (v <? 62) eqn:H3; [apply Z.ltb_lt in H3; lia|].
  destruct (v =? 62); lia.
Qed.

Lemma sextets_pad (s : jsstring) : Buffer.sextets (61 :: s) = [].
Proof. reflexivity. Qed.

(** Decoding base64 gives back the bytes that were encoded. *)
Lemma from_base64_to_base64 (bs : list Z) :
  Forall is_byte bs -> Buffer.from_base64 (Buffer.to_base64 bs) = bs.
Proof.
  unfold Buffer.from_base64, is_byte.
  induction bs as [|a|a b|a b c l IH] using list_ind3; intros Hb.
  - reflexivity.
  - inversion_clear Hb as [|? ? Ha _]. cbn [Buffer.to_base64].
    rewrite !sextets_digit by zlia. rewrite sextets_pad.
    cbn [Buffer.bytes_of_sextets]. f_equal. zlia.
  - inversion_clear Hb as [|? ? Ha Hb']. inversion_clear Hb' as [|? ? Hb _].
    cbn [Buffer.to_base64].
    rewrite !sextets_digit by zlia. rewrite sextets_pad.
    cbn [Buffer.bytes_of_sextets]. f_equal; [|f_equal]; zlia.
  - inversion_clear Hb as [|? ? Ha Hb']. inversion_clear Hb' as [|? ? Hb Hc'].
    inversion_clear Hc' as [|? ? Hc Hl].
    cbn [Buffer.to_base64].
    rewrite !sextets_digit by zlia. cbn [Buffer.bytes_of_sextets].
    rewrite (IH Hl). f_equal; [|f_equal; [|f_equal]]; zlia.
Qed.

(** The digits of a base64 text are ASCII characters that [trim] keeps. *)
Lemma to_base64_chars (bs : list Z) :
  Forall is_byte bs -> Forall (fun c => 43 <= c <= 122) (Buffer.to_base64 bs).
Proof.
  unfold is_byte.
  induction bs as [|a|a b|a b c l IH] using list_ind3; intros Hb.
  - constructor.
  - inversion_clear Hb as [|? ? Ha _]. cbn [Buffer.to_base64].
    repeat constructor; try lia; apply digit_range; zlia.
  - inversion_clear Hb as [|? ? Ha Hb']. inversion_clear Hb' as [|? ? Hb _].
    cbn [Buffer.to_base64].
    repeat constructor; try lia; apply digit_range; zlia.
  - inversion_clear Hb as [|? ? Ha Hb']. inversion_clear Hb' as [|? ? Hb Hc'].
    inversion_clear Hc' as [|? ? Hc Hl].
    cbn [Buffer.to_base64].
    repeat (constructor; [apply digit_range; zlia|]). now apply IH.
Qed.

(** *** UTF-8 *)

Lemma to_utf8_1 (b0 : Z) (r : list Z) :
  b0 < 128 -> Buffer.to_utf8 (b0 :: r) = b0 :: Buffer.to_utf8 r.
Proof. intros H. cbn [Buffer.to_utf8]. now decide_cmp. Qed.

Lemma to_utf8_2 (b0 b1 : Z) (r : list Z) :
  194 <= b0 <= 223 -> 128 <= b1 <= 191 ->
  Buffer.to_utf8 (b0 :: b1 :: r)
  = (b0 - 192) * 64 + (b1 - 128) :: Buffer.to_utf8 r.
Proof.
  intros H0 H1. cbn [Buffer.to_utf8]. unfold Buffer.in_range. now decide_cmp.
Qed.

Lemma to_utf8_3 (b0 b1 b2 : Z) (r : list Z) :
  224 <= b0 <= 239 -> Buffer.lower3 b0 <= b1 <= Buffer.upper3 b0 ->
  128 <= b2 <= 191 ->
  Buffer.to_utf8 (b0 :: b1 :: b2 :: r)
  = (b0 - 224) * 4096 + (b1 - 128) * 64 + (b2 - 128) :: Buffer.to_utf8 r.
Proof.
  intros H0 H1 H2. cbn [Buffer.to_utf8]. unfold Buffer.in_range. now decide_cmp.
Qed.

Lemma to_utf8_4 (b0 b1 b2 b3 : Z) (r : list Z) :
  240 <= b0 <= 244 -> Buffer.lower4 b0 <= b1 <= Buffer.upper4 b0 ->
  128 <= b2 <= 191 -> 128 <= b3 <= 191 ->
  Buffer.to_utf8 (b0 :: b1 :: b2 :: b3 :: r)
  = Buffer.units_of_code_point
      ((b0 - 240) * 262144 + (b1 - 128) * 4096 + (b2 - 128) * 64 + (b3 - 128))
      ++ Buffer.to_utf8 r.
Proof.
  intros H0 H1 H2 H3. cbn [Buffer.to_utf8]. unfold Buffer.in_range. now decide_cmp.
Qed.

Lemma surrogate_high (c : Z) :
  Buffer.is_high_surrogate c = true <-> 55296 <= c <= 56319.
Proof. unfold Buffer.is_high_surrogate. rewrite andb_true_iff, !Z.leb_le. tauto. Qed.

Lemma surrogate_low (c : Z) :
  Buffer.is_low_surrogate c = true <-> 56320 <= c <= 57343.
Proof. unfold Buffer.is_low_surrogate. rewrite andb_true_iff, !Z.leb_le. tauto. Qed.

Lemma not_surrogate_high (c : Z) :
  Buffer.is_high_surrogate c = false <-> c < 55296 \/ 56319 < c.
Proof.
  unfold Buffer.is_high_surrogate. rewrite andb_false_iff, !Z.leb_gt. tauto.
Qed.

Lemma not_surrogate_low (c : Z) :
  Buffer.is_low_surrogate c = false <-> c < 56320 \/ 57343 < c.
Proof.
  unfold Buffer.is_low_surrogate. rewrite andb_false_iff, !Z.leb_gt. tauto.
Qed.

(** Reading back the UTF-8 bytes of a string gives the string with its
    lone surrogates replaced. *)
Lemma to_utf8_from_utf8 (s : jsstring) :
  is_string s -> Buffer.to_utf8 (Buffer.from_utf8 s) = Buffer.toWellFormed s.
Proof.
  assert (H : forall n s, (List.length s <= n)%nat -> is_string s ->
                          Buffer.to_utf8 (Buffer.from_utf8 s) = Buffer.toWellFormed s).
  { clear s. induction n as [|n IH]; intros s Hn Hs.
    { destruct s; [reflexivity|simpl in Hn; lia]. }
    destruct s as [|c rest]; [reflexivity|].
    inversion_clear Hs as [|? ? Hc Hrest]. unfold is_code_unit in Hc.
    simpl in Hn. assert (Hn' : (List.length rest <= n)%nat) by lia.
    pose proof (IH rest Hn' Hrest) as IHrest.
    cbn [Buffer.from_utf8 Buffer.toWellFormed].
    destruct (c <? 128) eqn:H1; [apply Z.ltb_lt in H1|apply Z.ltb_ge in H1].
    { rewrite to_utf8_1 by lia. rewrite IHrest.
      rewrite (proj2 (not_surrogate_high c)) by lia.
      now rewrite (proj2 (not_surrogate_low c)) by lia. }
    destruct (c <? 2048) eqn:H2; [apply Z.ltb_lt in H2|apply Z.ltb_ge in H2].
    { rewrite to_utf8_2 by zlia. rewrite IHrest.
      rewrite (proj2 (not_surrogate_high c)) by lia.
      rewrite (proj2 (not_surrogate_low c)) by lia. f_equal. zlia. }
    destruct (Buffer.is_high_surrogate c) eqn:Hh.
    { apply surrogate_high in Hh.
      destruct rest as [|lo rest'].
      { now rewrite to_utf8_3 by (unfold Buffer.lower3, Buffer.upper3; cbn; lia). }
      destruct (Buffer.is_low_surrogate lo) eqn:Hl.
      - apply surrogate_low in Hl.
        inversion_clear Hrest as [|? ? _ Hrest'].
        simpl in Hn'. assert (Hn'' : (List.length rest' <= n)%nat) by lia.
        cbv zeta.
        rewrite to_utf8_4;
          try (unfold Buffer.lower4, Buffer.upper4;
               repeat match goal with
                      | |- context [if ?b then _ else _] => destruct b eqn:?
                      end; zlia).
        rewrite (IH rest' Hn'' Hrest').
        unfold Buffer.units_of_code_point. decide_cmp.
        cbn [app]. f_equal; [|f_equal]; zlia.
      - rewrite to_utf8_3 by (unfold Buffer.lower3, Buffer.upper3; cbn; lia).
        now rewrite IHrest. }
    destruct (Buffer.is_low_surrogate c) eqn:Hl.
    { rewrite to_utf8_3 by (unfold Buffer.lower3, Buffer.upper3; cbn; lia).
      now rewrite IHrest. }
    apply not_surrogate_high in Hh. apply not_surrogate_low in Hl.
    rewrite to_utf8_3;
      try (unfold Buffer.lower3, Buffer.upper3;
           repeat match goal with
                  | |- context [if ?b then _ else _] => destruct b eqn:?
                  end; zlia).
    rewrite IHrest. f_equal. zlia. }
  intros Hs. now apply (H (List.length s)).
Qed.

(** The model of [Buffer] on some known values: the euro sign, a pair
    of surrogates, an overlong and a truncated sequence, an encoded
    surrogate, and base64 with a space in it. *)
Example from_utf8_values :
  Buffer.from_utf8 [8364] = [226; 130; 172]
  /\ Buffer.from_utf8 [55357; 56832] = [240; 159; 152; 128]
  /\ Buffer.from_utf8 [55357] = [239; 191; 189].
Proof. repeat split. Qed.

Example to_utf8_values :
  Buffer.to_utf8 [240; 159; 152; 128] = [55357; 56832]
  /\ Buffer.to_utf8 [192; 128] = [65533; 65533]
  /\ Buffer.to_utf8 [226; 130] = [65533]
  /\ Buffer.to_utf8 [226; 130; 65] = [65533; 65]
  /\ Buffer.to_utf8 [237; 160; 128] = [65533; 65533; 65533].
Proof. repeat split. Qed.

Example base64_values :
  Buffer.to_base64 (Buffer.from_utf8 (lit "hello")) = lit "aGVsbG8="
  /\ Buffer.from_base64 (lit "aGVs bG8") = lit "hello".
Proof. split; vm_compute; reflexivity. Qed.

Lemma from_utf8_bytes (s : jsstring) :
  is_string s -> Forall is_byte (Buffer.from_utf8 s).
Proof.
  assert (H : forall n s, (List.length s <= n)%nat -> is_string s ->
                          Forall is_byte (Buffer.from_utf8 s)).
  { clear s. unfold is_byte.
    induction n as [|n IH]; intros s Hn Hs.
    { destruct s; [constructor|simpl in Hn; lia]. }
    destruct s as [|c rest]; [constructor|].
    inversion_clear Hs as [|? ? Hc Hrest]. unfold is_code_unit in Hc.
    simpl in Hn. assert (Hn' : (List.length rest <= n)%nat) by lia.
    pose proof (IH rest Hn' Hrest) as IHrest.
    cbn [Buffer.from_utf8].
    destruct (c <? 128) eqn:H1; [apply Z.ltb_lt in H1|apply Z.ltb_ge in H1].
    { constructor; [lia|assumption]. }
    destruct (c <? 2048) eqn:H2; [apply Z.ltb_lt in H2|apply Z.ltb_ge in H2].
    { repeat (constructor; [zlia|]). assumption. }
    destruct (Buffer.is_high_surrogate c) eqn:Hh.
    { apply surrogate_high in Hh.
      destruct rest as [|lo rest']; [repeat (constructor; [lia|]); constructor|].
      destruct (Buffer.is_low_surrogate lo) eqn:Hl.
      - apply surrogate_low in Hl. inversion_clear Hrest as [|? ? _ Hrest'].
        simpl in Hn'. cbv zeta.
        repeat (constructor; [zlia|]). apply IH; [lia|assumption].
      - repeat (constructor; [lia|]). assumption. }
    destruct (Buffer.is_low_surrogate c) eqn:Hl.
    { repeat (constructor; [lia|]). assumption. }
    repeat (constructor; [zlia|]). assumption. }
  intros Hs. now apply (H (List.length s)).
Qed.

(** A string without surrogates is well formed, and so is left as it
    is by a passage through UTF-8. *)
Lemma toWellFormed_no_surrogate (s : jsstring) :
  Forall (fun c => c < 55296 \/ 57343 < c) s -> Buffer.toWellFormed s = s.
Proof.
  induction 1 as [|c rest Hc _ IH]; [reflexivity|].
  cbn [Buffer.toWellFormed].
  rewrite (proj2 (not_surrogate_high c)) by lia.
  rewrite (proj2 (not_surrogate_low c)) by lia. now rewrite IH.
Qed.

Lemma isWellFormed_eq (s : jsstring) :
  Buffer.isWellFormed s = true <-> Buffer.toWellFormed s = s.
Proof. unfold Buffer.isWellFormed. apply str_eqb_eq. Qed.

Lemma to_base64_is_string (bs : list Z) :
  Forall is_byte bs -> is_string (Buffer.to_base64 bs).
Proof.
  intros Hb. eapply Forall_impl; [|apply (to_base64_chars bs Hb)].
  unfold is_code_unit. intros c Hc. cbv beta in Hc. lia.
Qed.

(** A base64 text passes unchanged through UTF-8 and back through
    base64. *)
Lemma base64_text_round_trip (bs : list Z) :
  Forall is_byte bs ->
  Buffer.to_utf8 (Buffer.from_base64 (Buffer.to_base64 (Buffer.from_utf8 (Buffer.to_base64 bs))))
  = Buffer.to_base64 bs.
Proof.
  intros Hb.
  rewrite from_base64_to_base64
    by (apply from_utf8_bytes, to_base64_is_string, Hb).
  rewrite to_utf8_from_utf8 by (apply to_base64_is_string, Hb).
  apply toWellFormed_no_surrogate.
  eapply Forall_impl; [|apply (to_base64_chars bs Hb)].
  intros c Hc. cbv beta in Hc. lia.
Qed.

Ltac to_props :=
  repeat match goal with
         | H : (_ && _) = true |- _ => apply andb_true_iff in H; destruct H
         | H : (_ <=? _) = true |- _ => apply Z.leb_le in H
         | H : (_ <? _) = true |- _ => apply Z.ltb_lt in H
         | H : (_ <? _) = false |- _ => apply Z.ltb_ge in H
         end.

Lemma second_byte_bounds (b0 : Z) :
  128 <= Buffer.lower3 b0 /\ Buffer.upper3 b0 <= 191
  /\ 128 <= Buffer.lower4 b0 /\ Buffer.upper4 b0 <= 191
  /\ (b0 = 240 -> Buffer.lower4 b0 = 144) /\ (b0 = 244 -> Buffer.upper4 b0 = 143).
Proof.
  unfold Buffer.lower3, Buffer.upper3, Buffer.lower4, Buffer.upper4.
  destruct (b0 =? 224); destruct (b0 =? 237);
    destruct (b0 =? 240) eqn:E; destruct (b0 =? 244) eqn:E';
    repeat split; try lia; intros ->; discriminate.
Qed.

(** What [toString()] reads from bytes is a string. *)
Lemma to_utf8_is_string (bs : list Z) :
  Forall is_byte bs -> is_string (Buffer.to_utf8 bs).
Proof.
  assert (H : forall n bs, (List.length bs <= n)%nat -> Forall is_byte bs ->
                           is_string (Buffer.to_utf8 bs)).
  { clear bs. unfold is_byte.
    induction n as [|n IH]; intros bs Hn Hb.
    { destruct bs; [constructor|simpl in Hn; lia]. }
    destruct bs as [|b0 r0]; [constructor|].
    inversion_clear Hb as [|? ? H0 Hr0]. simpl in Hn.
    pose proof (second_byte_bounds b0) as (L3 & U3 & L4 & U4 & L4' & U4').
    assert (IH0 : is_string (Buffer.to_utf8 r0)) by (apply IH; [lia|assumption]).
    cbn [Buffer.to_utf8]. unfold Buffer.in_range.
    destruct (b0 <? 128) eqn:E0; [constructor; [unfold is_code_unit; lia|exact IH0]|].
    assert (Hfffd : is_string (65533 :: Buffer.to_utf8 r0))
      by (constructor; [unfold is_code_unit; lia|exact IH0]).
    assert (Hone : is_string [65533]) by (repeat constructor; unfold is_code_unit; lia).
    destruct ((194 <=? b0) && (b0 <=? 223)) eqn:E1.
    { destruct r0 as [|b1 r1]; [exact Hone|].
      inversion_clear Hr0 as [|? ? H1 Hr1]. simpl in Hn.
      destruct ((128 <=? b1) && (b1 <=? 191)) eqn:E2; [|exact Hfffd].
      to_props.
      constructor; [unfold is_code_unit; lia|apply IH; [lia|assumption]]. }
    destruct ((224 <=? b0) && (b0 <=? 239)) eqn:E2.
    { destruct r0 as [|b1 r1]; [exact Hone|].
      inversion_clear Hr0 as [|? ? H1 Hr1]. simpl in Hn.
      destruct ((Buffer.lower3 b0 <=? b1) && (b1 <=? Buffer.upper3 b0)) eqn:E3;
        [|exact Hfffd].
      assert (IH1 : is_string (Buffer.to_utf8 r1)) by (apply IH; [lia|assumption]).
      destruct r1 as [|b2 r2]; [exact Hone|].
      inversion_clear Hr1 as [|? ? H2 Hr2]. simpl in Hn.
      destruct ((128 <=? b2) && (b2 <=? 191)) eqn:E4;
        [|constructor; [unfold is_code_unit; lia|exact IH1]].
      to_props.
      constructor; [unfold is_code_unit; lia|apply IH; [lia|assumption]]. }
    destruct ((240 <=? b0) && (b0 <=? 244)) eqn:E3; [|exact Hfffd].
    destruct r0 as [|b1 r1]; [exact Hone|].
    inversion_clear Hr0 as [|? ? H1 Hr1]. simpl in Hn.
    destruct ((Buffer.lower4 b0 <=? b1) && (b1 <=? Buffer.upper4 b0)) eqn:E4;
      [|exact Hfffd].
    assert (IH1 : is_string (Buffer.to_utf8 r1)) by (apply IH; [lia|assumption]).
    destruct r1 as [|b2 r2]; [exact Hone|].
    inversion_clear Hr1 as [|? ? H2 Hr2]. simpl in Hn.
    destruct ((128 <=? b2) && (b2 <=? 191)) eqn:E5;
      [|constructor; [unfold is_code_unit; lia|exact IH1]].
    assert (IH2 : is_string (Buffer.to_utf8 r2)) by (apply IH; [lia|assumption]).
    destruct r2 as [|b3 r3]; [exact Hone|].
    inversion_clear Hr2 as [|? ? H3 Hr3]. simpl in Hn.
    destruct ((128 <=? b3) && (b3 <=? 191)) eqn:E6;
      [|constructor; [unfold is_code_unit; lia|exact IH2]].
    to_props.
    apply Forall_app. split; [|apply IH; [lia|assumption]].
    unfold Buffer.units_of_code_point.
    assert (b0 = 244 \/ b0 < 244) as [Hb|Hb] by lia.
    - specialize (U4' Hb).
      destruct (_ <? 65536) eqn:E7; repeat constructor; unfold is_code_unit; zlia.
    - destruct (_ <? 65536) eqn:E7; repeat constructor; unfold is_code_unit; zlia. }
  intros Hb. now apply (H (List.length bs)).
Qed.

Lemma toWellFormed_is_string (s : jsstring) :
  is_string s -> is_string (Buffer.toWellFormed s).
Proof.
  intros Hs. rewrite <- to_utf8_from_utf8 by assumption.
  now apply to_utf8_is_string, from_utf8_bytes.
Qed.

(** ** crypt.ts: the codec *)

Lemma fromCharCode_range (n : Z) : is_code_unit (fromCharCode n).
Proof. unfold is_code_unit, fromCharCode. apply Z.mod_pos_bound. lia. Qed.

Lemma fromCharCode_id (c : Z) : is_code_unit c -> fromCharCode c = c.
Proof. unfold is_code_unit, fromCharCode. intros H. now apply Z.mod_small. Qed.

Lemma unshiftChar_shiftChar (c g : Z) :
  is_code_unit c -> unshiftChar (shiftChar c g) g = c.
Proof.
  intros Hc. unfold unshiftChar, shiftChar, fromCharCode.
  rewrite Zminus_mod_idemp_l. replace (c + g - g) with c by lia.
  now apply Z.mod_small.
Qed.

Lemma map_chars_from_length (f : Z -> Z -> Z) (i : Z) (s : jsstring) :
  List.length (map_chars_from f i s) = List.length s.
Proof. revert i. induction s as [|c s IH]; intros i; simpl; [|rewrite IH]; reflexivity. Qed.

Lemma map_chars_from_app (f : Z -> Z -> Z) (i : Z) (a b : jsstring) :
  map_chars_from f i (a ++ b)
  = map_chars_from f i a ++ map_chars_from f (i + len a) b.
Proof.
  revert i. induction a as [|c a IH]; intros i.
  - cbn [app map_chars_from]. unfold len. simpl. now rewrite Z.add_0_r.
  - cbn [app map_chars_from]. rewrite IH. do 3 f_equal. unfold len. simpl List.length. lia.
Qed.

Lemma map_chars_from_ext (f g : Z -> Z -> Z) (i : Z) (s : jsstring) :
  (forall c j, f c j = g c j) -> map_chars_from f i s = map_chars_from g i s.
Proof.
  intros H. revert i. induction s as [|c s IH]; intros i; simpl; [reflexivity|].
  now rewrite H, IH.
Qed.

Lemma map_chars_from_is_string (f : Z -> Z -> Z) (i : Z) (s : jsstring) :
  (forall c j, is_code_unit (f c j)) -> is_string (map_chars_from f i s).
Proof.
  intros H. revert i. induction s as [|c s IH]; intros i; simpl; constructor; auto.
  apply IH.
Qed.

Lemma unshift_shift_from (g : Z -> Z) (i : Z) (s : jsstring) :
  is_string s ->
  map_chars_from (fun char index => unshiftChar char (g index)) i
    (map_chars_from (fun char index => shiftChar char (g index)) i s) = s.
Proof.
  intros Hs. revert i. induction Hs as [|c s Hc _ IH]; intros i; simpl; [reflexivity|].
  now rewrite unshiftChar_shiftChar, IH.
Qed.

(** What decoding makes of an encoded string: the string itself if its
    shifted form is well formed, and else the string with the lone
    surrogates of the shifted form replaced. *)
Lemma base64Decode_base64Encode (data : jsstring) (key : option jsstring) :
  base64Decode (base64Encode data key) key
  = key_unshifted key (Buffer.toWellFormed (key_shifted key data)).
Proof.
  unfold base64Decode, base64Encode, key_unshifted, key_shifted. cbv zeta.
  set (shifted := map_chars _ data).
  assert (Hshifted : is_string shifted).
  { apply map_chars_from_is_string. intros. apply fromCharCode_range. }
  pose proof (from_utf8_bytes shifted Hshifted) as Hb1.
  pose proof (from_utf8_bytes _ (to_base64_is_string _ Hb1)) as Hb2.
  unfold map_chars at 2 3.
  rewrite (unshift_shift_from (fun index => Z.rem index 5))
    by (apply to_base64_is_string, Hb2).
  rewrite base64_text_round_trip by assumption.
  rewrite from_base64_to_base64 by assumption.
  now rewrite to_utf8_from_utf8 by assumption.
Qed.

Lemma key_unshifted_shifted (key : option jsstring) (data : jsstring) :
  is_string data -> key_unshifted key (key_shifted key data) = data.
Proof.
  intros Hs. unfold key_unshifted, key_shifted, map_chars.
  now apply (unshift_shift_from (fun index => Z.rem (keySum (or_default key) + index) 20)).
Qed.

Lemma shiftChar_unshiftChar (c g : Z) :
  is_code_unit c -> shiftChar (unshiftChar c g) g = c.
Proof.
  intros Hc. unfold unshiftChar, shiftChar, fromCharCode.
  rewrite Zplus_mod_idemp_l. replace (c - g + g) with c by lia.
  now apply Z.mod_small.
Qed.

Lemma shift_unshift_from (g : Z -> Z) (i : Z) (s : jsstring) :
  is_string s ->
  map_chars_from (fun char index => shiftChar char (g index)) i
    (map_chars_from (fun char index => unshiftChar char (g index)) i s) = s.
Proof.
  intros Hs. revert i. induction Hs as [|c s Hc _ IH]; intros i; simpl; [reflexivity|].
  now rewrite shiftChar_unshiftChar, IH.
Qed.

(** [base64Encode("hi")] with the default key: [hi] shifted to [oq],
    [b3E=], [YjNFPQ==], and the last mix. *)
Example base64Encode_hi : base64Encode (lit "hi") None = lit "YkPITQ>?".
Proof. vm_compute. reflexivity. Qed.

(** ** crypt.ts: decrypt *)

Lemma trim_start_keeps (s : jsstring) :
  (forall c, hd_error s = Some c -> is_white_space c = false) -> trim_start s = s.
Proof.
  destruct s as [|c s]; [reflexivity|]. intros H. simpl.
  now rewrite (H c eq_refl).
Qed.

(** [trim] leaves a string without white space as it is. *)
Lemma trim_keeps (s : jsstring) :
  Forall (fun c => is_white_space c = false) s -> trim s = s.
Proof.
  intros Hs. unfold trim.
  rewrite (trim_start_keeps s).
  2:{ intros c Hc. destruct s; [discriminate|]. injection Hc as ->. now inversion Hs. }
  rewrite trim_start_keeps; [apply rev_involutive|].
  intros c Hc. apply Forall_rev in Hs.
  destruct (rev s); [discriminate|]. injection Hc as ->. now inversion Hs.
Qed.

Lemma trim_start_suffix (s : jsstring) : exists ws, s = ws ++ trim_start s.
Proof.
  induction s as [|c s [ws IH]]; [now exists []|]. simpl.
  destruct (is_white_space c).
  - exists (c :: ws). simpl. now f_equal.
  - now exists [].
Qed.

(** The characters of a trimmed string are characters of the string. *)
Lemma trim_Forall (P : Z -> Prop) (s : jsstring) : Forall P s -> Forall P (trim s).
Proof.
  intros Hs. unfold trim. apply Forall_rev.
  destruct (trim_start_suffix (rev (trim_start s))) as [ws Hws].
  assert (H1 : Forall P (rev (trim_start s))).
  { apply Forall_rev. destruct (trim_start_suffix s) as [ws' Hws'].
    rewrite Hws' in Hs. now apply Forall_app in Hs. }
  rewrite Hws in H1. now apply Forall_app in H1.
Qed.

Lemma char_at_index_app (pre : jsstring) (c : Z) (post : jsstring) :
  char_at_index (pre ++ c :: post) (len pre) = Some c.
Proof.
  unfold char_at_index, len.
  destruct (Z.of_nat (List.length pre) <? 0) eqn:H; [apply Z.ltb_lt in H; lia|].
  rewrite Nat2Z.id. rewrite nth_error_app2 by lia.
  now rewrite Nat.sub_diag.
Qed.

Lemma slice_length (s : jsstring) (i : Z) :
  0 <= i <= len s - 1 -> len (slice s i (len s - 1)) = len s - 1 - i.
Proof.
  intros Hi. unfold slice. fold (len s).
  destruct (i <? 0) eqn:H1; [apply Z.ltb_lt in H1; lia|].
  destruct (len s - 1 <? 0) eqn:H2; [apply Z.ltb_lt in H2; lia|].
  unfold len in *. rewrite length_firstn, length_skipn. lia.
Qed.

Lemma slice_last (a : jsstring) (x : Z) :
  slice (a ++ [x]) (-1) (len (a ++ [x])) = [x].
Proof.
  unfold slice. fold (len (a ++ [x])). rewrite len_app. change (len [x]) with 1.
  pose proof (len_nonneg a) as Ha.
  change (-1 <? 0) with true. cbv iota.
  destruct (len a + 1 <? 0) eqn:H; [apply Z.ltb_lt in H; lia|].
  replace (Z.max (len a + 1 + -1) 0) with (len a) by lia.
  replace (Z.min (len a + 1) (len a + 1) - len a) with 1 by lia.
  unfold len. rewrite Nat2Z.id, skipn_app, Nat.sub_diag, skipn_all. reflexivity.
Qed.

Lemma unshift10_shift10 (c : Z) : is_code_unit c -> unshift10 (shift10 c) = c.
Proof.
  intros Hc. unfold unshift10, shift10, fromCharCode.
  replace ((c + 80 - 70) mod 65536 - 80 + 70) with ((c + 10) mod 65536 - 10)
    by (replace (c + 80 - 70) with (c + 10) by lia; lia).
  rewrite Zminus_mod_idemp_l. replace (c + 10 - 10) with c by lia.
  now apply Z.mod_small.
Qed.

Lemma map_unshift10_shift10 (s : jsstring) :
  is_string s -> map unshift10 (map shift10 s) = s.
Proof.
  induction 1 as [|c s Hc _ IH]; simpl; [reflexivity|].
  now rewrite unshift10_shift10, IH.
Qed.

(** The loop of [decrypt] on a text [pre ++ body ++ post] read from the
    end of [pre], where [post] is one longer than the second marker
    says: it collects [body] and stops. *)
Lemma decrypt_loop_collects (body : jsstring) :
  forall (steps : nat) (pre post res : jsstring) (secondPart : Z),
    (List.length body < steps)%nat ->
    len post = secondPart + 1 -> 0 <= secondPart ->
    decrypt_loop steps (pre ++ body ++ post) secondPart (len pre) res
    = Ok (res ++ map unshift10 body).
Proof.
  induction body as [|c body IH]; intros steps pre post res secondPart Hsteps Hpost Hsp;
    pose proof (len_nonneg pre) as Hpre; pose proof (len_nonneg post) as Hpo.
  - destruct steps as [|steps]; [simpl in Hsteps; lia|].
    destruct post as [|p post]; [rewrite len_nil in Hpost; lia|].
    cbn [app decrypt_loop]. rewrite char_at_index_app.
    rewrite slice_length by (rewrite len_app; lia).
    rewrite len_app.
    replace (len pre + len (p :: post) - 1 - len pre) with secondPart by lia.
    rewrite Z.eqb_refl. cbn [negb map]. now rewrite app_nil_r.
  - pose proof (len_nonneg body) as Hbo.
    destruct steps as [|steps]; [simpl in Hsteps; lia|].
    cbn [app decrypt_loop]. rewrite char_at_index_app.
    rewrite slice_length by (rewrite len_app, len_cons, len_app; lia).
    rewrite len_app, len_cons, len_app.
    destruct (len pre + (1 + (len body + len post)) - 1 - len pre =? secondPart) eqn:He.
    { apply Z.eqb_eq in He. lia. }
    cbn [negb].
    replace (pre ++ c :: body ++ post) with ((pre ++ [c]) ++ body ++ post)
      by (now rewrite <- app_assoc).
    replace (len pre + 1) with (len (pre ++ [c])) by (rewrite len_app; reflexivity).
    rewrite IH; [|simpl in Hsteps; lia|assumption|assumption].
    cbn [map]. now rewrite <- app_assoc.
Qed.

(** [unpad] takes a payload apart. *)
Lemma unpad_payload (pad0 body pad1 : jsstring) :
  len pad0 + 85 < 65536 -> len pad1 + 85 < 65536 ->
  unpad ([fromCharCode (len pad0 + 85)] ++ pad0 ++ body ++ pad1
           ++ [fromCharCode (len pad1 + 85)])
  = Ok (map unshift10 body).
Proof.
  intros H0 H1.
  pose proof (len_nonneg pad0) as Hp0. pose proof (len_nonneg pad1) as Hp1.
  rewrite !fromCharCode_id by (unfold is_code_unit; lia).
  unfold unpad.
  replace ([len pad0 + 85] ++ pad0 ++ body ++ pad1 ++ [len pad1 + 85])
    with (([len pad0 + 85] ++ pad0 ++ body ++ pad1) ++ [len pad1 + 85])
    by (now rewrite <- !app_assoc).
  rewrite slice_last.
  rewrite <- !app_assoc. cbn [app]. unfold char_at_index at 1 2. cbn [Z.ltb Z.compare Z.to_nat nth_error].
  cbv zeta.
  replace (len pad0 + 85 - 85 + 1) with (len ((len pad0 + 85) :: pad0))
    by (rewrite len_cons; lia).
  replace ((len pad0 + 85) :: pad0 ++ body ++ pad1 ++ [len pad1 + 85])
    with (((len pad0 + 85) :: pad0) ++ body ++ (pad1 ++ [len pad1 + 85]))
    by (now rewrite <- app_comm_cons).
  rewrite decrypt_loop_collects; [reflexivity| | |].
  - pose proof (len_nonneg body).
    repeat (rewrite len_app || rewrite len_cons). rewrite len_nil.
    unfold len in *. lia.
  - rewrite len_app. change (len [len pad1 + 85]) with 1. lia.
  - lia.
Qed.

Lemma decrypt_unfold (c : jsstring) (key : option jsstring) :
  decrypt c (Some (DecryptOptions.mk (Present key)))
  = try_decoding (unpad (map unshift10 (base64Decode (trim c) key))).
Proof. reflexivity. Qed.

Lemma white_space_out_of_range (c : Z) : 43 <= c <= 126 -> is_white_space c = false.
Proof.
  intros Hc. unfold is_white_space.
  repeat match goal with
         | |- context [?a <=? ?b] =>
             first [ rewrite (proj2 (Z.leb_le a b)) by lia
                   | rewrite (proj2 (Z.leb_gt a b)) by lia ]
         | |- context [?a =? ?b] => rewrite (proj2 (Z.eqb_neq a b)) by lia
         end.
  reflexivity.
Qed.

Lemma final_mix_chars (i : Z) (s : jsstring) :
  0 <= i -> Forall (fun c => 43 <= c <= 122) s ->
  Forall (fun c => 43 <= c <= 126)
    (map_chars_from (fun char index => shiftChar char (Z.rem index 5)) i s).
Proof.
  intros Hi Hs. revert i Hi.
  induction Hs as [|c s Hc _ IH]; intros i Hi; simpl; constructor.
  - unfold shiftChar, fromCharCode.
    pose proof (Z.rem_bound_pos i 5 Hi ltac:(lia)).
    rewrite Z.mod_small; lia.
  - apply IH. lia.
Qed.

(** An encoded text has no white space: [trim] leaves it as it is. *)
Lemma trim_base64Encode (data : jsstring) (key : option jsstring) :
  trim (base64Encode data key) = base64Encode data key.
Proof.
  apply trim_keeps. unfold base64Encode. cbv zeta.
  eapply Forall_impl; [intros c; apply white_space_out_of_range|].
  apply final_mix_chars; [lia|].
  apply to_base64_chars, from_utf8_bytes, to_base64_is_string, from_utf8_bytes.
  apply map_chars_from_is_string. intros. apply fromCharCode_range.
Qed.

(** [decrypt] on an encoded payload whose shifted form is well formed
    is [unpad] on the payload. *)
Lemma decrypt_encoded (P : jsstring) (key : option jsstring) :
  is_string P ->
  Buffer.isWellFormed (key_shifted key (map shift10 P)) = true ->
  decrypt (base64Encode (map shift10 P) key) (Some (DecryptOptions.mk (Present key)))
  = try_decoding (unpad P).
Proof.
  intros HP Hwf. rewrite decrypt_unfold, trim_base64Encode, base64Decode_base64Encode.
  apply isWellFormed_eq in Hwf. rewrite Hwf.
  rewrite key_unshifted_shifted.
  - now rewrite map_unshift10_shift10.
  - apply Forall_map. apply Forall_forall. intros. apply fromCharCode_range.
Qed.

Lemma shift10_small (c : Z) : 0 <= c <= 60000 -> shift10 c = c + 10.
Proof. intros Hc. unfold shift10, fromCharCode. rewrite Z.mod_small; lia. Qed.

(** Shifting by the key keeps small code units below the surrogates. *)
Lemma key_shifted_small (key : option jsstring) (X : jsstring) :
  Forall (fun c => 20 <= c <= 50000) X ->
  Buffer.isWellFormed (key_shifted key X) = true.
Proof.
  intros HX. apply isWellFormed_eq, toWellFormed_no_surrogate.
  unfold key_shifted, map_chars. generalize 0 as i.
  induction HX as [|c X Hc _ IH]; intros i; simpl; constructor; [|apply IH].
  unfold shiftChar, fromCharCode.
  pose proof (Z.rem_bound_abs (keySum (or_default key) + i) 20 ltac:(lia)).
  rewrite Z.mod_small; lia.
Qed.

Lemma resolve_set_chars (type_ : option CharacterSetType) (c : Z) :
  In c (resolve_set type_) -> 48 <= c <= 122.
Proof.
  assert (H : forallb (fun c => (48 <=? c) && (c <=? 122)) (resolve_set type_) = true)
    by (destruct type_ as [[]|]; vm_compute; reflexivity).
  intros Hin. rewrite forallb_forall in H. specialize (H c Hin).
  apply andb_true_iff in H. rewrite !Z.leb_le in H. lia.
Qed.

(** [decrypt] undoes a candidate made of a printable plaintext and two
    paddings of characters of the sets. *)
Lemma decrypt_candidate (data pad0 pad1 : jsstring) (key : option jsstring) :
  printable_ascii data ->
  Forall (fun c => 48 <= c <= 122) pad0 -> Forall (fun c => 48 <= c <= 122) pad1 ->
  1 <= len pad0 <= 20 -> 1 <= len pad1 <= 20 ->
  decrypt (candidate data pad0 pad1 key) (Some (DecryptOptions.mk (Present key)))
  = Ok data.
Proof.
  intros Hdata Hp0 Hp1 Hl0 Hl1. unfold candidate.
  set (P := [fromCharCode (len pad0 + 85)] ++ pad0 ++ map shift10 data ++ pad1
              ++ [fromCharCode (len pad1 + 85)]).
  assert (HP : Forall (fun c => 10 <= c <= 1000) P).
  { subst P. rewrite !fromCharCode_id by (unfold is_code_unit; lia).
    apply Forall_app; split; [|apply Forall_app; split;
      [|apply Forall_app; split; [|apply Forall_app; split]]].
    - constructor; [lia|constructor].
    - eapply Forall_impl; [|exact Hp0]. intros c Hc. cbv beta in Hc. lia.
    - apply Forall_map. eapply Forall_impl; [|exact Hdata].
      intros c Hc. cbv beta in Hc. rewrite shift10_small; lia.
    - eapply Forall_impl; [|exact Hp1]. intros c Hc. cbv beta in Hc. lia.
    - constructor; [lia|constructor]. }
  rewrite decrypt_encoded.
  - subst P. rewrite unpad_payload by lia. cbn [try_decoding]. f_equal.
    apply map_unshift10_shift10.
    eapply Forall_impl; [|exact Hdata]. intros c Hc. cbv beta in Hc.
    unfold is_code_unit. lia.
  - eapply Forall_impl; [|exact HP]. intros c Hc. cbv beta in Hc.
    unfold is_code_unit. lia.
  - apply key_shifted_small. apply Forall_map.
    eapply Forall_impl; [|exact HP]. intros c Hc. cbv beta in Hc.
    rewrite shift10_small; lia.
Qed.

(** ** crypt.ts: encrypt *)

Lemma try_rethrow_inv {A} (wrap : exn -> exn) (m : M A) (pos : nat) (a : A) (pos' : nat) :
  try_rethrow wrap m pos = (Return a, pos') -> m pos = (Return a, pos').
Proof.
  unfold try_rethrow. destruct (m pos) as [[x|e|] p]; intros H; congruence.
Qed.

Lemma try_rethrow_Return {A} (wrap : exn -> exn) (m : M A) (pos : nat) (a : A) (pos' : nat) :
  m pos = (Return a, pos') -> try_rethrow wrap m pos = (Return a, pos').
Proof. unfold try_rethrow. now intros ->. Qed.

Lemma try_rethrow_OutOfFuel {A} (wrap : exn -> exn) (m : M A) (pos pos' : nat) :
  m pos = (OutOfFuel, pos') -> try_rethrow wrap m pos = (OutOfFuel, pos').
Proof. unfold try_rethrow. now intros ->. Qed.

Lemma lift_inv {A} (r : result A) (pos : nat) (a : A) (pos' : nat) :
  lift r pos = (Return a, pos') -> r = Ok a /\ pos' = pos.
Proof.
  destruct r; cbn; unfold ret, throw; intros H; [|discriminate].
  injection H as -> ->. now split.
Qed.

Section EncryptProperties.

Variable rnd : nat -> nat.

Lemma random_below_eq (n pos : nat) :
  random_below rnd (S n) pos = (Return (Nat.modulo (rnd pos) (S n)), S pos).
Proof. reflexivity. Qed.

(** One call of [encrypt] whose two paddings are drawn and whose
    candidate passes the check. *)
Lemma encrypt_returns_candidate (fuel : nat) (data : jsstring)
    (options : option EncryptOptions.t) (pos : nat)
    (pad0 : jsstring) (p1 : nat) (pad1 : jsstring) (p2 : nat) :
  let o := resolved_options options in
  tokenGenerator rnd fuel (Z.of_nat (Nat.modulo (rnd pos) 20) + 1)
    (EncryptOptions.firstRandomCharSet o) (S pos) = (Return pad0, p1) ->
  tokenGenerator rnd fuel (Z.of_nat (Nat.modulo (rnd p1) 20) + 1)
    (EncryptOptions.secondRandomCharSet o) (S p1) = (Return pad1, p2) ->
  decrypt (candidate (trim data) pad0 pad1 (EncryptOptions.key o)) (check_options options)
  = Ok (trim data) ->
  encrypt rnd (S fuel) data options pos
  = (Return (Some (candidate (trim data) pad0 pad1 (EncryptOptions.key o))), p2).
Proof.
  intros o H0 H1 Hd. cbn [encrypt]. fold (resolved_options options). fold o.
  apply try_rethrow_Return.
  rewrite (bind_Return _ _ pos _ _ (random_below_eq 19 pos)).
  rewrite (bind_Return _ _ (S pos) _ _ H0).
  rewrite (bind_Return _ _ p1 _ _ (random_below_eq 19 p1)).
  rewrite (bind_Return _ _ (S p1) _ _ H1).
  unfold check_options in Hd. fold o in Hd.
  unfold candidate, shift10 in Hd.
  rewrite (bind_Return _ _ p2 (trim data) p2) by (now rewrite Hd).
  now rewrite str_eqb_refl.
Qed.

(** A call of [encrypt] that returns a string: the string passed the
    check. *)
Lemma encrypt_Some_inv (fuel : nat) (data : jsstring)
    (options : option EncryptOptions.t) (pos : nat) (c : jsstring) (pos' : nat) :
  encrypt rnd fuel data options pos = (Return (Some c), pos') ->
  decrypt c (check_options options) = Ok (trim data).
Proof.
  destruct fuel as [|fuel]; [discriminate|].
  cbn [encrypt]. fold (resolved_options options).
  intros H. apply try_rethrow_inv in H.
  apply bind_inv in H as (n0 & q0 & _ & H).
  apply bind_inv in H as (pad0 & q1 & _ & H).
  apply bind_inv in H as (n1 & q2 & _ & H).
  apply bind_inv in H as (pad1 & q3 & _ & H).
  apply bind_inv in H as (d & q4 & Hd & H).
  apply lift_inv in Hd as [Hd _].
  destruct (str_eqb d (trim data)) eqn:He.
  - apply str_eqb_eq in He. subst d. injection H as <- _. exact Hd.
  - apply bind_inv in H as (x & q5 & _ & H). discriminate.
Qed.

(** A string that [encrypt] returns is an encoded text. *)
Lemma encrypt_Some_trim (fuel : nat) (data : jsstring)
    (options : option EncryptOptions.t) (pos : nat) (c : jsstring) (pos' : nat) :
  encrypt rnd fuel data options pos = (Return (Some c), pos') -> trim c = c.
Proof.
  destruct fuel as [|fuel]; [discriminate|].
  cbn [encrypt]. fold (resolved_options options).
  intros H. apply try_rethrow_inv in H.
  apply bind_inv in H as (n0 & q0 & _ & H).
  apply bind_inv in H as (pad0 & q1 & _ & H).
  apply bind_inv in H as (n1 & q2 & _ & H).
  apply bind_inv in H as (pad1 & q3 & _ & H).
  apply bind_inv in H as (d & q4 & _ & H).
  destruct (str_eqb d (trim data)) eqn:He.
  - injection H as <- _. apply trim_base64Encode.
  - apply bind_inv in H as (x & q5 & _ & H). discriminate.
Qed.

Lemma encrypt_OutOfFuel_first (fuel : nat) (data : jsstring)
    (options : option EncryptOptions.t) (pos p1 : nat) :
  tokenGenerator rnd fuel (Z.of_nat (Nat.modulo (rnd pos) 20) + 1)
    (EncryptOptions.firstRandomCharSet (resolved_options options)) (S pos)
  = (OutOfFuel, p1) ->
  encrypt rnd (S fuel) data options pos = (OutOfFuel, p1).
Proof.
  intros H0. cbn [encrypt]. fold (resolved_options options).
  apply try_rethrow_OutOfFuel.
  rewrite (bind_Return _ _ pos _ _ (random_below_eq 19 pos)).
  now rewrite (bind_OutOfFuel _ _ (S pos) _ H0).
Qed.

Lemma encrypt_OutOfFuel_second (fuel : nat) (data : jsstring)
    (options : option EncryptOptions.t) (pos : nat) (pad0 : jsstring) (p1 p2 : nat) :
  tokenGenerator rnd fuel (Z.of_nat (Nat.modulo (rnd pos) 20) + 1)
    (EncryptOptions.firstRandomCharSet (resolved_options options)) (S pos)
  = (Return pad0, p1) ->
  tokenGenerator rnd fuel (Z.of_nat (Nat.modulo (rnd p1) 20) + 1)
    (EncryptOptions.secondRandomCharSet (resolved_options options)) (S p1)
  = (OutOfFuel, p2) ->
  encrypt rnd (S fuel) data options pos = (OutOfFuel, p2).
Proof.
  intros H0 H1. cbn [encrypt]. fold (resolved_options options).
  apply try_rethrow_OutOfFuel.
  rewrite (bind_Return _ _ pos _ _ (random_below_eq 19 pos)).
  rewrite (bind_Return _ _ (S pos) _ _ H0).
  rewrite (bind_Return _ _ p1 _ _ (random_below_eq 19 p1)).
  now rewrite (bind_OutOfFuel _ _ (S p1) _ H1).
Qed.

(** The padding of [encrypt]: between one and twenty characters of
    the set. *)
Lemma padding_shape (fuel : nat) (type_ : option CharacterSetType)
    (pos : nat) (pad : jsstring) (pos' : nat) (n : nat) :
  tokenGenerator rnd fuel (Z.of_nat (Nat.modulo n 20) + 1) type_ pos = (Return pad, pos') ->
  1 <= len pad <= 20 /\ Forall (fun c => 48 <= c <= 122) pad.
Proof.
  intros H. pose proof (Nat.mod_upper_bound n 20 ltac:(lia)) as Hn.
  apply tokenGenerator_shape in H as (Hlen & _ & Hall); [|lia].
  split; [lia|].
  eapply Forall_impl; [|exact Hall]. intros c. apply resolve_set_chars.
Qed.

(** On a printable plaintext, a call of [encrypt] that has fuel left
    returns a string that [decrypt] turns into the trimmed plaintext. *)
Lemma encrypt_printable (fuel : nat) (data : jsstring)
    (options : option EncryptOptions.t) (pos : nat) :
  printable_ascii data ->
  fst (encrypt rnd fuel data options pos) = OutOfFuel
  \/ exists c pos',
       encrypt rnd fuel data options pos = (Return (Some c), pos')
       /\ decrypt c (check_options options) = Ok (trim data).
Proof.
  intros Hdata. destruct fuel as [|fuel]; [now left|].
  destruct (tokenGenerator rnd fuel (Z.of_nat (Nat.modulo (rnd pos) 20) + 1)
              (EncryptOptions.firstRandomCharSet (resolved_options options)) (S pos))
    as [[pad0|e|] p1] eqn:H0.
  - destruct (tokenGenerator rnd fuel (Z.of_nat (Nat.modulo (rnd p1) 20) + 1)
                (EncryptOptions.secondRandomCharSet (resolved_options options)) (S p1))
      as [[pad1|e|] p2] eqn:H1.
    + right.
      destruct (padding_shape _ _ _ _ _ _ H0) as [Hl0 Hc0].
      destruct (padding_shape _ _ _ _ _ _ H1) as [Hl1 Hc1].
      assert (Hd : decrypt (candidate (trim data) pad0 pad1
                              (EncryptOptions.key (resolved_options options)))
                     (check_options options) = Ok (trim data)).
      { apply decrypt_candidate; auto. now apply trim_Forall. }
      eexists _, _. split; [|exact Hd].
      exact (encrypt_returns_candidate fuel data options pos pad0 p1 pad1 p2 H0 H1 Hd).
    + exfalso. eapply tokenGenerator_no_throw. now rewrite H1.
    + left. now rewrite (encrypt_OutOfFuel_second _ _ _ _ _ _ _ H0 H1).
  - exfalso. eapply tokenGenerator_no_throw. now rewrite H0.
  - left. now rewrite (encrypt_OutOfFuel_first _ _ _ _ _ H0).
Qed.

(** On an oracle whose redraws come to an end, enough fuel makes
    [encrypt] return on a printable plaintext. *)
Lemma encrypt_printable_returns (data : jsstring)
    (options : option EncryptOptions.t) (pos : nat) :
  printable_ascii data ->
  settles rnd (resolve_set (EncryptOptions.firstRandomCharSet (resolved_options options))) ->
  settles rnd (resolve_set (EncryptOptions.secondRandomCharSet (resolved_options options))) ->
  exists fuel0 c pos',
    (forall fuel, (fuel0 <= fuel)%nat ->
       encrypt rnd fuel data options pos = (Return (Some c), pos'))
    /\ decrypt c (check_options options) = Ok (trim data).
Proof.
  intros Hdata Hs0 Hs1.
  pose proof (Nat.mod_upper_bound (rnd pos) 20 ltac:(lia)) as Hn0.
  destruct (Hs0 (S pos + Z.to_nat (Z.of_nat (Nat.modulo (rnd pos) 20) + 1))%nat) as [d0 Hd0].
  destruct (tokenGenerator_settles rnd _ _ _ _ Hd0 ltac:(lia)) as (pad0 & p1 & H0).
  destruct (Hs1 (S p1 + Z.to_nat (Z.of_nat (Nat.modulo (rnd p1) 20) + 1))%nat) as [d1 Hd1].
  destruct (tokenGenerator_settles rnd _ _ _ _ Hd1 ltac:(lia)) as (pad1 & p2 & H1).
  pose proof (H0 (S d0) (Nat.lt_succ_diag_r d0)) as H0'.
  pose proof (H1 (S d1) (Nat.lt_succ_diag_r d1)) as H1'.
  destruct (padding_shape _ _ _ _ _ _ H0') as [Hl0 Hc0].
  destruct (padding_shape _ _ _ _ _ _ H1') as [Hl1 Hc1].
  assert (Hd : decrypt (candidate (trim data) pad0 pad1
                          (EncryptOptions.key (resolved_options options)))
                 (check_options options) = Ok (trim data)).
  { apply decrypt_candidate; auto. now apply trim_Forall. }
  exists (S (S (Nat.max d0 d1))).
  exists (candidate (trim data) pad0 pad1 (EncryptOptions.key (resolved_options options))).
  exists p2. split; [|exact Hd].
  intros [|fuel] Hf; [lia|].
  assert (Hf0 : (d0 < fuel)%nat) by lia. assert (Hf1 : (d1 < fuel)%nat) by lia.
  exact (encrypt_returns_candidate fuel data options pos pad0 p1 pad1 p2
           (H0 fuel Hf0) (H1 fuel Hf1) Hd).
Qed.

End EncryptProperties.

(** ** crypt.ts: encryptObject and decryptObject *)

Section ValueInduction.

Context {number : Type}.
Variable P : value number -> Prop.
Hypothesis HString : forall s, P (VString s).
Hypothesis HNumber : forall n, P (VNumber n).
Hypothesis HBoolean : forall b, P (VBoolean b).
Hypothesis HNull : P VNull.
Hypothesis HUndefined : P VUndefined.
Hypothesis HArray : forall items, Forall P items -> P (VArray items).
Hypothesis HObject :
  forall props, Forall (fun kv => P (snd kv)) props -> P (VObject props).

(** Induction on values, with the hypothesis on every item of an
    array and on every value of an object. *)
Lemma value_induction (v : value number) : P v.
Proof.
  revert v.
  exact (fix induction (v : value number) : P v :=
           match v with
           | VString s => HString s
           | VNumber n => HNumber n
           | VBoolean b => HBoolean b
           | VNull => HNull
           | VUndefined => HUndefined
           | VArray items =>
               HArray items
                 ((fix all (l : list (value number)) : Forall P l :=
                     match l with
                     | [] => Forall_nil P
                     | x :: rest => Forall_cons x (induction x) (all rest)
                     end) items)
           | VObject props =>
               HObject props
                 ((fix all (l : list (jsstring * value number))
                     : Forall (fun kv => P (snd kv)) l :=
                     match l with
                     | [] => Forall_nil _
                     | kv :: rest =>
                         Forall_cons (P := fun kv => P (snd kv)) kv
                           (induction (snd kv)) (all rest)
                     end) props)
           end).
Qed.

End ValueInduction.

Lemma define_own_fresh {V} (obj : list (jsstring * V)) (k : jsstring) (v : V) :
  ~ In k (map fst obj) -> define_own obj k v = obj ++ [(k, v)].
Proof.
  induction obj as [|[k' v'] obj IH]; intros Hk; [reflexivity|].
  cbn [define_own]. destruct (str_eqb k' k) eqn:He.
  - apply str_eqb_eq in He. subst k'. exfalso. apply Hk. now left.
  - cbn [app]. rewrite IH; [reflexivity|]. intros Hin. apply Hk. now right.
Qed.

(** Assigning to a key that is new and is not [__proto__] appends an
    own property. *)
Lemma set_prop_fresh {V} (obj : list (jsstring * V)) (k : jsstring) (v : V) :
  k <> lit "__proto__" -> ~ In k (map fst obj) -> set_prop obj k v = obj ++ [(k, v)].
Proof.
  intros Hp Hk. unfold set_prop. apply str_eqb_neq in Hp. rewrite Hp.
  now apply define_own_fresh.
Qed.

(** Assigning to [__proto__] leaves the own properties as they are. *)
Lemma set_prop_proto {V} (obj : list (jsstring * V)) (v : V) :
  set_prop obj (lit "__proto__") v = obj.
Proof. reflexivity. Qed.

Lemma NoDup_app_cons_fresh {A} (a : list A) (x : A) (b : list A) :
  NoDup (a ++ x :: b) -> ~ In x a /\ NoDup ((a ++ [x]) ++ b).
Proof.
  intros H. split.
  - apply NoDup_remove_2 in H. intros Hin. apply H. apply in_or_app. now left.
  - now rewrite <- app_assoc.
Qed.

Section Loops.

Context {number : Type}.





End Loops.

Lemma fold_right_and_Forall {A} (Q : A -> Prop) (l : list A) :
  fold_right (fun x acc => Q x /\ acc) True l <-> Forall Q l.
Proof.
  induction l as [|x l IH]; cbn [fold_right].
  - split; [constructor|trivial].
  - rewrite IH. split.
    + intros [Hx Hl]. now constructor.
    + intros H. now inversion H.
Qed.

Lemma ordinary_keys_items {number : Type} (items : list (value number)) :
  ordinary_keys (VArray items) -> Forall ordinary_keys items.
Proof.
  unfold ordinary_keys. cbn [shape_of shape_ordinary].
  rewrite fold_right_and_Forall, Forall_map. trivial.
Qed.

Lemma ordinary_keys_props {number : Type} (props : list (jsstring * value number)) :
  ordinary_keys (VObject props) ->
  NoDup (map fst props) /\ ~ In (lit "__proto__") (map fst props)
  /\ Forall (fun kv => ordinary_keys (snd kv)) props.
Proof.
  unfold ordinary_keys. cbn [shape_of shape_ordinary].
  rewrite (fold_right_and_Forall (fun kv => shape_ordinary (snd kv))).
  rewrite map_map, Forall_map. cbn [fst snd].
  rewrite (map_ext (fun kv : jsstring * value number => fst kv) fst) by reflexivity.
  intros (Hnd & Hpr & H). now split; [|split].
Qed.

Section EncryptShape.

Context {number : Type}.
Variable String_of_number : number -> jsstring.
Variable rnd : nat -> nat.
Variable fuel : nat.
Variable key : jsstring.




End EncryptShape.

Section DecryptShape.

Context {number : Type}.
Variable key : jsstring.

Lemma decrypt_property_VArray (items : list (value number)) :
  decrypt_property key (VArray items)
  = map_result VArray (array_map_pure (decrypt_item key) items).
Proof. reflexivity. Qed.

Lemma decrypt_item_VArray (items : list (value number)) :
  decrypt_item key (VArray items)
  = map_result VArray (array_map_pure (decrypt_subItem key) items).
Proof. reflexivity. Qed.

Lemma decrypt_subItem_VArray (items : list (value number)) :
  decrypt_subItem key (VArray items)
  = map_result VArray (array_map_pure (decrypt_item key) items).
Proof. reflexivity. Qed.

Lemma decrypt_property_VObject (props : list (jsstring * value number)) :
  decrypt_property key (VObject props)
  = map_result VObject (for_entries_pure (decrypt_property key) props []).
Proof. reflexivity. Qed.

Lemma decrypt_item_VObject (props : list (jsstring * value number)) :
  decrypt_item key (VObject props)
  = map_result VObject (for_entries_pure (decrypt_property key) props []).
Proof. reflexivity. Qed.

Lemma decrypt_subItem_VObject (props : list (jsstring * value number)) :
  decrypt_subItem key (VObject props)
  = map_result VObject (for_entries_pure (decrypt_property key) props []).
Proof. reflexivity. Qed.




End DecryptShape.

(** *** When the walkers return *)



Section WalkerReturns.

Context {number : Type}.
Variable String_of_number : number -> jsstring.
Variable rnd : nat -> nat.
Variable key : jsstring.
Hypothesis Hsettles : settles rnd (characterSets defaultSet).





Lemma printable_boolean (b : bool) : printable_ascii (String_of_boolean b).
Proof.
  destruct b; unfold printable_ascii; cbn; repeat constructor; lia.
Qed.


End WalkerReturns.


Section ResultsOfLoops.

Context {number : Type}.
Variable Q : value number -> Prop.





End ResultsOfLoops.

Section RoundTripOfValues.

Context {number : Type}.
Variable String_of_number : number -> jsstring.
Variable rnd : nat -> nat.
Variable fuel : nat.
Variable key : jsstring.






End RoundTripOfValues.

(** *** encryptObject and decryptObject on an object *)

Section WalkersOnObjects.

Context {number : Type}.
Variable String_of_number : number -> jsstring.
Variable rnd : nat -> nat.

Lemma encryptObject_VObject (fuel : nat) (props : list (jsstring * value number))
    (key : option jsstring) :
  encryptObject String_of_number rnd fuel (VObject props) key
  = (encryptedData <- for_entries (encrypt_property String_of_number rnd fuel (or_default key))
                        props [] ;;
     ret (VObject encryptedData)).
Proof. reflexivity. Qed.

Lemma decryptObject_VObject (props : list (jsstring * value number))
    (key : option jsstring) :
  decryptObject (VObject props) key
  = map_result VObject (for_entries_pure (decrypt_property (or_default key)) props []).
Proof. reflexivity. Qed.





(** The recursive calls of the source, which the three dispatches
    unfold: [encryptObject(v, key)] on an object or on [null], and
    [encryptObject({ arr: subItem }, key).arr] on an array. *)
Lemma encrypt_dispatch_calls (fuel : nat) (key : jsstring)
    (props : list (jsstring * value number)) :
  encrypt_property String_of_number rnd fuel key (VObject props)
  = encryptObject String_of_number rnd fuel (VObject props) (Some key)
  /\ encrypt_item String_of_number rnd fuel key (VObject props)
     = encryptObject String_of_number rnd fuel (VObject props) (Some key)
  /\ encrypt_subItem String_of_number rnd fuel key (VObject props)
     = encryptObject String_of_number rnd fuel (VObject props) (Some key)
  /\ encrypt_property String_of_number rnd fuel key VNull
     = encryptObject String_of_number rnd fuel VNull (Some key).
Proof. repeat split. Qed.

Lemma encrypt_subItem_wraps (fuel : nat) (key : jsstring)
    (items : list (value number)) (pos : nat) :
  encrypt_subItem String_of_number rnd fuel key (VArray items) pos
  = (r <- encryptObject String_of_number rnd fuel
            (VObject [(lit "arr", VArray items)]) (Some key) ;;
     ret (arr_of r)) pos.
Proof.
  rewrite encryptObject_VObject.
  cbn [for_entries or_default encrypt_property encrypt_subItem].
  unfold bind, ret.
  now destruct (array_map _ items pos) as [[x|e|] p].
Qed.

Lemma decrypt_subItem_wraps (key : jsstring) (items : list (value number)) :
  decrypt_subItem key (VArray items)
  = map_result arr_of (decryptObject (VObject [(lit "arr", VArray items)]) (Some key)).
Proof.
  rewrite decryptObject_VObject, decrypt_subItem_VArray.
  cbn [for_entries_pure or_default]. rewrite decrypt_property_VArray.
  now destruct (array_map_pure _ items) as [x|e].
Qed.

End WalkersOnObjects.

(** *** The keys that the loops write *)

(** The keys of a value given explicitly: distinct, and none of them
    [__proto__]. *)
Ltac ordinary_keys_by_cases :=
  unfold ordinary_keys; cbn; repeat split;
  first [ intros Hin; cbn in Hin; intuition discriminate
        | repeat (constructor; [cbn; intuition discriminate|]); constructor ].

Section FreshKeys.

Context {V : Type}.

(** The loop over entries with fresh, distinct and ordinary keys appends one
    property per entry, in order, with what [f] returned. *)
Lemma for_entries_fresh (f : V -> M V) (entries : list (jsstring * V)) :
  forall out pos r pos',
    NoDup (map fst out ++ map fst entries) ->
    ~ In (lit "__proto__") (map fst entries) ->
    for_entries f entries out pos = (Return r, pos') ->
    exists news,
      r = out ++ news
      /\ Forall2 (fun kv ky => fst ky = fst kv
                               /\ exists p p', f (snd kv) p = (Return (snd ky), p'))
                 entries news.
Proof.
  induction entries as [|[k v] entries IH]; intros out pos r pos' Hnd Hpr H.
  - injection H as <- _. exists []. split; [now rewrite app_nil_r|constructor].
  - cbn [for_entries] in H. apply bind_inv in H as (y & p1 & Hy & H).
    cbn [map fst] in Hnd, Hpr. apply NoDup_app_cons_fresh in Hnd as [Hfresh Hnd].
    assert (Hk : k <> lit "__proto__") by (intros ->; apply Hpr; now left).
    assert (Hpr' : ~ In (lit "__proto__") (map fst entries))
      by (intros Hin; apply Hpr; now right).
    rewrite (set_prop_fresh out k y Hk Hfresh) in H.
    apply IH in H as (news & -> & Hnews); [|now rewrite map_app|exact Hpr'].
    exists ((k, y) :: news). split; [now rewrite <- app_assoc|].
    constructor; [|exact Hnews]. split; [reflexivity|]. now exists pos, p1.
Qed.

End FreshKeys.









(** * The claims *)

(** ** The sample oracle *)

(** On each of the three sets, a draw of the sample oracle that gives
    [0] is followed by one that does not. *)
Lemma sample_oracle_next (type_ : option CharacterSetType) (m : nat) :
  (m < List.length (resolve_set type_))%nat ->
  charAt (resolve_set type_) m = lit "0" ->
  charAt (resolve_set type_) (Nat.modulo (m + 7) (List.length (resolve_set type_)))
  <> lit "0".
Proof.
  set (cs := resolve_set type_).
  assert (H : forallb (fun m => negb (str_eqb (charAt cs m) (lit "0"))
                                || negb (str_eqb (charAt cs (Nat.modulo (m + 7) (List.length cs)))
                                           (lit "0")))
                      (seq 0 (List.length cs)) = true)
    by (subst cs; destruct type_ as [[]|]; vm_compute; reflexivity).
  intros Hm H0. rewrite forallb_forall in H.
  specialize (H m ltac:(apply in_seq; lia)).
  rewrite H0, str_eqb_refl in H. cbn [negb orb] in H.
  apply negb_true_iff, str_eqb_neq in H. exact H.
Qed.

Lemma sample_oracle_settles (type_ : option CharacterSetType) :
  settles sample_oracle (resolve_set type_).
Proof.
  intros p. pose proof (resolve_set_nonempty type_) as Hne.
  set (n := List.length (resolve_set type_)) in *.
  destruct (str_eqb (charAt (resolve_set type_) (Nat.modulo (sample_oracle (p + 0)) n)) (lit "0"))
    eqn:He.
  - exists 1%nat. apply str_eqb_eq in He.
    replace (Nat.modulo (sample_oracle (p + 1)) n)
      with (Nat.modulo (Nat.modulo (sample_oracle (p + 0)) n + 7) n).
    + apply sample_oracle_next; [apply Nat.mod_upper_bound; lia|exact He].
    + unfold sample_oracle.
      rewrite Nat.Div0.add_mod_idemp_l. f_equal. lia.
  - exists 0%nat. now apply str_eqb_neq.
Qed.

(** ** C10 and C6: tokenGenerator *)

(** C10. [tokenGenerator(0, set)] returns the empty string, and for a
    negative length the loop of [tokenGenerator] never ends: whatever
    the fuel, the run is out of fuel. *)
Theorem tokenGenerator_zero_and_negative (rnd : nat -> nat)
    (type_ : option CharacterSetType) (pos : nat) :
  (forall fuel, tokenGenerator rnd (S fuel) 0 type_ pos = (Return [], pos))
  /\ (forall length fuel, length < 0 ->
        tokenGenerator rnd fuel length type_ pos = (OutOfFuel, pos)).
Proof.
  split.
  - intros fuel. reflexivity.
  - intros length fuel Hneg.
    rewrite tokenGenerator_nonpositive_fill by lia.
    now apply revalidate_negative.
Qed.

Lemma tokenGenerator_zero_and_negative_witness :
  -1 < 0
  /\ tokenGenerator sample_oracle 1 0 (Some set1) 0%nat = (Return [], 0%nat)
  /\ tokenGenerator sample_oracle 1000 (-1) (Some set1) 0%nat = (OutOfFuel, 0%nat).
Proof.
  split; [lia|].
  destruct (tokenGenerator_zero_and_negative sample_oracle (Some set1) 0%nat) as [H0 Hneg].
  split; [apply H0|apply Hneg; lia].
Defined.

(** C6, counterexample. With length 0, [tokenGenerator] returns and
    raises no error. *)
Lemma tokenGenerator_zero_raises_nothing :
  tokenGenerator sample_oracle 1 0 (Some defaultSet) 0%nat = (Return [], 0%nat).
Proof. reflexivity. Qed.

(** C6, amended. [tokenGenerator] never raises: with length 0 it
    returns the empty string.  For a length [n >= 1] and any set, what
    it returns has length [n] and does not start with the character
    [0], and it returns as soon as a redraw of the first character is
    not [0]. *)
Theorem tokenGenerator_token_shape (rnd : nat -> nat) (length : Z)
    (type_ : option CharacterSetType) (pos : nat) :
  (forall fuel e, fst (tokenGenerator rnd fuel length type_ pos) <> Throw e)
  /\ (length = 0 ->
      forall fuel, tokenGenerator rnd (S fuel) length type_ pos = (Return [], pos))
  /\ (1 <= length ->
      (forall fuel token pos',
          tokenGenerator rnd fuel length type_ pos = (Return token, pos') ->
          len token = length /\ hd_error token <> Some 48)
      /\ (settles rnd (resolve_set type_) ->
          exists fuel0 token pos',
            forall fuel, (fuel0 <= fuel)%nat ->
              tokenGenerator rnd fuel length type_ pos = (Return token, pos'))).
Proof.
  split; [intros fuel e; apply tokenGenerator_no_throw|].
  split; [intros -> fuel; reflexivity|].
  intros Hlen. split.
  - intros fuel token pos' H.
    destruct (tokenGenerator_shape rnd fuel length type_ pos token pos' Hlen H)
      as (H1 & H2 & _).
    now split.
  - intros Hs. destruct (Hs (pos + Z.to_nat length)%nat) as [d Hd].
    destruct (tokenGenerator_settles rnd length type_ pos d Hd Hlen) as (token & pos' & H).
    exists (S d), token, pos'. intros fuel Hf. apply H. lia.
Qed.

Lemma tokenGenerator_token_shape_witness :
  1 <= 8
  /\ settles sample_oracle (resolve_set (Some set1))
  /\ (exists token pos',
        tokenGenerator sample_oracle 5 8 (Some set1) 1%nat = (Return token, pos')
        /\ len token = 8 /\ hd_error token <> Some 48)
  /\ (exists fuel0 token pos',
        forall fuel, (fuel0 <= fuel)%nat ->
          tokenGenerator sample_oracle fuel 8 (Some set1) 1%nat = (Return token, pos')).
Proof.
  split; [lia|]. split; [apply sample_oracle_settles|].
  destruct (tokenGenerator_token_shape sample_oracle 8 (Some set1) 1%nat) as (_ & _ & H).
  destruct (H ltac:(lia)) as [Hshape Hreturns].
  split.
  - exists (lit "67418529"), 10%nat.
    assert (Hrun : tokenGenerator sample_oracle 5 8 (Some set1) 1%nat
                   = (Return (lit "67418529"), 10%nat)) by (vm_compute; reflexivity).
    split; [exact Hrun|]. exact (Hshape _ _ _ Hrun).
  - exact (Hreturns (sample_oracle_settles (Some set1))).
Defined.

(** ** C9 and C3: the codec *)

(** C9. Two keys with the same sum of character codes give the same
    encoding and the same decoding of every text. *)
Theorem codec_depends_on_key_sum (data k1 k2 : jsstring) :
  keySum k1 = keySum k2 ->
  base64Encode data (Some k1) = base64Encode data (Some k2)
  /\ base64Decode data (Some k1) = base64Decode data (Some k2).
Proof.
  intros H. unfold base64Encode, base64Decode. cbn [or_default].
  now rewrite H.
Qed.

Lemma codec_depends_on_key_sum_witness :
  keySum (lit "ab") = keySum (lit "ba")
  /\ base64Encode (lit "data") (Some (lit "ab")) = base64Encode (lit "data") (Some (lit "ba"))
  /\ base64Decode (lit "data") (Some (lit "ab")) = base64Decode (lit "data") (Some (lit "ba")).
Proof.
  split; [reflexivity|].
  apply (codec_depends_on_key_sum (lit "data") (lit "ab") (lit "ba")). reflexivity.
Defined.

(** What the codec gives back, for every string and every key: the
    string shifted by the key, with every surrogate outside of a pair
    replaced by U+FFFD on the way through UTF-8, unshifted again.  So
    decoding the encoded string gives it back exactly when the shifted
    string is well formed. *)
Lemma codec_inverse_iff_well_formed (s : jsstring) (key : option jsstring) :
  is_string s ->
  base64Decode (base64Encode s key) key
  = key_unshifted key (Buffer.toWellFormed (key_shifted key s))
  /\ (base64Decode (base64Encode s key) key = s
      <-> Buffer.isWellFormed (key_shifted key s) = true).
Proof.
  intros Hs. split; [apply base64Decode_base64Encode|].
  rewrite base64Decode_base64Encode, isWellFormed_eq.
  assert (Hshifted : is_string (key_shifted key s)).
  { apply map_chars_from_is_string. intros. apply fromCharCode_range. }
  split.
  - intros H.
    assert (H' : key_shifted key (key_unshifted key (Buffer.toWellFormed (key_shifted key s)))
                 = key_shifted key s) by now rewrite H.
    unfold key_shifted at 1, key_unshifted, map_chars in H'.
    rewrite (shift_unshift_from (fun index => Z.rem (keySum (or_default key) + index) 20)) in H'
      by now apply toWellFormed_is_string.
    exact H'.
  - intros ->. now apply key_unshifted_shifted.
Qed.

(** C3. The codec does not give every string back: the string of the
    one code unit U+D800, a surrogate without its pair, is a string that
    [base64Encode] accepts, and decoding its encoding under the same
    key gives the one code unit U+FFF6, which is U+FFFD unshifted by
    the key.  The shifted string goes through UTF-8 in
    [Buffer.from(shifted)], which has no bytes for a lone surrogate. *)
Theorem codec_loses_lone_surrogate :
  is_string [55296]
  /\ key_shifted (Some (lit "k")) [55296] = [55303]
  /\ Buffer.isWellFormed (key_shifted (Some (lit "k")) [55296]) = false
  /\ base64Decode (base64Encode [55296] (Some (lit "k"))) (Some (lit "k")) = [65526]
  /\ base64Decode (base64Encode [55296] (Some (lit "k"))) (Some (lit "k")) <> [55296].
Proof.
  split; [repeat constructor; unfold is_code_unit; lia|].
  split; [reflexivity|]. split; [reflexivity|].
  assert (H : base64Decode (base64Encode [55296] (Some (lit "k"))) (Some (lit "k")) = [65526])
    by (vm_compute; reflexivity).
  split; [exact H|]. rewrite H. discriminate.
Qed.

Lemma codec_inverse_iff_well_formed_witness :
  is_string (lit "Hello, World!")
  /\ Buffer.isWellFormed (key_shifted (Some (lit "customKey123")) (lit "Hello, World!")) = true
  /\ base64Decode (base64Encode (lit "Hello, World!") (Some (lit "customKey123")))
       (Some (lit "customKey123")) = lit "Hello, World!".
Proof.
  assert (Hs : is_string (lit "Hello, World!"))
    by (repeat constructor; unfold is_code_unit; lia).
  split; [exact Hs|]. split; [reflexivity|].
  apply (proj2 (codec_inverse_iff_well_formed (lit "Hello, World!")
                  (Some (lit "customKey123")) Hs)).
  reflexivity.
Defined.

(** ** C1, C2 and C7: encrypt and decrypt *)

Lemma printable_hello : printable_ascii (lit " hello ").
Proof. unfold printable_ascii. cbn. repeat constructor; lia. Qed.

(** C1. For a printable plaintext [s] and a key [k], whatever the
    draws: a call [encrypt(s, {key: k})] that does not run out of fuel
    returns a string that [decrypt], with the same key, turns into
    [s.trim()]; and the call returns, given enough fuel, on every oracle
    whose redraws of a first character [0] come to an end. *)
Theorem encrypt_decrypt_round_trip (rnd : nat -> nat) (s k : jsstring) (pos : nat) :
  printable_ascii s ->
  (forall fuel,
      fst (encrypt rnd fuel s (Some (EncryptOptions.mk None None (Some k))) pos) = OutOfFuel
      \/ exists c pos',
           encrypt rnd fuel s (Some (EncryptOptions.mk None None (Some k))) pos
           = (Return (Some c), pos')
           /\ decrypt c (Some (DecryptOptions.mk (Present (Some k)))) = Ok (trim s))
  /\ (settles rnd (characterSets defaultSet) ->
      exists fuel0 c pos',
        (forall fuel, (fuel0 <= fuel)%nat ->
           encrypt rnd fuel s (Some (EncryptOptions.mk None None (Some k))) pos
           = (Return (Some c), pos'))
        /\ decrypt c (Some (DecryptOptions.mk (Present (Some k)))) = Ok (trim s)).
Proof.
  intros Hs. split.
  - intros fuel.
    exact (encrypt_printable rnd fuel s (Some (EncryptOptions.mk None None (Some k))) pos Hs).
  - intros Hsettles.
    exact (encrypt_printable_returns rnd s (Some (EncryptOptions.mk None None (Some k))) pos
             Hs Hsettles Hsettles).
Qed.

Lemma encrypt_decrypt_round_trip_witness :
  printable_ascii (lit " hello ")
  /\ settles sample_oracle (characterSets defaultSet)
  /\ (exists c,
        encrypt sample_oracle 5 (lit " hello ")
          (Some (EncryptOptions.mk None None (Some (lit "key")))) 0%nat
        = (Return (Some c), 25%nat)
        /\ decrypt c (Some (DecryptOptions.mk (Present (Some (lit "key"))))) = Ok (lit "hello"))
  /\ (exists fuel0 c pos',
        (forall fuel, (fuel0 <= fuel)%nat ->
           encrypt sample_oracle fuel (lit " hello ")
             (Some (EncryptOptions.mk None None (Some (lit "key")))) 0%nat
           = (Return (Some c), pos'))
        /\ decrypt c (Some (DecryptOptions.mk (Present (Some (lit "key"))))) = Ok (lit "hello")).
Proof.
  split; [exact printable_hello|].
  split; [exact (sample_oracle_settles (Some defaultSet))|].
  destruct (encrypt_decrypt_round_trip sample_oracle (lit " hello ") (lit "key") 0%nat
              printable_hello) as [H Hreturns].
  split.
  - destruct (H 5%nat) as [Hout|(c & pos' & Hc & Hd)].
    + vm_compute in Hout. discriminate Hout.
    + exists c. split; [|exact Hd].
      rewrite Hc. f_equal.
      assert (Hp : snd (encrypt sample_oracle 5 (lit " hello ")
                          (Some (EncryptOptions.mk None None (Some (lit "key")))) 0%nat)
                   = 25%nat) by (vm_compute; reflexivity).
      rewrite Hc in Hp. exact Hp.
  - exact (Hreturns (sample_oracle_settles (Some defaultSet))).
Defined.

Section CheckOfEncrypt.

Variable rnd : nat -> nat.

(** A candidate that fails the check: [encrypt] runs again from the
    next draw on, and the call returns [undefined]. *)
Lemma encrypt_retries (fuel : nat) (data : jsstring)
    (options : option EncryptOptions.t) (pos : nat)
    (pad0 : jsstring) (p1 : nat) (pad1 : jsstring) (p2 : nat) (d : jsstring) :
  tokenGenerator rnd fuel (Z.of_nat (Nat.modulo (rnd pos) 20) + 1)
    (EncryptOptions.firstRandomCharSet (resolved_options options)) (S pos)
  = (Return pad0, p1) ->
  tokenGenerator rnd fuel (Z.of_nat (Nat.modulo (rnd p1) 20) + 1)
    (EncryptOptions.secondRandomCharSet (resolved_options options)) (S p1)
  = (Return pad1, p2) ->
  decrypt (candidate (trim data) pad0 pad1 (EncryptOptions.key (resolved_options options)))
    (check_options options) = Ok d ->
  d <> trim data ->
  encrypt rnd (S fuel) data options pos
  = try_rethrow EncodingError
      (_ <- encrypt rnd fuel (trim data) (Some (resolved_options options)) ;; ret None) p2.
Proof.
  intros H0 H1 Hd Hne. cbn [encrypt]. fold (resolved_options options).
  unfold try_rethrow at 1.
  rewrite (bind_Return _ _ pos _ _ (random_below_eq rnd 19 pos)).
  rewrite (bind_Return _ _ (S pos) _ _ H0).
  rewrite (bind_Return _ _ p1 _ _ (random_below_eq rnd 19 p1)).
  rewrite (bind_Return _ _ (S p1) _ _ H1).
  unfold check_options, candidate, shift10 in Hd.
  rewrite (bind_Return _ _ p2 d p2) by (now rewrite Hd).
  apply str_eqb_neq in Hne. rewrite Hne. reflexivity.
Qed.

End CheckOfEncrypt.

(** C2. A string that [encrypt] returns has passed the check:
    [decrypt], with the key of the call, turns it into the trimmed
    plaintext.  A candidate that does not pass is not returned: the call
    runs [encrypt] again, with fresh draws, and returns no string. *)
Theorem encrypt_returns_only_checked (rnd : nat -> nat) (fuel : nat) (data : jsstring)
    (options : option EncryptOptions.t) (pos : nat) :
  (forall c pos',
      encrypt rnd fuel data options pos = (Return (Some c), pos') ->
      decrypt c (check_options options) = Ok (trim data))
  /\ (forall pad0 p1 pad1 p2 d,
        tokenGenerator rnd fuel (Z.of_nat (Nat.modulo (rnd pos) 20) + 1)
          (EncryptOptions.firstRandomCharSet (resolved_options options)) (S pos)
        = (Return pad0, p1) ->
        tokenGenerator rnd fuel (Z.of_nat (Nat.modulo (rnd p1) 20) + 1)
          (EncryptOptions.secondRandomCharSet (resolved_options options)) (S p1)
        = (Return pad1, p2) ->
        decrypt (candidate (trim data) pad0 pad1
                   (EncryptOptions.key (resolved_options options)))
          (check_options options) = Ok d ->
        d <> trim data ->
        encrypt rnd (S fuel) data options pos
        = try_rethrow EncodingError
            (_ <- encrypt rnd fuel (trim data) (Some (resolved_options options)) ;; ret None) p2
        /\ forall c pos', encrypt rnd (S fuel) data options pos <> (Return (Some c), pos')).
Proof.
  split.
  - intros c pos' H. exact (encrypt_Some_inv rnd fuel data options pos c pos' H).
  - intros pad0 p1 pad1 p2 d H0 H1 Hd Hne.
    pose proof (encrypt_retries rnd fuel data options pos pad0 p1 pad1 p2 d H0 H1 Hd Hne) as Hr.
    split; [exact Hr|].
    intros c pos' H. rewrite Hr in H. apply try_rethrow_inv in H.
    apply bind_inv in H as (x & q & _ & H). discriminate.
Qed.

Lemma encrypt_returns_only_checked_witness :
  (encrypt sample_oracle 5 (lit "hello") (Some (EncryptOptions.mk None None None)) 0%nat
   = (Return (Some sample_ciphertext), 25%nat)
   /\ decrypt sample_ciphertext (Some (DecryptOptions.mk (Present None))) = Ok (lit "hello"))
  /\ (tokenGenerator sample_oracle 4 (Z.of_nat (Nat.modulo (sample_oracle 0) 20) + 1) None 1%nat
      = (Return (lit "KRYf"), 5%nat)
      /\ tokenGenerator sample_oracle 4 (Z.of_nat (Nat.modulo (sample_oracle 5) 20) + 1) None 6%nat
         = (Return (lit "t07ELSZgnu18FMTahov"), 25%nat)
      /\ decrypt (candidate [55296] (lit "KRYf") (lit "t07ELSZgnu18FMTahov") (Some (lit "key")))
           (Some (DecryptOptions.mk (Present (Some (lit "key"))))) = Ok [65499]
      /\ [65499] <> [55296]
      /\ forall c pos',
           encrypt sample_oracle 5 [55296]
             (Some (EncryptOptions.mk None None (Some (lit "key")))) 0%nat
           <> (Return (Some c), pos')).
Proof.
  split.
  - assert (H : encrypt sample_oracle 5 (lit "hello")
                  (Some (EncryptOptions.mk None None None)) 0%nat
                = (Return (Some sample_ciphertext), 25%nat)) by (vm_compute; reflexivity).
    split; [exact H|].
    destruct (encrypt_returns_only_checked sample_oracle 5 (lit "hello")
                (Some (EncryptOptions.mk None None None)) 0%nat) as [Hc _].
    exact (Hc _ _ H).
  - assert (H0 : tokenGenerator sample_oracle 4
                   (Z.of_nat (Nat.modulo (sample_oracle 0) 20) + 1) None 1%nat
                 = (Return (lit "KRYf"), 5%nat)) by (vm_compute; reflexivity).
    assert (H1 : tokenGenerator sample_oracle 4
                   (Z.of_nat (Nat.modulo (sample_oracle 5) 20) + 1) None 6%nat
                 = (Return (lit "t07ELSZgnu18FMTahov"), 25%nat)) by (vm_compute; reflexivity).
    assert (Hd : decrypt (candidate [55296] (lit "KRYf") (lit "t07ELSZgnu18FMTahov")
                            (Some (lit "key")))
                   (Some (DecryptOptions.mk (Present (Some (lit "key"))))) = Ok [65499])
      by (vm_compute; reflexivity).
    assert (Hne : [65499] <> [55296]) by discriminate.
    repeat (split; [assumption|]).
    destruct (encrypt_returns_only_checked sample_oracle 4 [55296]
                (Some (EncryptOptions.mk None None (Some (lit "key")))) 0%nat) as [_ Hr].
    exact (proj2 (Hr _ _ _ _ _ H0 H1 Hd Hne)).
Defined.

(** C7. [decrypt(c)] uses the default key, but [decrypt(c, {})] uses
    the key ["secretKey"], and the two differ on what
    [encrypt("hello", {})] returns. *)
Theorem decrypt_without_key_property :
  (forall c, decrypt c None
             = decrypt c (Some (DecryptOptions.mk (Present (Some default_key)))))
  /\ (forall c, decrypt c (Some (DecryptOptions.mk Absent))
                = decrypt c (Some (DecryptOptions.mk (Present (Some (lit "secretKey"))))))
  /\ encrypt sample_oracle 5 (lit "hello") (Some (EncryptOptions.mk None None None)) 0%nat
     = (Return (Some sample_ciphertext), 25%nat)
  /\ decrypt sample_ciphertext (Some (DecryptOptions.mk (Present (Some default_key))))
     = Ok (lit "hello")
  /\ decrypt sample_ciphertext (Some (DecryptOptions.mk Absent))
     = Ok (lit "sn*1+29@aho+2@GN[bipb").
Proof.
  split; [reflexivity|]. split; [reflexivity|].
  split; [vm_compute; reflexivity|]. split; vm_compute; reflexivity.
Qed.

(** ** C8: isEqual *)

(** C8, counterexample. With options that name a key and no
    [caseSensitive], ["ABC"] and ["abc"] match by direct comparison. *)
Lemma isEqual_key_only_ignores_case :
  isEqual ascii_toLowerCase (lit "ABC") (lit "abc") (key_only (lit "k"))
  = Verdict.mk true (Some Direct_comparison).
Proof. vm_compute. reflexivity. Qed.

Section IsEqualProperties.

Variable toLowerCase : jsstring -> jsstring.

(** The first test of [isEqual] decides whether the method is the
    direct comparison. *)
Lemma isEqual_direct (text text1 : jsstring) (options : option IsEqualOptions.t)
    (folded : jsstring -> jsstring) :
  folded = match options with
           | Some (IsEqualOptions.mk (Some true) _ _) | None => fun s => s
           | _ => toLowerCase
           end ->
  Verdict.method (isEqual toLowerCase text text1 options) = Some Direct_comparison
  <-> (text = text1 \/ folded text = text1 \/ text = folded text1
       \/ folded text = folded text1).
Proof.
  intros ->. unfold isEqual. cbv zeta.
  set (o := match options with Some o => o | None => _ end).
  set (f := match IsEqualOptions.caseSensitive o with Some true => _ | _ => _ end).
  assert (Hf : f = match options with
                   | Some (IsEqualOptions.mk (Some true) _ _) | None => fun s => s
                   | _ => toLowerCase
                   end)
    by (subst f o; destruct options as [[[[]|] ? ?]|]; reflexivity).
  rewrite <- Hf. clearbody f. clear Hf.
  destruct (str_eqb text text1 || str_eqb (f text) text1 || str_eqb text (f text1)
            || str_eqb (f text) (f text1)) eqn:E.
  - cbn [Verdict.method]. split; [intros _|reflexivity].
    rewrite !orb_true_iff, !str_eqb_eq in E. tauto.
  - split.
    + intros H. exfalso.
      repeat match type of H with
             | context [if ?b then _ else _] => destruct b
             end; discriminate.
    + intros H. exfalso. rewrite !orb_false_iff, !str_eqb_neq in E. tauto.
Qed.

End IsEqualProperties.

(** C8, amended. When the caller gives no options at all, the direct
    comparison of [isEqual] is case-sensitive: it matches exactly the
    equal strings.  When the caller gives options without
    [caseSensitive], it is not: it matches as soon as the strings are
    equal after one or both are put in lower case. *)
Theorem isEqual_default_case_sensitivity (toLowerCase : jsstring -> jsstring)
    (text text1 : jsstring) :
  (Verdict.method (isEqual toLowerCase text text1 None) = Some Direct_comparison
   <-> text = text1)
  /\ (forall key log,
        Verdict.method
          (isEqual toLowerCase text text1 (Some (IsEqualOptions.mk None key log)))
        = Some Direct_comparison
        <-> (text = text1 \/ toLowerCase text = text1 \/ text = toLowerCase text1
             \/ toLowerCase text = toLowerCase text1)).
Proof.
  split.
  - rewrite (isEqual_direct toLowerCase text text1 None (fun s => s) eq_refl). tauto.
  - intros key log.
    apply (isEqual_direct toLowerCase text text1 (Some (IsEqualOptions.mk None key log))
             toLowerCase eq_refl).
Qed.

(** ** C5 and C4: encryptObject and decryptObject *)

(** C5. [encryptObject] leaves a boolean that is an item of an array as
    it is, at both levels of arrays, whereas a boolean that is the value
    of a property goes through [encrypt], as the strings and the numbers
    do at every place.  [decryptObject] passes the strings to [decrypt]
    and leaves numbers and booleans as they are. *)
Theorem encryptObject_keeps_boolean_items {number : Type}
    (String_of_number : number -> jsstring) (rnd : nat -> nat) (fuel : nat)
    (key : option jsstring) (pos : nat) (b : bool) :
  encryptObject String_of_number rnd fuel
    (VObject [(lit "a", VArray [VBoolean b])]) key pos
  = (Return (VObject [(lit "a", VArray [VBoolean b])]), pos)
  /\ encryptObject String_of_number rnd fuel
       (VObject [(lit "a", VArray [VArray [VBoolean b]])]) key pos
     = (Return (VObject [(lit "a", VArray [VArray [VBoolean b]])]), pos)
  /\ encryptObject String_of_number rnd fuel (VObject [(lit "a", VBoolean b)]) key pos
     = (r <- encrypt_leaf rnd fuel (or_default key) (trim (String_of_boolean b)) ;;
        ret (VObject [(lit "a", r)])) pos
  /\ (forall k s n,
        encrypt_property String_of_number rnd fuel k (VString s)
        = encrypt_leaf rnd fuel k (trim s)
        /\ encrypt_property String_of_number rnd fuel k (VNumber n)
           = encrypt_leaf rnd fuel k (trim (String_of_number n))
        /\ encrypt_item String_of_number rnd fuel k (VString s) = encrypt_leaf rnd fuel k s
        /\ encrypt_item String_of_number rnd fuel k (VNumber n)
           = encrypt_leaf rnd fuel k (String_of_number n)
        /\ encrypt_subItem String_of_number rnd fuel k (VString s) = encrypt_leaf rnd fuel k s
        /\ encrypt_subItem String_of_number rnd fuel k (VNumber n)
           = encrypt_leaf rnd fuel k (String_of_number n))
  /\ (forall k s (n : number) b',
        decrypt_property k (VString s) = decrypt_leaf (number := number) k (trim s)
        /\ decrypt_item k (VString s) = decrypt_leaf (number := number) k s
        /\ decrypt_subItem k (VString s) = decrypt_leaf (number := number) k s
        /\ decrypt_property k (VNumber n) = Ok (VNumber n)
        /\ decrypt_item k (VNumber n) = Ok (VNumber n)
        /\ decrypt_subItem k (VNumber n) = Ok (VNumber n)
        /\ decrypt_property k (@VBoolean number b') = Ok (VBoolean b')
        /\ decrypt_item k (@VBoolean number b') = Ok (VBoolean b')
        /\ decrypt_subItem k (@VBoolean number b') = Ok (VBoolean b')).
Proof.
  split; [reflexivity|]. split; [reflexivity|]. split.
  - rewrite encryptObject_VObject. cbn [for_entries encrypt_property set_prop].
    unfold bind, ret. now destruct (encrypt_leaf _ _ _ _ _) as [[]].
  - split; intros; repeat split.
Qed.





(** A property named [__proto__], as [JSON.parse] makes it, is left
    out by both walkers: the assignment reaches the accessor of
    [Object.prototype] and makes no own property. *)
Example walkers_drop_proto :
  decryptObject (VObject [(lit "__proto__", @VNumber Z 1); (lit "a", VNumber 2)]) None
  = Ok (VObject [(lit "a", VNumber 2)])
  /\ exists r pos',
       encryptObject String_of_Z sample_oracle 5
         (VObject [(lit "__proto__", VString (lit "x")); (lit "a", VUndefined)])
         None 0%nat = (Return r, pos')
       /\ shape_of r = Map [(lit "a", Leaf)].
Proof.
  split; [reflexivity|].
  eexists _, _. split; [vm_compute; reflexivity|reflexivity].
Qed.

(** The scenario of the specification: the object comes back with its
    number and its boolean as strings. *)
Example walkers_scenario :
  exists r pos',
    encryptObject String_of_Z sample_oracle 5 sample_value (Some (lit "key")) 0%nat
    = (Return r, pos')
    /\ decryptObject r (Some (lit "key"))
       = Ok (VObject [(lit "a", VString (lit "x"));
                      (lit "b", VArray [VString (lit "1"); VString (lit "y");
                                        VObject [(lit "c", VString (lit "true"))]])]).
Proof.
  eexists _, _. split; [vm_compute; reflexivity|vm_compute; reflexivity].
Qed.

(** * Properties beyond the specification *)

(** ** String.prototype.trim *)

Lemma trim_start_head (s : jsstring) (c : Z) :
  hd_error (trim_start s) = Some c -> is_white_space c = false.
Proof.
  induction s as [|x s IH]; simpl; [discriminate|].
  destruct (is_white_space x) eqn:Hx; [exact IH|].
  simpl. intros H. injection H as <-. exact Hx.
Qed.

Lemma trim_start_idempotent (s : jsstring) : trim_start (trim_start s) = trim_start s.
Proof. apply trim_start_keeps. intros c. apply trim_start_head. Qed.

Lemma trim_idempotent (s : jsstring) : trim (trim s) = trim s.
Proof.
  unfold trim at 2 3.
  set (a := trim_start s). set (b := trim_start (rev a)).
  assert (Hb : trim_start b = b) by apply trim_start_idempotent.
  assert (Ha : trim_start (rev b) = rev b).
  { apply trim_start_keeps. intros c Hc.
    destruct (trim_start_suffix (rev a)) as [ws Hws]. fold b in Hws.
    assert (Ha' : a = rev b ++ rev ws).
    { rewrite <- (rev_involutive a), Hws. apply rev_app_distr. }
    apply (trim_start_head s). fold a. rewrite Ha'.
    destruct (rev b); [discriminate|]. exact Hc. }
  unfold trim. rewrite Ha, rev_involutive, Hb. reflexivity.
Qed.

(** ** crypt.ts: decrypt on any text *)

Lemma decrypt_decoded (data : jsstring) (options : option DecryptOptions.t) :
  decrypt data options = try_decoding (unpad (decoded data options)).
Proof. destruct options as [[[|[k|]]]|]; reflexivity. Qed.

(** The loop of [decrypt] reads inside the text once it starts at a
    position that is not negative. *)
Lemma decrypt_loop_returns (data : jsstring) (secondPart : Z) (steps : nat) :
  forall (i : Z) (res : jsstring),
    0 <= i -> Z.of_nat steps <= Z.max 0 (len data - i) ->
    exists r, decrypt_loop steps data secondPart i res = Ok r.
Proof.
  induction steps as [|steps IH]; intros i res Hi Hsteps.
  - now exists res.
  - cbn [decrypt_loop]. unfold char_at_index.
    destruct (i <? 0) eqn:Hneg; [apply Z.ltb_lt in Hneg; lia|].
    destruct (nth_error data (Z.to_nat i)) as [charCode|] eqn:Hnth.
    + cbv zeta.
      destruct (negb (len (slice data i (len data - 1)) =? secondPart)).
      * apply IH; lia.
      * now exists res.
    + apply nth_error_None in Hnth. unfold len in Hsteps. lia.
Qed.

Lemma unpad_returns (c : Z) (rest : jsstring) :
  84 <= c -> exists r, unpad (c :: rest) = Ok r.
Proof.
  intros Hc. unfold unpad.
  change (char_at_index (c :: rest) 0) with (Some c).
  destruct (exists_last (l := c :: rest) ltac:(discriminate)) as (a & x & Hax).
  assert (Hs : slice (c :: rest) (-1) (len (c :: rest)) = [x])
    by (rewrite Hax; apply slice_last).
  rewrite Hs.
  change (char_at_index [x] 0) with (Some x). cbv zeta.
  apply decrypt_loop_returns; [lia|].
  pose proof (len_nonneg (c :: rest)). lia.
Qed.

Lemma unpad_raises (c : Z) (rest : jsstring) :
  c < 84 -> unpad (c :: rest) = Raise TypeError.
Proof.
  intros Hc. unfold unpad.
  change (char_at_index (c :: rest) 0) with (Some c).
  destruct (exists_last (l := c :: rest) ltac:(discriminate)) as (a & x & Hax).
  assert (Hs : slice (c :: rest) (-1) (len (c :: rest)) = [x])
    by (rewrite Hax; apply slice_last).
  rewrite Hs.
  change (char_at_index [x] 0) with (Some x). cbv zeta.
  rewrite len_cons. pose proof (len_nonneg rest) as Hr.
  destruct (Z.to_nat (1 + len rest - (c - 85 + 1))) as [|steps] eqn:Hsteps; [lia|].
  cbn [decrypt_loop]. unfold char_at_index.
  destruct (c - 85 + 1 <? 0) eqn:Hneg; [reflexivity|].
  apply Z.ltb_ge in Hneg. lia.
Qed.

(** X1.  [decrypt] on any text and any options: it throws when the
    decoded text is empty or begins with a code unit below 84, the
    marker of an empty padding, and the error wraps a TypeError;
    on every other text it returns a string. *)
Theorem decrypt_outcome (data : jsstring) (options : option DecryptOptions.t) :
  match decoded data options with
  | [] => decrypt data options = Raise (DecodingError TypeError)
  | c :: _ =>
      if c <? 84 then decrypt data options = Raise (DecodingError TypeError)
      else exists r, decrypt data options = Ok r
  end.
Proof.
  rewrite decrypt_decoded.
  destruct (decoded data options) as [|c rest]; [reflexivity|].
  destruct (c <? 84) eqn:Hc.
  - apply Z.ltb_lt in Hc. now rewrite unpad_raises.
  - apply Z.ltb_ge in Hc. destruct (unpad_returns c rest Hc) as [r Hr].
    exists r. now rewrite Hr.
Qed.

(** ** crypt.ts: the check inside encrypt *)

Lemma toWellFormed_cons_plain (c : Z) (s : jsstring) :
  0 <= c < 55296 -> Buffer.toWellFormed (c :: s) = c :: Buffer.toWellFormed s.
Proof.
  intros Hc. cbn [Buffer.toWellFormed].
  assert (Hh : Buffer.is_high_surrogate c = false) by (apply not_surrogate_high; lia).
  assert (Hl : Buffer.is_low_surrogate c = false) by (apply not_surrogate_low; lia).
  now rewrite Hh, Hl.
Qed.

(** The check of [encrypt] never throws: the first marker of a
    candidate survives the codec, whatever the plaintext is. *)
Lemma decrypt_candidate_returns (data pad0 pad1 : jsstring) (key : option jsstring) :
  1 <= len pad0 <= 20 ->
  exists d,
    decrypt (candidate data pad0 pad1 key) (Some (DecryptOptions.mk (Present key))) = Ok d.
Proof.
  intros Hl. rewrite decrypt_unfold. unfold candidate.
  rewrite trim_base64Encode, base64Decode_base64Encode.
  cbn [app map].
  rewrite fromCharCode_id by (unfold is_code_unit; lia).
  rewrite shift10_small by lia.
  unfold key_shifted, map_chars. cbn [map_chars_from].
  set (r := Z.rem (keySum (or_default key) + 0) 20).
  assert (Hr : -20 < r < 20).
  { pose proof (Z.rem_bound_abs (keySum (or_default key) + 0) 20 ltac:(lia)). subst r. lia. }
  assert (Hy : shiftChar (len pad0 + 85 + 10) r = len pad0 + 95 + r).
  { unfold shiftChar, fromCharCode. rewrite Z.mod_small; lia. }
  rewrite Hy, toWellFormed_cons_plain by lia.
  unfold key_unshifted, map_chars. cbn [map_chars_from map]. fold r.
  assert (Hx : unshift10 (unshiftChar (len pad0 + 95 + r) r) = len pad0 + 85).
  { unfold unshift10, unshiftChar, fromCharCode.
    replace (len pad0 + 95 + r - r) with (len pad0 + 95) by lia.
    rewrite (Z.mod_small (len pad0 + 95)) by lia.
    rewrite Z.mod_small; lia. }
  rewrite Hx.
  match goal with
  | |- context [unpad (_ :: ?rest)] =>
      destruct (unpad_returns (len pad0 + 85) rest ltac:(lia)) as [d Hd]
  end.
  exists d. now rewrite Hd.
Qed.

Lemma key_shifted_below (key : option jsstring) (X : jsstring) :
  Forall (fun c => 20 <= c <= 55276) X ->
  Buffer.isWellFormed (key_shifted key X) = true.
Proof.
  intros HX. apply isWellFormed_eq, toWellFormed_no_surrogate.
  unfold key_shifted, map_chars. generalize 0 as i.
  induction HX as [|c X Hc _ IH]; intros i; simpl; constructor; [|apply IH].
  unfold shiftChar, fromCharCode.
  pose proof (Z.rem_bound_abs (keySum (or_default key) + i) 20 ltac:(lia)).
  rewrite Z.mod_small; lia.
Qed.

(** The check of [encrypt] passes on every text of code units up to
    55256: the three shifts keep them below the surrogates. *)
Lemma decrypt_candidate_below (data pad0 pad1 : jsstring) (key : option jsstring) :
  Forall (fun c => 0 <= c <= 55256) data ->
  Forall (fun c => 48 <= c <= 122) pad0 -> Forall (fun c => 48 <= c <= 122) pad1 ->
  1 <= len pad0 <= 20 -> 1 <= len pad1 <= 20 ->
  decrypt (candidate data pad0 pad1 key) (Some (DecryptOptions.mk (Present key)))
  = Ok data.
Proof.
  intros Hdata Hp0 Hp1 Hl0 Hl1. unfold candidate.
  set (P := [fromCharCode (len pad0 + 85)] ++ pad0 ++ map shift10 data ++ pad1
              ++ [fromCharCode (len pad1 + 85)]).
  assert (HP : Forall (fun c => 10 <= c <= 55266) P).
  { subst P. rewrite !fromCharCode_id by (unfold is_code_unit; lia).
    apply Forall_app; split; [|apply Forall_app; split;
      [|apply Forall_app; split; [|apply Forall_app; split]]].
    - constructor; [lia|constructor].
    - eapply Forall_impl; [|exact Hp0]. intros c Hc. cbv beta in Hc. lia.
    - apply Forall_map. eapply Forall_impl; [|exact Hdata].
      intros c Hc. cbv beta in Hc. rewrite shift10_small; lia.
    - eapply Forall_impl; [|exact Hp1]. intros c Hc. cbv beta in Hc. lia.
    - constructor; [lia|constructor]. }
  rewrite decrypt_encoded.
  - subst P. rewrite unpad_payload by lia. cbn [try_decoding]. f_equal.
    apply map_unshift10_shift10.
    eapply Forall_impl; [|exact Hdata]. intros c Hc. cbv beta in Hc.
    unfold is_code_unit. lia.
  - eapply Forall_impl; [|exact HP]. intros c Hc. cbv beta in Hc.
    unfold is_code_unit. lia.
  - apply key_shifted_below. apply Forall_map.
    eapply Forall_impl; [|exact HP]. intros c Hc. cbv beta in Hc.
    rewrite shift10_small; lia.
Qed.

(** On a plaintext of code units up to 55256, a call of [encrypt]
    that has fuel left returns its first candidate. *)
Lemma encrypt_below (rnd : nat -> nat) (fuel : nat) (data : jsstring)
    (options : option EncryptOptions.t) (pos : nat) :
  Forall (fun c => 0 <= c <= 55256) data ->
  fst (encrypt rnd fuel data options pos) = OutOfFuel
  \/ exists c pos',
       encrypt rnd fuel data options pos = (Return (Some c), pos')
       /\ decrypt c (check_options options) = Ok (trim data).
Proof.
  intros Hdata. destruct fuel as [|fuel]; [now left|].
  destruct (tokenGenerator rnd fuel (Z.of_nat (Nat.modulo (rnd pos) 20) + 1)
              (EncryptOptions.firstRandomCharSet (resolved_options options)) (S pos))
    as [[pad0|e|] p1] eqn:H0.
  - destruct (tokenGenerator rnd fuel (Z.of_nat (Nat.modulo (rnd p1) 20) + 1)
                (EncryptOptions.secondRandomCharSet (resolved_options options)) (S p1))
      as [[pad1|e|] p2] eqn:H1.
    + right.
      destruct (padding_shape _ _ _ _ _ _ _ H0) as [Hl0 Hc0].
      destruct (padding_shape _ _ _ _ _ _ _ H1) as [Hl1 Hc1].
      assert (Hd : decrypt (candidate (trim data) pad0 pad1
                              (EncryptOptions.key (resolved_options options)))
                     (check_options options) = Ok (trim data)).
      { apply decrypt_candidate_below; auto. now apply trim_Forall. }
      eexists _, _. split; [|exact Hd].
      exact (encrypt_returns_candidate rnd fuel data options pos pad0 p1 pad1 p2 H0 H1 Hd).
    + exfalso. eapply tokenGenerator_no_throw. now rewrite H1.
    + left. now rewrite (encrypt_OutOfFuel_second rnd _ _ _ _ _ _ _ H0 H1).
  - exfalso. eapply tokenGenerator_no_throw. now rewrite H0.
  - left. now rewrite (encrypt_OutOfFuel_first rnd _ _ _ _ _ H0).
Qed.

(** X2.  On a plaintext whose code units are at most 55256, [encrypt]
    neither throws nor returns [undefined], whatever the options, the
    draws and the fuel are: its first candidate passes the check, so a
    call returns a string that [decrypt] turns into the trimmed
    plaintext, or is still redrawing a first character when the fuel
    ends.  No retry takes place on such a plaintext. *)
Theorem encrypt_never_throws (rnd : nat -> nat) (fuel : nat) (data : jsstring)
    (options : option EncryptOptions.t) (pos : nat) :
  Forall (fun c => 0 <= c <= 55256) data ->
  (exists c pos',
      encrypt rnd fuel data options pos = (Return (Some c), pos')
      /\ decrypt c (check_options options) = Ok (trim data))
  \/ (exists pos', encrypt rnd fuel data options pos = (OutOfFuel, pos')).
Proof.
  intros Hdata.
  destruct (encrypt_below rnd fuel data options pos Hdata) as [Hout|Hret].
  - right. destruct (encrypt rnd fuel data options pos) as [o pos'].
    cbn [fst] in Hout. subst o. now exists pos'.
  - left. exact Hret.
Qed.

Lemma encrypt_never_throws_witness :
  Forall (fun c => 0 <= c <= 55256) [1087; 1088; 1080; 1074; 1077; 1090]
  /\ exists c pos',
       encrypt sample_oracle 5 [1087; 1088; 1080; 1074; 1077; 1090]
         (Some (EncryptOptions.mk None None (Some (lit "key")))) 0%nat
       = (Return (Some c), pos')
       /\ decrypt c (Some (DecryptOptions.mk (Present (Some (lit "key")))))
          = Ok [1087; 1088; 1080; 1074; 1077; 1090].
Proof.
  assert (Hs : Forall (fun c => 0 <= c <= 55256) [1087; 1088; 1080; 1074; 1077; 1090])
    by (repeat constructor; lia).
  split; [exact Hs|].
  destruct (encrypt_never_throws sample_oracle 5 [1087; 1088; 1080; 1074; 1077; 1090]
              (Some (EncryptOptions.mk None None (Some (lit "key")))) 0%nat Hs)
    as [(c & pos' & Hc & Hd)|(pos' & Hout)].
  - exists c, pos'. split; [exact Hc|exact Hd].
  - vm_compute in Hout. discriminate Hout.
Defined.

(** ** crypt.ts: the form of an encoded text *)

Lemma to_base64_length (bs : list Z) :
  len (Buffer.to_base64 bs) = 4 * ((len bs + 2) / 3).
Proof.
  induction bs as [|a|a b|a b c l IH] using list_ind3.
  - reflexivity.
  - reflexivity.
  - reflexivity.
  - cbn [Buffer.to_base64]. rewrite !len_cons, IH.
    pose proof (len_nonneg l). zlia.
Qed.

Lemma from_utf8_length (s : jsstring) : len s <= len (Buffer.from_utf8 s).
Proof.
  assert (H : forall n s, (List.length s <= n)%nat -> len s <= len (Buffer.from_utf8 s)).
  { clear s. induction n as [|n IH]; intros s Hn.
    { destruct s; [cbn; lia|simpl in Hn; lia]. }
    destruct s as [|c rest]; [cbn; lia|].
    simpl in Hn. assert (Hn' : (List.length rest <= n)%nat) by lia.
    pose proof (IH rest Hn') as IHrest.
    cbn [Buffer.from_utf8]. rewrite len_cons.
    destruct (c <? 128); [rewrite len_cons; lia|].
    destruct (c <? 2048); [rewrite !len_cons; lia|].
    destruct (Buffer.is_high_surrogate c).
    { destruct rest as [|lo rest']; [cbn; lia|].
      destruct (Buffer.is_low_surrogate lo).
      - cbv zeta. rewrite !len_cons. simpl in Hn'.
        pose proof (IH rest' ltac:(lia)). lia.
      - rewrite !len_cons. rewrite len_cons in IHrest. lia. }
    destruct (Buffer.is_low_surrogate c); rewrite !len_cons; lia. }
  now apply (H (List.length s)).
Qed.

Lemma len_map_chars_from (f : Z -> Z -> Z) (i : Z) (s : jsstring) :
  len (map_chars_from f i s) = len s.
Proof. unfold len. now rewrite map_chars_from_length. Qed.

Lemma len_zero_nil (s : jsstring) : len s = 0 -> s = [].
Proof. destruct s; [reflexivity|]. rewrite len_cons. pose proof (len_nonneg s). lia. Qed.

Lemma base64Encode_chars_and_length (data : jsstring) (key : option jsstring) :
  Forall (fun c => 43 <= c <= 126) (base64Encode data key)
  /\ (len (base64Encode data key)) mod 4 = 0
  /\ len data <= len (base64Encode data key)
  /\ (base64Encode data key = [] <-> data = []).
Proof.
  assert (Hl : exists n m, len data <= n /\ 4 * ((n + 2) / 3) <= m
                           /\ len (base64Encode data key) = 4 * ((m + 2) / 3)).
  { unfold base64Encode, map_chars. cbv zeta.
    set (shifted := map_chars_from _ 0 data).
    exists (len (Buffer.from_utf8 shifted)),
           (len (Buffer.from_utf8 (Buffer.to_base64 (Buffer.from_utf8 shifted)))).
    split; [|split].
    - rewrite <- (len_map_chars_from
                    (fun char index => shiftChar char
                       (Z.rem (keySum (or_default key) + index) 20)) 0 data).
      apply from_utf8_length.
    - rewrite <- to_base64_length. apply from_utf8_length.
    - now rewrite len_map_chars_from, to_base64_length. }
  destruct Hl as (n & m & Hn & Hm & Hl).
  pose proof (len_nonneg data) as Hd.
  split; [|split; [|split; [|split]]].
  - unfold base64Encode. cbv zeta.
    apply final_mix_chars; [lia|].
    apply to_base64_chars, from_utf8_bytes, to_base64_is_string, from_utf8_bytes.
    apply map_chars_from_is_string. intros. apply fromCharCode_range.
  - rewrite Hl. zlia.
  - rewrite Hl. zlia.
  - intros H. apply len_zero_nil. rewrite H in Hl. change (len []) with 0 in Hl. zlia.
  - intros ->. reflexivity.
Qed.

(** X3.  The form of every text that [base64Encode] returns, for any
    data and key: code units from [+] to [~] only, so no white space and
    nothing beyond ASCII; a length that is a multiple of four and at
    least the length of the data; empty only for empty data; and [trim]
    leaves it as it is. *)
Theorem base64Encode_form (data : jsstring) (key : option jsstring) :
  Forall (fun c => 43 <= c <= 126) (base64Encode data key)
  /\ (len (base64Encode data key)) mod 4 = 0
  /\ len data <= len (base64Encode data key)
  /\ (base64Encode data key = [] <-> data = [])
  /\ trim (base64Encode data key) = base64Encode data key.
Proof.
  destruct (base64Encode_chars_and_length data key) as (H1 & H2 & H3 & H4).
  repeat split; try assumption; try apply H4. apply trim_base64Encode.
Qed.

(** What [encrypt] returns is a candidate: the encoded text of the
    trimmed plaintext between two paddings of one to twenty characters. *)
Lemma encrypt_Some_candidate (rnd : nat -> nat) (fuel : nat) (data : jsstring)
    (options : option EncryptOptions.t) (pos : nat) (c : jsstring) (pos' : nat) :
  encrypt rnd fuel data options pos = (Return (Some c), pos') ->
  exists pad0 pad1,
    c = candidate (trim data) pad0 pad1 (EncryptOptions.key (resolved_options options))
    /\ 1 <= len pad0 <= 20 /\ 1 <= len pad1 <= 20.
Proof.
  destruct fuel as [|fuel]; [discriminate|].
  cbn [encrypt]. fold (resolved_options options).
  intros H. apply try_rethrow_inv in H.
  apply bind_inv in H as (n0 & q0 & Hn0 & H).
  apply bind_inv in H as (pad0 & q1 & Hp0 & H).
  apply bind_inv in H as (n1 & q2 & Hn1 & H).
  apply bind_inv in H as (pad1 & q3 & Hp1 & H).
  apply bind_inv in H as (d & q4 & _ & H).
  rewrite random_below_eq in Hn0. injection Hn0 as <- <-.
  rewrite random_below_eq in Hn1. injection Hn1 as <- <-.
  destruct (padding_shape _ _ _ _ _ _ _ Hp0) as [Hl0 _].
  destruct (padding_shape _ _ _ _ _ _ _ Hp1) as [Hl1 _].
  destruct (str_eqb d (trim data)) eqn:He.
  - injection H as <- _. exists pad0, pad1. now split.
  - apply bind_inv in H as (x & q5 & _ & H). discriminate.
Qed.

(** X4.  The form of every string that [encrypt] returns, for any
    plaintext, options and draws: code units from [+] to [~] only, a
    length that is a multiple of four, and at least four more
    characters than the trimmed plaintext. *)
Theorem encrypt_result_form (rnd : nat -> nat) (fuel : nat) (data : jsstring)
    (options : option EncryptOptions.t) (pos : nat) (c : jsstring) (pos' : nat) :
  encrypt rnd fuel data options pos = (Return (Some c), pos') ->
  Forall (fun u => 43 <= u <= 126) c
  /\ (len c) mod 4 = 0
  /\ len (trim data) + 4 <= len c.
Proof.
  intros H. apply encrypt_Some_candidate in H as (pad0 & pad1 & -> & Hl0 & Hl1).
  unfold candidate.
  destruct (base64Encode_chars_and_length
              (map shift10
                 ([fromCharCode (len pad0 + 85)] ++ pad0 ++ map shift10 (trim data)
                    ++ pad1 ++ [fromCharCode (len pad1 + 85)]))
              (EncryptOptions.key (resolved_options options)))
    as (Hchars & Hmod & Hlen & _).
  split; [exact Hchars|]. split; [exact Hmod|].
  unfold len in Hlen at 1. rewrite length_map in Hlen.
  fold (len ([fromCharCode (len pad0 + 85)] ++ pad0 ++ map shift10 (trim data)
               ++ pad1 ++ [fromCharCode (len pad1 + 85)])) in Hlen.
  repeat (rewrite len_app in Hlen || rewrite len_cons in Hlen).
  unfold len in Hlen at 3. rewrite length_map in Hlen. fold (len (trim data)) in Hlen.
  change (len []) with 0 in Hlen. lia.
Qed.

Lemma encrypt_result_form_witness :
  encrypt sample_oracle 5 (lit "hello") (Some (EncryptOptions.mk None None None)) 0%nat
  = (Return (Some sample_ciphertext), 25%nat)
  /\ Forall (fun u => 43 <= u <= 126) sample_ciphertext
  /\ (len sample_ciphertext) mod 4 = 0
  /\ len (trim (lit "hello")) + 4 <= len sample_ciphertext.
Proof.
  assert (H : encrypt sample_oracle 5 (lit "hello")
                (Some (EncryptOptions.mk None None None)) 0%nat
              = (Return (Some sample_ciphertext), 25%nat)) by (vm_compute; reflexivity).
  split; [exact H|].
  exact (encrypt_result_form sample_oracle 5 (lit "hello")
           (Some (EncryptOptions.mk None None None)) 0%nat sample_ciphertext 25%nat H).
Defined.

(** ** crypt.ts: encrypt and decrypt under any options *)

Lemma decrypt_by_key (c : jsstring) (options : option DecryptOptions.t) :
  decrypt c options
  = decrypt c (Some (DecryptOptions.mk (Present (Some (or_default (decrypt_key options)))))).
Proof. destruct options as [[[|[k|]]]|]; reflexivity. Qed.

(** X5.  The round trip beyond printable ASCII and under any options
    of [encrypt] (none at all, any two character sets, a key or none):
    on a plaintext whose code units are at most 55256, which covers
    the alphabets below the surrogates, and an oracle whose redraws come
    to an end, [encrypt] returns a string, and [decrypt] turns it into
    the trimmed plaintext under any options that resolve to the same
    key, so also [decrypt(encrypt(s))] with no options on either
    side. *)
Theorem encrypt_decrypt_any_options (rnd : nat -> nat) (s : jsstring)
    (options : option EncryptOptions.t) (pos : nat) :
  Forall (fun c => 0 <= c <= 55256) s ->
  settles rnd (resolve_set (EncryptOptions.firstRandomCharSet (resolved_options options))) ->
  settles rnd (resolve_set (EncryptOptions.secondRandomCharSet (resolved_options options))) ->
  exists fuel0 c pos',
    (forall fuel, (fuel0 <= fuel)%nat ->
       encrypt rnd fuel s options pos = (Return (Some c), pos'))
    /\ forall decryptOptions,
         or_default (decrypt_key decryptOptions)
         = or_default (EncryptOptions.key (resolved_options options)) ->
         decrypt c decryptOptions = Ok (trim s).
Proof.
  intros Hdata Hs0 Hs1.
  pose proof (Nat.mod_upper_bound (rnd pos) 20 ltac:(lia)) as Hn0.
  destruct (Hs0 (S pos + Z.to_nat (Z.of_nat (Nat.modulo (rnd pos) 20) + 1))%nat) as [d0 Hd0].
  destruct (tokenGenerator_settles rnd _ _ _ _ Hd0 ltac:(lia)) as (pad0 & p1 & H0).
  destruct (Hs1 (S p1 + Z.to_nat (Z.of_nat (Nat.modulo (rnd p1) 20) + 1))%nat) as [d1 Hd1].
  destruct (tokenGenerator_settles rnd _ _ _ _ Hd1 ltac:(lia)) as (pad1 & p2 & H1).
  pose proof (H0 (S d0) (Nat.lt_succ_diag_r d0)) as H0'.
  pose proof (H1 (S d1) (Nat.lt_succ_diag_r d1)) as H1'.
  destruct (padding_shape _ _ _ _ _ _ _ H0') as [Hl0 Hc0].
  destruct (padding_shape _ _ _ _ _ _ _ H1') as [Hl1 Hc1].
  assert (Hd : decrypt (candidate (trim s) pad0 pad1
                          (EncryptOptions.key (resolved_options options)))
                 (check_options options) = Ok (trim s)).
  { apply decrypt_candidate_below; auto. now apply trim_Forall. }
  exists (S (S (Nat.max d0 d1))).
  exists (candidate (trim s) pad0 pad1 (EncryptOptions.key (resolved_options options))).
  exists p2. split.
  - intros [|fuel] Hf; [lia|].
    assert (Hf0 : (d0 < fuel)%nat) by lia. assert (Hf1 : (d1 < fuel)%nat) by lia.
    exact (encrypt_returns_candidate rnd fuel s options pos pad0 p1 pad1 p2
             (H0 fuel Hf0) (H1 fuel Hf1) Hd).
  - intros decryptOptions Hk.
    rewrite decrypt_by_key, Hk. unfold check_options in Hd. exact Hd.
Qed.

Lemma encrypt_decrypt_any_options_witness :
  Forall (fun c => 0 <= c <= 55256) [32; 1087; 1088; 1080; 1074; 1077; 1090; 32]
  /\ settles sample_oracle (characterSets set2)
  /\ settles sample_oracle (characterSets set1)
  /\ exists fuel0 c pos',
       (forall fuel, (fuel0 <= fuel)%nat ->
          encrypt sample_oracle fuel [32; 1087; 1088; 1080; 1074; 1077; 1090; 32]
            (Some (EncryptOptions.mk (Some set2) (Some set1) None)) 0%nat
          = (Return (Some c), pos'))
       /\ decrypt c None = Ok [1087; 1088; 1080; 1074; 1077; 1090].
Proof.
  assert (Hs : Forall (fun c => 0 <= c <= 55256)
                 [32; 1087; 1088; 1080; 1074; 1077; 1090; 32])
    by (repeat constructor; lia).
  split; [exact Hs|].
  split; [exact (sample_oracle_settles (Some set2))|].
  split; [exact (sample_oracle_settles (Some set1))|].
  destruct (encrypt_decrypt_any_options sample_oracle
              [32; 1087; 1088; 1080; 1074; 1077; 1090; 32]
              (Some (EncryptOptions.mk (Some set2) (Some set1) None)) 0%nat
              Hs (sample_oracle_settles (Some set2))
              (sample_oracle_settles (Some set1)))
    as (fuel0 & c & pos' & Hret & Hd).
  exists fuel0, c, pos'. split; [exact Hret|].
  exact (Hd None eq_refl).
Defined.

(** ** crypt.ts: the keys of the codec *)

Lemma fold_left_sum_nonneg (key : jsstring) (acc : Z) :
  is_string key -> 0 <= acc -> 0 <= fold_left (fun acc char => acc + char) key acc.
Proof.
  intros Hkey. revert acc.
  induction Hkey as [|c key Hc _ IH]; intros acc Hacc; simpl; [exact Hacc|].
  apply IH. unfold is_code_unit in Hc. lia.
Qed.

Lemma keySum_nonneg (key : jsstring) : is_string key -> 0 <= keySum key.
Proof. intros H. apply fold_left_sum_nonneg; [exact H|lia]. Qed.

Lemma map_chars_ext_nonneg (f g : Z -> Z -> Z) (s : jsstring) :
  (forall c j, 0 <= j -> f c j = g c j) -> map_chars f s = map_chars g s.
Proof.
  intros H. unfold map_chars.
  assert (Hall : forall i, 0 <= i -> map_chars_from f i s = map_chars_from g i s).
  { induction s as [|c s IH]; intros i Hi; simpl; [reflexivity|].
    rewrite (H c i Hi). f_equal. apply IH. lia. }
  apply Hall. lia.
Qed.

Lemma rem_20_congruent (a b j : Z) :
  0 <= a -> 0 <= b -> a mod 20 = b mod 20 -> 0 <= j ->
  Z.rem (a + j) 20 = Z.rem (b + j) 20.
Proof.
  intros Ha Hb Hab Hj.
  rewrite !Z.rem_mod_nonneg by lia.
  rewrite (Z.add_mod a j 20), (Z.add_mod b j 20) by lia. now rewrite Hab.
Qed.

(** X6.  The codec tells at most twenty keys apart: two keys whose
    character sums leave the same remainder modulo 20 encode and
    decode every text alike, and [decrypt] cannot tell them apart
    either. *)
Theorem codec_key_classes (data : jsstring) (k1 k2 : jsstring) :
  is_string k1 -> is_string k2 ->
  (keySum k1) mod 20 = (keySum k2) mod 20 ->
  base64Encode data (Some k1) = base64Encode data (Some k2)
  /\ base64Decode data (Some k1) = base64Decode data (Some k2)
  /\ decrypt data (Some (DecryptOptions.mk (Present (Some k1))))
     = decrypt data (Some (DecryptOptions.mk (Present (Some k2)))).
Proof.
  intros H1 H2 Hmod.
  pose proof (keySum_nonneg k1 H1) as Hn1. pose proof (keySum_nonneg k2 H2) as Hn2.
  assert (Hdec : forall text, base64Decode text (Some k1) = base64Decode text (Some k2)).
  { intros text. unfold base64Decode. cbv zeta. cbn [or_default].
    apply map_chars_ext_nonneg. intros c j Hj.
    now rewrite (rem_20_congruent (keySum k1) (keySum k2) j). }
  split; [|split].
  - unfold base64Encode. cbv zeta. cbn [or_default].
    do 5 f_equal. apply map_chars_ext_nonneg. intros c j Hj.
    now rewrite (rem_20_congruent (keySum k1) (keySum k2) j).
  - apply Hdec.
  - rewrite !decrypt_unfold. now rewrite Hdec.
Qed.

Lemma codec_key_classes_witness :
  is_string default_key /\ is_string (lit "k")
  /\ default_key <> lit "k"
  /\ base64Encode (lit "data") (Some default_key) = base64Encode (lit "data") (Some (lit "k"))
  /\ base64Decode (lit "data") (Some default_key) = base64Decode (lit "data") (Some (lit "k"))
  /\ decrypt (lit "data") (Some (DecryptOptions.mk (Present (Some default_key))))
     = decrypt (lit "data") (Some (DecryptOptions.mk (Present (Some (lit "k"))))).
Proof.
  assert (H1 : is_string default_key)
    by (repeat constructor; unfold is_code_unit; lia).
  assert (H2 : is_string (lit "k"))
    by (repeat constructor; unfold is_code_unit; lia).
  split; [exact H1|]. split; [exact H2|]. split; [discriminate|].
  apply (codec_key_classes (lit "data") default_key (lit "k") H1 H2). reflexivity.
Defined.

(** X7.  [base64Encode] gives different texts different encodings:
    under one key, two different strings whose shifted forms are well
    formed never share an encoding. *)
Theorem base64Encode_injective (a b : jsstring) (key : option jsstring) :
  is_string a -> is_string b ->
  Buffer.isWellFormed (key_shifted key a) = true ->
  Buffer.isWellFormed (key_shifted key b) = true ->
  a <> b -> base64Encode a key <> base64Encode b key.
Proof.
  intros Ha Hb Hwa Hwb Hne H. apply Hne.
  apply (f_equal (fun c => base64Decode c key)) in H.
  rewrite !base64Decode_base64Encode in H.
  apply isWellFormed_eq in Hwa, Hwb. rewrite Hwa, Hwb in H.
  now rewrite !key_unshifted_shifted in H.
Qed.

Lemma base64Encode_injective_witness :
  is_string (lit "hi") /\ is_string (lit "ho")
  /\ Buffer.isWellFormed (key_shifted None (lit "hi")) = true
  /\ Buffer.isWellFormed (key_shifted None (lit "ho")) = true
  /\ lit "hi" <> lit "ho"
  /\ base64Encode (lit "hi") None <> base64Encode (lit "ho") None.
Proof.
  assert (Ha : is_string (lit "hi")) by (repeat constructor; unfold is_code_unit; lia).
  assert (Hb : is_string (lit "ho")) by (repeat constructor; unfold is_code_unit; lia).
  assert (Hwa : Buffer.isWellFormed (key_shifted None (lit "hi")) = true) by reflexivity.
  assert (Hwb : Buffer.isWellFormed (key_shifted None (lit "ho")) = true) by reflexivity.
  assert (Hne : lit "hi" <> lit "ho") by discriminate.
  split; [exact Ha|]. split; [exact Hb|]. split; [exact Hwa|]. split; [exact Hwb|].
  split; [exact Hne|].
  exact (base64Encode_injective (lit "hi") (lit "ho") None Ha Hb Hwa Hwb Hne).
Defined.

(** ** crypt.ts: isEqual on encrypted texts *)

Lemma decrypt_or_default (c : jsstring) (k : option jsstring) :
  decrypt c (Some (DecryptOptions.mk (Present k)))
  = decrypt c (Some (DecryptOptions.mk (Present (Some (or_default k))))).
Proof. destruct k; reflexivity. Qed.

Lemma decrypt_or_self_Ok (c : jsstring) (k k' : option jsstring) (d : jsstring) :
  or_default k = or_default k' ->
  decrypt c (Some (DecryptOptions.mk (Present k'))) = Ok d ->
  decrypt_or_self c k = d.
Proof.
  intros Hk Hd. unfold decrypt_or_self.
  rewrite decrypt_or_default, Hk, <- decrypt_or_default, Hd. reflexivity.
Qed.

(** The three tests of [isEqual] on decrypted texts: each of them,
    when its plain comparison holds, makes the verdict [true]. *)
Lemma isEqual_by_decrypting (toLowerCase : jsstring -> jsstring)
    (text text1 : jsstring) (options : option IsEqualOptions.t) :
  decrypt_or_self text1 (isEqual_key options) = text
  \/ decrypt_or_self text (isEqual_key options) = text1
  \/ decrypt_or_self text1 (isEqual_key options) = decrypt_or_self text (isEqual_key options) ->
  Verdict.isEqual (isEqual toLowerCase text text1 options) = true.
Proof.
  intros H. unfold isEqual. cbv zeta.
  replace (match IsEqualOptions.key
                   match options with
                   | Some o => o
                   | None => IsEqualOptions.mk (Some true) None None
                   end
           with
           | Some [] => None
           | k => k
           end) with (isEqual_key options)
    by (destruct options as [[cs [[|z k]|] l]|]; reflexivity).
  set (f := match IsEqualOptions.caseSensitive _ with Some true => _ | _ => _ end).
  destruct (str_eqb text text1 || _ || _ || _); [reflexivity|].
  destruct H as [H|[H|H]].
  - rewrite H, str_eqb_refl. reflexivity.
  - destruct (str_eqb (decrypt_or_self text1 _) text || _ || _ || _); [reflexivity|].
    rewrite H, str_eqb_refl. reflexivity.
  - destruct (str_eqb (decrypt_or_self text1 _) text || _ || _ || _); [reflexivity|].
    destruct (str_eqb (decrypt_or_self text _) text1 || _); [reflexivity|].
    rewrite H, str_eqb_refl. reflexivity.
Qed.

(** X8.  [isEqual] recognises a ciphertext of a plaintext, in either
    order of its arguments: for a string that [encrypt] returned on a
    trimmed plaintext, and options of [isEqual] whose key is the one of
    [encrypt] (none on both sides included), the verdict is [true],
    whatever [caseSensitive] says and whatever [toLowerCase] does. *)
Theorem isEqual_recognises_ciphertext (toLowerCase : jsstring -> jsstring)
    (rnd : nat -> nat) (fuel : nat) (plaintext : jsstring)
    (encryptOptions : option EncryptOptions.t) (pos : nat) (c : jsstring) (pos' : nat)
    (options : option IsEqualOptions.t) :
  encrypt rnd fuel plaintext encryptOptions pos = (Return (Some c), pos') ->
  trim plaintext = plaintext ->
  or_default (isEqual_key options)
  = or_default (EncryptOptions.key (resolved_options encryptOptions)) ->
  Verdict.isEqual (isEqual toLowerCase plaintext c options) = true
  /\ Verdict.isEqual (isEqual toLowerCase c plaintext options) = true.
Proof.
  intros Hc Htrim Hk.
  pose proof (encrypt_Some_inv rnd fuel plaintext encryptOptions pos c pos' Hc) as Hd.
  rewrite Htrim in Hd. unfold check_options in Hd.
  pose proof (decrypt_or_self_Ok c _ _ plaintext Hk Hd) as Hself.
  split; apply isEqual_by_decrypting; [left|right; left]; exact Hself.
Qed.

Lemma isEqual_recognises_ciphertext_witness :
  encrypt sample_oracle 5 (lit "hello") (Some (EncryptOptions.mk None None None)) 0%nat
  = (Return (Some sample_ciphertext), 25%nat)
  /\ Verdict.isEqual (isEqual ascii_toLowerCase (lit "hello") sample_ciphertext None) = true
  /\ Verdict.isEqual (isEqual ascii_toLowerCase sample_ciphertext (lit "hello") None) = true.
Proof.
  assert (H : encrypt sample_oracle 5 (lit "hello")
                (Some (EncryptOptions.mk None None None)) 0%nat
              = (Return (Some sample_ciphertext), 25%nat)) by (vm_compute; reflexivity).
  split; [exact H|].
  apply (isEqual_recognises_ciphertext ascii_toLowerCase sample_oracle 5 (lit "hello")
           (Some (EncryptOptions.mk None None None)) 0%nat sample_ciphertext 25%nat None H);
    reflexivity.
Defined.

(** X9.  [isEqual] on two ciphertexts: two strings that [encrypt]
    returned, at any two moments and with any character sets, for
    plaintexts that are equal up to surrounding white space, compare as
    equal under the key they were made with. *)
Theorem isEqual_two_ciphertexts (toLowerCase : jsstring -> jsstring)
    (rnd rnd' : nat -> nat) (fuel fuel' : nat) (plaintext plaintext' : jsstring)
    (encryptOptions encryptOptions' : option EncryptOptions.t)
    (pos pos' : nat) (c c' : jsstring) (end_ end' : nat)
    (options : option IsEqualOptions.t) :
  encrypt rnd fuel plaintext encryptOptions pos = (Return (Some c), end_) ->
  encrypt rnd' fuel' plaintext' encryptOptions' pos' = (Return (Some c'), end') ->
  trim plaintext = trim plaintext' ->
  or_default (isEqual_key options)
  = or_default (EncryptOptions.key (resolved_options encryptOptions)) ->
  or_default (isEqual_key options)
  = or_default (EncryptOptions.key (resolved_options encryptOptions')) ->
  Verdict.isEqual (isEqual toLowerCase c c' options) = true.
Proof.
  intros Hc Hc' Htrim Hk Hk'.
  pose proof (encrypt_Some_inv rnd fuel plaintext encryptOptions pos c end_ Hc) as Hd.
  pose proof (encrypt_Some_inv rnd' fuel' plaintext' encryptOptions' pos' c' end' Hc') as Hd'.
  unfold check_options in Hd, Hd'.
  apply isEqual_by_decrypting. right; right.
  rewrite (decrypt_or_self_Ok c _ _ _ Hk Hd), (decrypt_or_self_Ok c' _ _ _ Hk' Hd').
  symmetry. exact Htrim.
Qed.

Lemma isEqual_two_ciphertexts_witness :
  exists c c',
    encrypt sample_oracle 5 (lit " hello ")
      (Some (EncryptOptions.mk None None (Some (lit "key")))) 0%nat
    = (Return (Some c), 25%nat)
    /\ encrypt sample_oracle 6 (lit "hello")
         (Some (EncryptOptions.mk (Some set2) (Some set1) (Some (lit "key")))) 40%nat
       = (Return (Some c'), 65%nat)
    /\ c <> c'
    /\ Verdict.isEqual (isEqual ascii_toLowerCase c c' (key_only (lit "key"))) = true.
Proof.
  pose (r := encrypt sample_oracle 5 (lit " hello ")
               (Some (EncryptOptions.mk None None (Some (lit "key")))) 0%nat).
  pose (r' := encrypt sample_oracle 6 (lit "hello")
                (Some (EncryptOptions.mk (Some set2) (Some set1) (Some (lit "key")))) 40%nat).
  assert (H : exists c c', r = (Return (Some c), 25%nat) /\ r' = (Return (Some c'), 65%nat)
                           /\ c <> c').
  { vm_compute. eexists _, _. split; [reflexivity|]. split; [reflexivity|discriminate]. }
  destruct H as (c & c' & Hc & Hc' & Hne). subst r r'.
  exists c, c'. split; [exact Hc|]. split; [exact Hc'|]. split; [exact Hne|].
  apply (isEqual_two_ciphertexts ascii_toLowerCase sample_oracle sample_oracle 5 6
           (lit " hello ") (lit "hello") _ _ 0%nat 40%nat c c' 25%nat 65%nat
           (key_only (lit "key")) Hc Hc'); reflexivity.
Defined.

(** ** crypt.ts: what comes back from the two walkers *)

Section LoopsComposed.

Context {V : Type}.

Lemma for_entries_pure_fresh (g : V -> result V) (entries news : list (jsstring * V)) :
  forall out,
    NoDup (map fst out ++ map fst entries) ->
    ~ In (lit "__proto__") (map fst entries) ->
    Forall2 (fun kv ky => fst ky = fst kv /\ g (snd kv) = Ok (snd ky)) entries news ->
    for_entries_pure g entries out = Ok (out ++ news).
Proof.
  intros out Hnd Hpr H. revert out Hnd Hpr.
  induction H as [|[k v] [k' y] entries news [Hk Hy] _ IH]; intros out Hnd Hpr.
  - cbn. now rewrite app_nil_r.
  - cbn [fst snd] in Hk, Hy. subst k'. cbn [for_entries_pure]. rewrite Hy.
    cbn [map fst] in Hnd, Hpr. apply NoDup_app_cons_fresh in Hnd as [Hfresh Hnd].
    assert (Hk : k <> lit "__proto__") by (intros ->; apply Hpr; now left).
    assert (Hpr' : ~ In (lit "__proto__") (map fst entries))
      by (intros Hin; apply Hpr; now right).
    rewrite (set_prop_fresh out k y Hk Hfresh).
    rewrite IH; [now rewrite <- app_assoc|now rewrite map_app|exact Hpr'].
Qed.

Lemma Forall2_same_keys (R : jsstring * V -> jsstring * V -> Prop)
    (entries news : list (jsstring * V)) :
  Forall2 (fun kv ky => fst ky = fst kv /\ R kv ky) entries news ->
  map fst news = map fst entries.
Proof.
  induction 1 as [|kv ky entries news [Hk _] _ IH]; [reflexivity|].
  cbn [map]. now rewrite Hk, IH.
Qed.

(** A loop with [f] followed by a loop with [g], when [g] undoes [f]
    up to [h] on every value. *)
Lemma for_entries_composed (f : V -> M V) (g : V -> result V) (h : V -> V)
    (entries : list (jsstring * V)) (pos : nat) (r : list (jsstring * V)) (pos' : nat) :
  NoDup (map fst entries) ->
  ~ In (lit "__proto__") (map fst entries) ->
  Forall (fun kv => forall p y p', f (snd kv) p = (Return y, p') -> g y = Ok (h (snd kv)))
         entries ->
  for_entries f entries [] pos = (Return r, pos') ->
  for_entries_pure g r [] = Ok (map (fun kv => (fst kv, h (snd kv))) entries).
Proof.
  intros Hnd Hpr Hall H.
  apply for_entries_fresh in H as (news & -> & Hnews); [|exact Hnd|exact Hpr].
  cbn [app].
  pose proof (Forall2_same_keys _ _ _ Hnews) as Hkeys.
  apply (for_entries_pure_fresh g news (map (fun kv => (fst kv, h (snd kv))) entries) []).
  - cbn [map app]. now rewrite Hkeys.
  - now rewrite Hkeys.
  - clear Hnd Hkeys Hpr. induction Hnews as [|kv ky entries news [Hk (p & p' & Hy)] _ IH].
    + constructor.
    + inversion_clear Hall as [|? ? Hkv Hrest]. cbn [map]. constructor; [|now apply IH].
      cbn [fst snd]. split; [now rewrite Hk|]. exact (Hkv _ _ _ Hy).
Qed.

Lemma array_map_composed (f : V -> M V) (g : V -> result V) (h : V -> V)
    (items : list V) :
  forall pos r pos',
    Forall (fun v => forall p y p', f v p = (Return y, p') -> g y = Ok (h v)) items ->
    array_map f items pos = (Return r, pos') ->
    array_map_pure g r = Ok (map h items).
Proof.
  induction items as [|v items IH]; intros pos r pos' Hall H.
  - now injection H as <- _.
  - cbn [array_map] in H. apply bind_inv in H as (y & p1 & Hy & H).
    apply bind_inv in H as (ys & p2 & Hys & H). injection H as <- _.
    inversion_clear Hall as [|? ? Hv Hrest]. cbn [array_map_pure map].
    now rewrite (Hv _ _ _ Hy), (IH _ _ _ Hrest Hys).
Qed.

(** A loop that returns has seen [f] return on every value. *)
Lemma for_entries_Return_all (f : V -> M V) (entries : list (jsstring * V)) :
  forall out pos r pos',
    for_entries f entries out pos = (Return r, pos') ->
    Forall (fun kv => exists p y p', f (snd kv) p = (Return y, p')) entries.
Proof.
  induction entries as [|[k v] entries IH]; intros out pos r pos' H; [constructor|].
  cbn [for_entries] in H. apply bind_inv in H as (y & p1 & Hy & H).
  constructor; [now exists pos, y, p1|]. exact (IH _ _ _ _ H).
Qed.

Lemma array_map_Return_all (f : V -> M V) (items : list V) :
  forall pos r pos',
    array_map f items pos = (Return r, pos') ->
    Forall (fun v => exists p y p', f v p = (Return y, p')) items.
Proof.
  induction items as [|v items IH]; intros pos r pos' H; [constructor|].
  cbn [array_map] in H. apply bind_inv in H as (y & p1 & Hy & H).
  apply bind_inv in H as (ys & p2 & Hys & H).
  constructor; [now exists pos, y, p1|]. exact (IH _ _ _ Hys).
Qed.

Lemma for_entries_pure_Ok_all (g : V -> result V) (entries : list (jsstring * V)) :
  forall out r,
    for_entries_pure g entries out = Ok r ->
    Forall (fun kv => exists y, g (snd kv) = Ok y) entries.
Proof.
  induction entries as [|[k v] entries IH]; intros out r H; [constructor|].
  cbn [for_entries_pure] in H. destruct (g v) as [y|e] eqn:Hy; [|discriminate].
  constructor; [now exists y|]. exact (IH _ _ H).
Qed.

Lemma array_map_pure_Ok_all (g : V -> result V) (items : list V) :
  forall r,
    array_map_pure g items = Ok r -> Forall (fun v => exists y, g v = Ok y) items.
Proof.
  induction items as [|v items IH]; intros r H; [constructor|].
  cbn [array_map_pure] in H. destruct (g v) as [y|e] eqn:Hy; [|discriminate].
  destruct (array_map_pure g items) as [ys|e] eqn:Hys; [|discriminate].
  constructor; [now exists y|]. exact (IH _ eq_refl).
Qed.

End LoopsComposed.

Lemma trim_boolean (b : bool) : trim (String_of_boolean b) = String_of_boolean b.
Proof. destruct b; reflexivity. Qed.

Section WalkersRoundTrip.

Context {number : Type}.
Variable String_of_number : number -> jsstring.
Variable rnd : nat -> nat.
Variable fuel : nat.
Variable key : jsstring.

(** On a printable string, what [encrypt] hands to the walker is a
    ciphertext of the trimmed string. *)
Lemma encrypt_leaf_round_trip (s : jsstring) (pos : nat) (y : value number) (pos' : nat) :
  printable_ascii s ->
  encrypt_leaf rnd fuel key s pos = (Return y, pos') ->
  exists c, y = VString c /\ trim c = c
            /\ decrypt c (Some (DecryptOptions.mk (Present (Some key)))) = Ok (trim s).
Proof.
  intros Hs H. unfold encrypt_leaf in H. apply bind_inv in H as (r & p & Hr & H).
  injection H as <- _.
  destruct (encrypt_printable rnd fuel s
              (Some (EncryptOptions.mk None None (Some key))) pos Hs)
    as [Hout|(c & p' & Hc & Hd)].
  - rewrite Hr in Hout. discriminate.
  - rewrite Hc in Hr. injection Hr as <- _. exists c. split; [reflexivity|].
    split; [exact (encrypt_Some_trim _ _ _ _ _ _ _ Hc)|exact Hd].
Qed.

Lemma leaf_as_property (s : jsstring) (pos : nat) (y : value number) (pos' : nat) :
  printable_ascii s ->
  encrypt_leaf rnd fuel key (trim s) pos = (Return y, pos') ->
  decrypt_property key y = Ok (VString (trim s)).
Proof.
  intros Hs H.
  apply encrypt_leaf_round_trip in H as (c & -> & Htrim & Hd); [|now apply trim_Forall].
  cbn [decrypt_property]. unfold decrypt_leaf. rewrite Htrim, Hd. cbn [map_result].
  now rewrite trim_idempotent.
Qed.

Lemma leaf_as_item (s : jsstring) (pos : nat) (y : value number) (pos' : nat) :
  printable_ascii s ->
  encrypt_leaf rnd fuel key s pos = (Return y, pos') ->
  decrypt_item key y = Ok (VString (trim s))
  /\ decrypt_subItem key y = Ok (VString (trim s)).
Proof.
  intros Hs H.
  apply encrypt_leaf_round_trip in H as (c & -> & Htrim & Hd); [|exact Hs].
  cbn [decrypt_item decrypt_subItem]. unfold decrypt_leaf. rewrite Hd. now split.
Qed.

Let unwinds (f : value number -> M (value number))
    (g : value number -> result (value number))
    (h : value number -> value number) (v : value number) : Prop :=
  forall pos y pos', f v pos = (Return y, pos') -> g y = Ok (h v).

(** Each dispatch of [decryptObject] undoes the matching dispatch of
    [encryptObject], up to what the leaves become. *)
Lemma dispatch_round_trip (v : value number) :
  plain String_of_number v -> ordinary_keys v ->
  unwinds (encrypt_property String_of_number rnd fuel key) (decrypt_property key)
    (restored_property String_of_number) v
  /\ unwinds (encrypt_item String_of_number rnd fuel key) (decrypt_item key)
       (restored_item String_of_number) v
  /\ unwinds (encrypt_subItem String_of_number rnd fuel key) (decrypt_subItem key)
       (restored_subItem String_of_number) v.
Proof.
  induction v as [s|n|b| | |items IH|props IH] using value_induction;
    intros Hp Hd; unfold unwinds; cbn [plain] in Hp.
  - (split; [|split]); intros pos y pos' H;
      cbn [encrypt_property encrypt_item encrypt_subItem] in H;
      cbn [restored_property restored_item restored_subItem].
    + exact (leaf_as_property s pos y pos' Hp H).
    + exact (proj1 (leaf_as_item s pos y pos' Hp H)).
    + exact (proj2 (leaf_as_item s pos y pos' Hp H)).
  - (split; [|split]); intros pos y pos' H;
      cbn [encrypt_property encrypt_item encrypt_subItem] in H;
      cbn [restored_property restored_item restored_subItem].
    + exact (leaf_as_property _ pos y pos' Hp H).
    + exact (proj1 (leaf_as_item _ pos y pos' Hp H)).
    + exact (proj2 (leaf_as_item _ pos y pos' Hp H)).
  - (split; [|split]); intros pos y pos' H;
      cbn [encrypt_property encrypt_item encrypt_subItem] in H;
      cbn [restored_property restored_item restored_subItem].
    + rewrite <- (trim_boolean b) at 1.
      exact (leaf_as_property _ pos y pos' (printable_boolean b) H).
    + now injection H as <- _.
    + now injection H as <- _.
  - contradiction.
  - (split; [|split]); intros pos y pos' H; now injection H as <- _.
  - apply fold_right_and_Forall in Hp. apply ordinary_keys_items in Hd.
    assert (Hall : Forall (fun v =>
               unwinds (encrypt_property String_of_number rnd fuel key) (decrypt_property key)
                 (restored_property String_of_number) v
               /\ unwinds (encrypt_item String_of_number rnd fuel key) (decrypt_item key)
                    (restored_item String_of_number) v
               /\ unwinds (encrypt_subItem String_of_number rnd fuel key) (decrypt_subItem key)
                    (restored_subItem String_of_number) v) items).
    { rewrite Forall_forall in *. intros v Hv. apply IH; auto. }
    (split; [|split]); intros pos y pos' H;
      cbn [encrypt_property encrypt_item encrypt_subItem] in H;
      apply bind_inv in H as (r & p & Hr & H); injection H as <- _;
      cbn [restored_property restored_item restored_subItem];
      rewrite ?decrypt_property_VArray, ?decrypt_item_VArray, ?decrypt_subItem_VArray.
    + assert (Hm : array_map_pure (decrypt_item key) r
                   = Ok (map (restored_item String_of_number) items)).
      { apply (fun Hf => array_map_composed _ _ _ items pos r p Hf Hr).
        eapply Forall_impl; [|exact Hall]. intros v Hv. apply Hv. }
      now rewrite Hm.
    + assert (Hm : array_map_pure (decrypt_subItem key) r
                   = Ok (map (restored_subItem String_of_number) items)).
      { apply (fun Hf => array_map_composed _ _ _ items pos r p Hf Hr).
        eapply Forall_impl; [|exact Hall]. intros v Hv. apply Hv. }
      now rewrite Hm.
    + assert (Hm : array_map_pure (decrypt_item key) r
                   = Ok (map (restored_item String_of_number) items)).
      { apply (fun Hf => array_map_composed _ _ _ items pos r p Hf Hr).
        eapply Forall_impl; [|exact Hall]. intros v Hv. apply Hv. }
      now rewrite Hm.
  - apply (fold_right_and_Forall (fun kv => plain String_of_number (snd kv))) in Hp.
    apply ordinary_keys_props in Hd as (Hnd & Hpr & Hd).
    assert (Hall : Forall (fun kv =>
               unwinds (encrypt_property String_of_number rnd fuel key) (decrypt_property key)
                 (restored_property String_of_number) (snd kv)) props).
    { rewrite Forall_forall in *. intros kv Hkv. apply IH; auto. }
    (split; [|split]); intros pos y pos' H;
      cbn [encrypt_property encrypt_item encrypt_subItem] in H;
      apply bind_inv in H as (r & p & Hr & H); injection H as <- _;
      cbn [restored_property restored_item restored_subItem];
      rewrite ?decrypt_property_VObject, ?decrypt_item_VObject, ?decrypt_subItem_VObject;
      (assert (Hm : for_entries_pure (decrypt_property key) r []
                    = Ok (map (fun kv => (fst kv, restored_property String_of_number (snd kv)))
                            props))
         by exact (for_entries_composed _ _ _ props pos r p Hnd Hpr Hall Hr));
      now rewrite Hm.
Qed.

End WalkersRoundTrip.

(** What [decryptObject] makes of what [encryptObject] returned. *)
Lemma encryptObject_restored {number : Type} (String_of_number : number -> jsstring)
    (rnd : nat -> nat) (fuel : nat) (props : list (jsstring * value number))
    (key : option jsstring) (pos : nat) (r : value number) (pos' : nat) :
  plain String_of_number (VObject props) ->
  ordinary_keys (VObject props) ->
  encryptObject String_of_number rnd fuel (VObject props) key pos = (Return r, pos') ->
  decryptObject r key = Ok (restored_property String_of_number (VObject props)).
Proof.
  intros Hp Hd H.
  destruct (dispatch_round_trip String_of_number rnd fuel (or_default key)
              (VObject props) Hp Hd) as [Hprop _].
  pose proof (Hprop pos r pos') as Hr.
  rewrite encryptObject_VObject in H.
  cbn [encrypt_property] in Hr. specialize (Hr H).
  apply bind_inv in H as (r0 & p & _ & H). injection H as <- _.
  rewrite decryptObject_VObject. rewrite decrypt_property_VObject in Hr. exact Hr.
Qed.

(** X10.  The round trip of the two walkers, value by value: for an
    object without [null] whose strings and numbers are printable and
    whose objects have distinct keys none of which is [__proto__],
    [decryptObject] with the same key turns whatever [encryptObject]
    returned into the object with its strings trimmed, its numbers as
    strings, the booleans that are values of properties as strings, and
    the booleans inside arrays as they were; so the object comes back
    unchanged exactly when it is left unchanged by that rewriting. *)
Theorem walkers_round_trip {number : Type} (String_of_number : number -> jsstring)
    (rnd : nat -> nat) (fuel : nat) (props : list (jsstring * value number))
    (key : option jsstring) (pos : nat) (r : value number) (pos' : nat) :
  plain String_of_number (VObject props) ->
  ordinary_keys (VObject props) ->
  encryptObject String_of_number rnd fuel (VObject props) key pos = (Return r, pos') ->
  decryptObject r key = Ok (restored_property String_of_number (VObject props))
  /\ (decryptObject r key = Ok (VObject props)
      <-> restored_property String_of_number (VObject props) = VObject props).
Proof.
  intros Hp Hd H.
  pose proof (encryptObject_restored String_of_number rnd fuel props key pos r pos' Hp Hd H)
    as Hr.
  split; [exact Hr|]. rewrite Hr. split.
  - intros E. cbn [restored_property] in *. congruence.
  - intros E. f_equal. exact E.
Qed.

Lemma walkers_round_trip_witness :
  plain String_of_Z (VObject sample_record)
  /\ ordinary_keys (VObject sample_record)
  /\ exists r pos',
       encryptObject String_of_Z sample_oracle 5 (VObject sample_record)
         (Some (lit "key")) 0%nat = (Return r, pos')
       /\ decryptObject r (Some (lit "key"))
          = Ok (VObject [(lit "a", VString (lit "x"));
                         (lit "n", VString (lit "7"));
                         (lit "t", VString (lit "true"));
                         (lit "l", VArray [VBoolean true; VString (lit "2");
                                           VArray [VString (lit "y")]])]).
Proof.
  assert (Hp : plain String_of_Z (VObject sample_record)).
  { cbn. unfold printable_ascii. repeat split; repeat constructor; lia. }
  assert (Hd : ordinary_keys (VObject sample_record)).
  { ordinary_keys_by_cases. }
  split; [exact Hp|]. split; [exact Hd|].
  destruct (encryptObject String_of_Z sample_oracle 5 (VObject sample_record)
              (Some (lit "key")) 0%nat) as [[r|e|] pos'] eqn:Hrun.
  - exists r, pos'. split; [reflexivity|].
    exact (proj1 (walkers_round_trip String_of_Z sample_oracle 5 sample_record
                    (Some (lit "key")) 0%nat r pos' Hp Hd Hrun)).
  - vm_compute in Hrun. discriminate Hrun.
  - vm_compute in Hrun. discriminate Hrun.
Defined.

(** ** crypt.ts: null inside the data *)

Lemma has_null_items {number : Type} (items : list (value number)) :
  has_null (VArray items) <-> Exists has_null items.
Proof.
  cbn [has_null]. induction items as [|x items IH]; cbn [fold_right].
  - split; [contradiction|intros H; inversion H].
  - rewrite IH. split.
    + intros [H|H]; [now left|now right].
    + intros H. inversion H; [now left|now right].
Qed.

Lemma has_null_props {number : Type} (props : list (jsstring * value number)) :
  has_null (VObject props) <-> Exists (fun kv => has_null (snd kv)) props.
Proof.
  cbn [has_null]. induction props as [|x props IH]; cbn [fold_right].
  - split; [contradiction|intros H; inversion H].
  - rewrite IH. split.
    + intros [H|H]; [now left|now right].
    + intros H. inversion H; [now left|now right].
Qed.

Lemma Exists_against_Forall {A} (P Q : A -> Prop) (l : list A) :
  Exists P l -> Forall (fun x => P x -> ~ Q x) l -> Forall Q l -> False.
Proof.
  intros HE HF HQ. rewrite Exists_exists in HE. destruct HE as (x & Hin & HP).
  rewrite Forall_forall in HF, HQ. exact (HF x Hin HP (HQ x Hin)).
Qed.

Lemma snd_indexed_from {V} (i : nat) (a : list V) : map snd (indexed_from i a) = a.
Proof.
  revert i. induction a as [|x a IH]; intros i; [reflexivity|].
  cbn [indexed_from map snd]. now rewrite IH.
Qed.

Section LoopsOnNull.

Context {number : Type}.

Lemma array_map_stops (f : value number -> M (value number))
    (items : list (value number)) :
  Exists has_null items ->
  Forall (fun v => has_null v -> ~ exists pos y pos', f v pos = (Return y, pos')) items ->
  forall pos r pos', array_map f items pos <> (Return r, pos').
Proof.
  intros Hn Hf pos r pos' H. apply array_map_Return_all in H.
  exact (Exists_against_Forall _ _ _ Hn Hf H).
Qed.

Lemma array_map_pure_rejects (g : value number -> result (value number))
    (items : list (value number)) :
  Exists has_null items ->
  Forall (fun v => has_null v -> ~ exists y, g v = Ok y) items ->
  forall r, array_map_pure g items <> Ok r.
Proof.
  intros Hn Hg r H. apply array_map_pure_Ok_all in H.
  exact (Exists_against_Forall _ _ _ Hn Hg H).
Qed.

Lemma for_entries_stops (f : value number -> M (value number))
    (entries : list (jsstring * value number)) :
  Exists (fun kv => has_null (snd kv)) entries ->
  Forall (fun kv => has_null (snd kv) ->
                    ~ exists pos y pos', f (snd kv) pos = (Return y, pos')) entries ->
  forall out pos r pos', for_entries f entries out pos <> (Return r, pos').
Proof.
  intros Hn Hf out pos r pos' H. apply for_entries_Return_all in H.
  exact (Exists_against_Forall _ _ _ Hn Hf H).
Qed.

Lemma for_entries_pure_rejects (g : value number -> result (value number))
    (entries : list (jsstring * value number)) :
  Exists (fun kv => has_null (snd kv)) entries ->
  Forall (fun kv => has_null (snd kv) -> ~ exists y, g (snd kv) = Ok y) entries ->
  forall out r, for_entries_pure g entries out <> Ok r.
Proof.
  intros Hn Hg out r H. apply for_entries_pure_Ok_all in H.
  exact (Exists_against_Forall _ _ _ Hn Hg H).
Qed.

End LoopsOnNull.

Section NullInData.

Context {number : Type}.
Variable String_of_number : number -> jsstring.
Variable rnd : nat -> nat.
Variable fuel : nat.
Variable key : jsstring.

Let stops (f : value number -> M (value number)) (v : value number) : Prop :=
  ~ exists pos y pos', f v pos = (Return y, pos').

Let rejects (g : value number -> result (value number)) (v : value number) : Prop :=
  ~ exists y, g v = Ok y.

(** No dispatch of the two walkers returns on a value with [null] in
    it. *)
Lemma dispatch_rejects_null (v : value number) :
  has_null v ->
  (stops (encrypt_property String_of_number rnd fuel key) v
   /\ stops (encrypt_item String_of_number rnd fuel key) v
   /\ stops (encrypt_subItem String_of_number rnd fuel key) v)
  /\ (rejects (decrypt_property key) v /\ rejects (decrypt_item key) v
      /\ rejects (decrypt_subItem key) v).
Proof.
  induction v as [s|n|b| | |items IH|props IH] using value_induction;
    intros Hn; try contradiction; unfold stops, rejects.
  - split; (split; [|split]).
    + intros (pos & y & pos' & H). discriminate.
    + intros (pos & y & pos' & H). discriminate.
    + intros (pos & y & pos' & H). discriminate.
    + intros (y & H). discriminate.
    + intros (y & H). discriminate.
    + intros (y & H). discriminate.
  - apply has_null_items in Hn.
    assert (HI : forall pos r pos',
               array_map (encrypt_item String_of_number rnd fuel key) items pos
               <> (Return r, pos')).
    { refine (array_map_stops _ _ Hn _).
      eapply Forall_impl; [|exact IH]. intros v Hv Hnv. apply (Hv Hnv). }
    assert (HS : forall pos r pos',
               array_map (encrypt_subItem String_of_number rnd fuel key) items pos
               <> (Return r, pos')).
    { refine (array_map_stops _ _ Hn _).
      eapply Forall_impl; [|exact IH]. intros v Hv Hnv. apply (Hv Hnv). }
    assert (HdI : forall r, array_map_pure (decrypt_item key) items <> Ok r).
    { refine (array_map_pure_rejects _ _ Hn _).
      eapply Forall_impl; [|exact IH]. intros v Hv Hnv. apply (Hv Hnv). }
    assert (HdS : forall r, array_map_pure (decrypt_subItem key) items <> Ok r).
    { refine (array_map_pure_rejects _ _ Hn _).
      eapply Forall_impl; [|exact IH]. intros v Hv Hnv. apply (Hv Hnv). }
    split; (split; [|split]).
    + intros (pos & y & pos' & H). cbn [encrypt_property] in H.
      apply bind_inv in H as (r & p & Hr & _). exact (HI _ _ _ Hr).
    + intros (pos & y & pos' & H). cbn [encrypt_item] in H.
      apply bind_inv in H as (r & p & Hr & _). exact (HS _ _ _ Hr).
    + intros (pos & y & pos' & H). cbn [encrypt_subItem] in H.
      apply bind_inv in H as (r & p & Hr & _). exact (HI _ _ _ Hr).
    + intros (y & H). rewrite decrypt_property_VArray in H.
      destruct (array_map_pure (decrypt_item key) items) as [r|e] eqn:Hr; [|discriminate].
      exact (HdI _ eq_refl).
    + intros (y & H). rewrite decrypt_item_VArray in H.
      destruct (array_map_pure (decrypt_subItem key) items) as [r|e] eqn:Hr; [|discriminate].
      exact (HdS _ eq_refl).
    + intros (y & H). rewrite decrypt_subItem_VArray in H.
      destruct (array_map_pure (decrypt_item key) items) as [r|e] eqn:Hr; [|discriminate].
      exact (HdI _ eq_refl).
  - apply has_null_props in Hn.
    assert (He : forall pos r pos',
               for_entries (encrypt_property String_of_number rnd fuel key) props [] pos
               <> (Return r, pos')).
    { refine (for_entries_stops _ _ Hn _ []).
      eapply Forall_impl; [|exact IH]. intros kv Hv Hnv. apply (Hv Hnv). }
    assert (Hdc : forall r, for_entries_pure (decrypt_property key) props [] <> Ok r).
    { refine (for_entries_pure_rejects _ _ Hn _ []).
      eapply Forall_impl; [|exact IH]. intros kv Hv Hnv. apply (Hv Hnv). }
    split; (split; [|split]).
    + intros (pos & y & pos' & H). cbn [encrypt_property] in H.
      apply bind_inv in H as (r & p & Hr & _). exact (He _ _ _ Hr).
    + intros (pos & y & pos' & H). cbn [encrypt_item] in H.
      apply bind_inv in H as (r & p & Hr & _). exact (He _ _ _ Hr).
    + intros (pos & y & pos' & H). cbn [encrypt_subItem] in H.
      apply bind_inv in H as (r & p & Hr & _). exact (He _ _ _ Hr).
    + intros (y & H). rewrite decrypt_property_VObject in H.
      destruct (for_entries_pure (decrypt_property key) props []) as [r|e] eqn:Hr;
        [|discriminate].
      exact (Hdc _ eq_refl).
    + intros (y & H). rewrite decrypt_item_VObject in H.
      destruct (for_entries_pure (decrypt_property key) props []) as [r|e] eqn:Hr;
        [|discriminate].
      exact (Hdc _ eq_refl).
    + intros (y & H). rewrite decrypt_subItem_VObject in H.
      destruct (for_entries_pure (decrypt_property key) props []) as [r|e] eqn:Hr;
        [|discriminate].
      exact (Hdc _ eq_refl).
Qed.

End NullInData.

(** X11.  [null] anywhere in the data, as the value of a property or
    as an item of an array at any depth, and neither walker returns:
    [encryptObject] and [decryptObject] give no result on such data,
    whatever the key and the draws are. *)
Theorem walkers_reject_null {number : Type} (String_of_number : number -> jsstring)
    (rnd : nat -> nat) (fuel : nat) (data : value number) (key : option jsstring) :
  has_null data ->
  (forall pos r pos',
      encryptObject String_of_number rnd fuel data key pos <> (Return r, pos'))
  /\ (forall r, decryptObject data key <> Ok r).
Proof.
  intros Hn.
  assert (Hentries : forall entries, Object_entries data = Some entries ->
                                     Exists (fun kv => has_null (snd kv)) entries).
  { destruct data as [s|n|b| | |items|props]; try contradiction; cbn [Object_entries];
      intros entries [= <-].
    - apply has_null_items in Hn. rewrite <- Exists_map, snd_indexed_from. exact Hn.
    - now apply has_null_props. }
  split.
  - intros pos r pos' H. unfold encryptObject in H. cbv zeta in H.
    destruct (Object_entries data) as [entries|]; [|discriminate].
    apply bind_inv in H as (r0 & p & Hr & _). revert Hr.
    refine (for_entries_stops _ _ (Hentries _ eq_refl) _ [] _ _ _).
    apply Forall_forall. intros kv _ Hkv.
    apply (dispatch_rejects_null String_of_number rnd fuel (or_default key) (snd kv) Hkv).
  - intros r H. unfold decryptObject in H. cbv zeta in H.
    destruct (Object_entries data) as [entries|]; [|discriminate].
    destruct (for_entries_pure (decrypt_property (or_default key)) entries []) as [r0|e] eqn:Hr;
      [|discriminate].
    revert Hr. refine (for_entries_pure_rejects _ _ (Hentries _ eq_refl) _ [] _).
    apply Forall_forall. intros kv _ Hkv.
    apply (dispatch_rejects_null String_of_number rnd fuel (or_default key) (snd kv) Hkv).
Qed.

Lemma walkers_reject_null_witness :
  has_null (VObject sample_with_null)
  /\ encryptObject String_of_Z sample_oracle 5 (VObject sample_with_null)
       (Some (lit "key")) 0%nat = (Throw TypeError, 25%nat)
  /\ (forall pos r pos',
         encryptObject String_of_Z sample_oracle 5 (VObject sample_with_null)
           (Some (lit "key")) pos <> (Return r, pos'))
  /\ (forall r, decryptObject (VObject sample_with_null) (Some (lit "key")) <> Ok r).
Proof.
  assert (Hn : has_null (VObject sample_with_null)) by (cbn; tauto).
  split; [exact Hn|]. split; [vm_compute; reflexivity|].
  exact (walkers_reject_null String_of_Z sample_oracle 5 (VObject sample_with_null)
           (Some (lit "key")) Hn).
Defined.

(** ** crypt.ts: what encryptObject throws *)

Lemma bind_Throw_inv {A B} (m : M A) (k : A -> M B) (pos : nat) (e : exn) (pos' : nat) :
  bind m k pos = (Throw e, pos') ->
  m pos = (Throw e, pos')
  \/ exists a p, m pos = (Return a, p) /\ k a p = (Throw e, pos').
Proof.
  unfold bind. destruct (m pos) as [[a|e0|] p]; intros H.
  - right. now exists a, p.
  - left. injection H as -> ->. reflexivity.
  - discriminate.
Qed.

Section LoopsThatThrow.

Context {V : Type}.
Variable f : V -> M V.

Lemma array_map_Throw (items : list V) :
  forall pos e pos',
    array_map f items pos = (Throw e, pos') ->
    Exists (fun v => exists p p', f v p = (Throw e, p')) items.
Proof.
  induction items as [|v items IH]; intros pos e pos' H; [discriminate|].
  cbn [array_map] in H. apply bind_Throw_inv in H as [H|(y & p & _ & H)].
  - left. now exists pos, pos'.
  - apply bind_Throw_inv in H as [H|(ys & p' & _ & H)]; [|discriminate].
    right. exact (IH _ _ _ H).
Qed.

Lemma for_entries_Throw (entries : list (jsstring * V)) :
  forall out pos e pos',
    for_entries f entries out pos = (Throw e, pos') ->
    Exists (fun kv => exists p p', f (snd kv) p = (Throw e, p')) entries.
Proof.
  induction entries as [|[k v] entries IH]; intros out pos e pos' H; [discriminate|].
  cbn [for_entries] in H. apply bind_Throw_inv in H as [H|(y & p & _ & H)].
  - left. now exists pos, pos'.
  - right. exact (IH _ _ _ _ H).
Qed.

End LoopsThatThrow.

Section ThrowsOfEncryptObject.

Context {number : Type}.
Variable String_of_number : number -> jsstring.
Variable rnd : nat -> nat.
Variable fuel : nat.
Variable key : jsstring.

(** On a printable string [encrypt] returns its first candidate, so
    the walker gets no error from it. *)
Lemma encrypt_leaf_no_throw (s : jsstring) (pos : nat) (e : exn) (pos' : nat) :
  printable_ascii s ->
  encrypt_leaf (number := number) rnd fuel key s pos <> (Throw e, pos').
Proof.
  intros Hs. unfold encrypt_leaf. intros H.
  apply bind_Throw_inv in H as [H|(r & p & _ & H)]; [|discriminate].
  destruct (encrypt_printable rnd fuel s
              (Some (EncryptOptions.mk None None (Some key))) pos Hs)
    as [Hout|(c & p' & Hc & _)].
  - rewrite H in Hout. discriminate.
  - rewrite H in Hc. discriminate.
Qed.

Let throws_on_null (f : value number -> M (value number)) (v : value number) : Prop :=
  forall pos e pos', f v pos = (Throw e, pos') -> e = TypeError /\ has_null v.

(** On a value with printable leaves, a dispatch of [encryptObject]
    throws on [null] only, and what it throws is the TypeError of
    [Object.entries]. *)
Lemma dispatch_throws_on_null (v : value number) :
  printable_leaves String_of_number v ->
  throws_on_null (encrypt_property String_of_number rnd fuel key) v
  /\ throws_on_null (encrypt_item String_of_number rnd fuel key) v
  /\ throws_on_null (encrypt_subItem String_of_number rnd fuel key) v.
Proof.
  induction v as [s|n|b| | |items IH|props IH] using value_induction;
    intros Hp; unfold throws_on_null; cbn [printable_leaves] in Hp.
  - (split; [|split]); intros pos e pos' H; cbn in H;
      apply encrypt_leaf_no_throw in H; try contradiction; try exact Hp;
      now apply trim_Forall.
  - (split; [|split]); intros pos e pos' H; cbn in H;
      apply encrypt_leaf_no_throw in H; try contradiction; try exact Hp;
      now apply trim_Forall.
  - (split; [|split]); intros pos e pos' H; cbn in H; [|discriminate|discriminate].
    apply encrypt_leaf_no_throw in H; [contradiction|].
    apply trim_Forall, printable_boolean.
  - (split; [|split]); intros pos e pos' H; injection H as <- _; now split.
  - (split; [|split]); intros pos e pos' H; discriminate.
  - apply fold_right_and_Forall in Hp.
    assert (Hall : forall f e,
               Forall (fun v => printable_leaves String_of_number v -> throws_on_null f v)
                      items ->
               Exists (fun v => exists p p', f v p = (Throw e, p')) items ->
               e = TypeError /\ has_null (VArray items)).
    { intros f e Hf He. rewrite has_null_items.
      rewrite Exists_exists in He. destruct He as (v & Hin & p & p' & Hv).
      rewrite Forall_forall in Hf, Hp.
      destruct (Hf v Hin (Hp v Hin) p e p' Hv) as [-> Hn].
      split; [reflexivity|]. apply Exists_exists. now exists v. }
    (split; [|split]); intros pos e pos' H;
      cbn [encrypt_property encrypt_item encrypt_subItem] in H;
      (apply bind_Throw_inv in H as [H|(r & p & _ & H)]; [|discriminate]);
      apply array_map_Throw in H; (eapply Hall; [|exact H]);
      (eapply Forall_impl; [|exact IH]); intros v Hv Hpv; apply (Hv Hpv).
  - apply (fold_right_and_Forall (fun kv => printable_leaves String_of_number (snd kv)))
      in Hp.
    assert (Hall : forall e,
               Exists (fun kv => exists p p',
                         encrypt_property String_of_number rnd fuel key (snd kv) p
                         = (Throw e, p')) props ->
               e = TypeError /\ has_null (VObject props)).
    { intros e He. rewrite has_null_props.
      rewrite Exists_exists in He. destruct He as (kv & Hin & p & p' & Hv).
      rewrite Forall_forall in IH, Hp.
      destruct (proj1 (IH kv Hin (Hp kv Hin)) p e p' Hv) as [-> Hn].
      split; [reflexivity|]. apply Exists_exists. now exists kv. }
    (split; [|split]); intros pos e pos' H;
      cbn [encrypt_property encrypt_item encrypt_subItem] in H;
      (apply bind_Throw_inv in H as [H|(r & p & _ & H)]; [|discriminate]);
      apply for_entries_Throw in H; exact (Hall e H).
Qed.

End ThrowsOfEncryptObject.

(** The entries of a value with printable leaves have printable
    leaves. *)
Lemma printable_leaves_entries {number : Type} (String_of_number : number -> jsstring)
    (data : value number) (entries : list (jsstring * value number)) :
  printable_leaves String_of_number data ->
  Object_entries data = Some entries ->
  Forall (fun kv => printable_leaves String_of_number (snd kv)) entries.
Proof.
  intros Hp He.
  destruct data as [s|n|b| | |items|props]; cbn [Object_entries] in He;
    try discriminate He; injection He as <-; cbn [printable_leaves] in Hp.
  - rewrite <- Forall_map, snd_indexed_from, Forall_map.
    eapply Forall_impl; [|exact Hp]. intros c Hc. cbn [printable_leaves].
    constructor; [exact Hc|constructor].
  - constructor.
  - constructor.
  - apply fold_right_and_Forall in Hp. now rewrite <- Forall_map, snd_indexed_from.
  - now apply (fold_right_and_Forall (fun kv => printable_leaves String_of_number (snd kv))).
Qed.

(** X12.  What [encryptObject] throws on data whose strings and
    numbers are printable: nothing but the TypeError of
    [Object.entries], and only when the data is [undefined] or has
    [null] in it.  On such data without [null] it returns, or is still
    redrawing when the fuel ends. *)
Theorem encryptObject_throws_on_null_only {number : Type}
    (String_of_number : number -> jsstring) (rnd : nat -> nat) (fuel : nat)
    (data : value number) (key : option jsstring) (pos : nat) (e : exn) (pos' : nat) :
  printable_leaves String_of_number data ->
  encryptObject String_of_number rnd fuel data key pos = (Throw e, pos') ->
  e = TypeError /\ (has_null data \/ data = VUndefined).
Proof.
  intros Hp H. unfold encryptObject in H. cbv zeta in H.
  destruct (Object_entries data) as [entries|] eqn:Hentries.
  - pose proof (printable_leaves_entries String_of_number data entries Hp Hentries) as Hpe.
    apply bind_Throw_inv in H as [H|(r & p & _ & H)]; [|discriminate].
    apply for_entries_Throw in H. rewrite Exists_exists in H.
    destruct H as (kv & Hin & p & p' & Hv).
    rewrite Forall_forall in Hpe.
    destruct (proj1 (dispatch_throws_on_null String_of_number rnd fuel (or_default key)
                       (snd kv) (Hpe kv Hin)) p e p' Hv) as [-> Hn].
    split; [reflexivity|]. left.
    assert (Hex : Exists has_null (map snd entries)).
    { apply Exists_exists. exists (snd kv). split; [now apply in_map|exact Hn]. }
    destruct data as [s|n|b| | |items|props]; cbn [Object_entries] in Hentries;
      try discriminate Hentries; injection Hentries as <-.
    + rewrite snd_indexed_from in Hex. apply Exists_exists in Hex.
      destruct Hex as (x & Hx & Hnx). apply in_map_iff in Hx as (c & <- & _).
      contradiction.
    + inversion Hex.
    + inversion Hex.
    + apply has_null_items. now rewrite snd_indexed_from in Hex.
    + apply has_null_props. now rewrite Exists_map in Hex.
  - injection H as <- _. split; [reflexivity|].
    destruct data; try discriminate; [now left|now right].
Qed.

Lemma encryptObject_throws_on_null_only_witness :
  printable_leaves String_of_Z (VObject sample_with_null)
  /\ encryptObject String_of_Z sample_oracle 5 (VObject sample_with_null)
       (Some (lit "key")) 0%nat = (Throw TypeError, 25%nat)
  /\ (has_null (VObject sample_with_null) \/ VObject sample_with_null = VUndefined).
Proof.
  assert (Hp : printable_leaves String_of_Z (VObject sample_with_null)).
  { cbn. unfold printable_ascii. repeat split; repeat constructor; lia. }
  assert (H : encryptObject String_of_Z sample_oracle 5 (VObject sample_with_null)
                (Some (lit "key")) 0%nat = (Throw TypeError, 25%nat))
    by (vm_compute; reflexivity).
  split; [exact Hp|]. split; [exact H|].
  exact (proj2 (encryptObject_throws_on_null_only String_of_Z sample_oracle 5
                  (VObject sample_with_null) (Some (lit "key")) 0%nat TypeError 25%nat
                  Hp H)).
Defined.

(** ** crypt.ts: encryptObject on an array *)



(** ** generator.ts: the draws behind a token *)

Section Draws.

Variable rnd : nat -> nat.

Lemma random_char_eq (cs : jsstring) (pos : nat) :
  (0 < List.length cs)%nat ->
  random_char rnd cs pos
  = (Return (charAt cs (Nat.modulo (rnd pos) (List.length cs))), S pos).
Proof.
  intros Hcs. unfold random_char, random_below, bind, ret.
  destruct (List.length cs); [lia|reflexivity].
Qed.

Lemma drawn_S (cs : jsstring) (pos count : nat) :
  drawn rnd cs pos (S count)
  = charAt cs (Nat.modulo (rnd pos) (List.length cs)) ++ drawn rnd cs (S pos) count.
Proof. reflexivity. Qed.

(** The [for] loop appends the draws, one per iteration. *)
Lemma fill_drawn (count : nat) (cs : jsstring) :
  (0 < List.length cs)%nat ->
  forall token pos,
    fill rnd count cs token pos
    = (Return (token ++ drawn rnd cs pos count), (pos + count)%nat).
Proof.
  intros Hcs. induction count as [|count IH]; intros token pos.
  - cbn [fill]. unfold ret, drawn. cbn. now rewrite app_nil_r, Nat.add_0_r.
  - cbn [fill]. rewrite (bind_Return _ _ pos _ _ (random_char_eq cs pos Hcs)).
    rewrite IH, drawn_S, <- app_assoc. f_equal. lia.
Qed.

Lemma drawn_length (cs : jsstring) (pos count : nat) :
  (0 < List.length cs)%nat -> List.length (drawn rnd cs pos count) = count.
Proof.
  intros Hcs. revert pos. induction count as [|count IH]; intros pos; [reflexivity|].
  rewrite drawn_S, length_app, IH. unfold charAt.
  destruct (nth_error cs (Nat.modulo (rnd pos) (List.length cs))) eqn:Hn; [reflexivity|].
  apply nth_error_None in Hn.
  pose proof (Nat.mod_upper_bound (rnd pos) (List.length cs) ltac:(lia)). lia.
Qed.

Lemma drawn_chars (cs : jsstring) (pos count : nat) :
  Forall (fun c => In c cs) (drawn rnd cs pos count).
Proof.
  revert pos. induction count as [|count IH]; intros pos; [constructor|].
  rewrite drawn_S. apply Forall_app. split; [|apply IH].
  unfold charAt.
  destruct (nth_error cs (Nat.modulo (rnd pos) (List.length cs))) eqn:Hn; [|constructor].
  constructor; [|constructor]. exact (nth_error_In _ _ Hn).
Qed.

Lemma tokenGenerator_drawn (fuel : nat) (length : Z) (type_ : option CharacterSetType)
    (pos : nat) :
  tokenGenerator rnd fuel length type_ pos
  = revalidate rnd fuel (resolve_set type_) length
      (drawn rnd (resolve_set type_) pos (Z.to_nat length)) (pos + Z.to_nat length)%nat.
Proof.
  unfold tokenGenerator. cbv zeta.
  now rewrite (bind_Return _ _ pos _ _
                 (fill_drawn (Z.to_nat length) _ (resolve_set_nonempty type_) [] pos)).
Qed.

End Draws.

(** X14.  A token is made of the draws: for a length [n >= 1], every
    character of what [tokenGenerator] returns belongs to the chosen
    set, all characters after the first are the draws of the [for]
    loop in their order, and when the first draw is not [0] the token
    is exactly the [n] draws and no further draw is made. *)
Theorem tokenGenerator_token_is_drawn (rnd : nat -> nat) (fuel : nat) (length : Z)
    (type_ : option CharacterSetType) (pos : nat) (token : jsstring) (pos' : nat) :
  1 <= length ->
  tokenGenerator rnd fuel length type_ pos = (Return token, pos') ->
  Forall (fun c => In c (resolve_set type_)) token
  /\ skipn 1 token = skipn 1 (drawn rnd (resolve_set type_) pos (Z.to_nat length))
  /\ (pos + Z.to_nat length <= pos')%nat
  /\ (hd_error (drawn rnd (resolve_set type_) pos (Z.to_nat length)) <> Some 48 ->
      token = drawn rnd (resolve_set type_) pos (Z.to_nat length)
      /\ pos' = (pos + Z.to_nat length)%nat).
Proof.
  intros Hlen H.
  destruct (tokenGenerator_shape rnd fuel length type_ pos token pos' Hlen H)
    as (_ & _ & Hchars).
  split; [exact Hchars|].
  rewrite tokenGenerator_drawn in H.
  assert (Hl : len (drawn rnd (resolve_set type_) pos (Z.to_nat length)) = length).
  { unfold len. rewrite drawn_length by apply resolve_set_nonempty. lia. }
  destruct (revalidate_shape rnd fuel _ _ _ _ _ _ (resolve_set_nonempty type_) Hlen Hl H)
    as (_ & _ & Hpos & Htail).
  split; [exact Htail|]. split; [exact Hpos|].
  intros Hfirst.
  destruct fuel as [|fuel]; [discriminate|].
  rewrite revalidate_keep in H; [now injection H as <- <-|exact Hl|].
  destruct (first_is_zero (split (drawn rnd (resolve_set type_) pos (Z.to_nat length))))
    eqn:Hz; [|reflexivity].
  apply first_is_zero_split in Hz. contradiction.
Qed.

Lemma tokenGenerator_token_is_drawn_witness :
  1 <= 8
  /\ tokenGenerator sample_oracle 5 8 (Some set1) 1%nat = (Return (lit "67418529"), 10%nat)
  /\ drawn sample_oracle (characterSets set1) 1%nat 8 = lit "07418529"
  /\ Forall (fun c => In c (characterSets set1)) (lit "67418529")
  /\ skipn 1 (lit "67418529") = skipn 1 (lit "07418529").
Proof.
  assert (Hrun : tokenGenerator sample_oracle 5 8 (Some set1) 1%nat
                 = (Return (lit "67418529"), 10%nat)) by (vm_compute; reflexivity).
  assert (Hd : drawn sample_oracle (characterSets set1) 1%nat 8 = lit "07418529")
    by (vm_compute; reflexivity).
  split; [lia|]. split; [exact Hrun|]. split; [exact Hd|].
  destruct (tokenGenerator_token_is_drawn sample_oracle 5 8 (Some set1) 1%nat
              (lit "67418529") 10%nat ltac:(lia) Hrun) as (Hchars & Htail & _).
  split; [exact Hchars|]. exact Htail.
Defined.

Lemma set2_has_no_zero : ~ In 48 (characterSets set2).
Proof.
  intros H. vm_compute in H.
  repeat (destruct H as [H|H]; [discriminate H|]). exact H.
Qed.

(** X15.  With the set of letters, [set2], no redraw ever happens: for
    every length [n >= 0] and every oracle, one round of the
    [do ... while] loop is enough, the token is the [n] draws and the
    oracle has moved by [n]. *)
Theorem tokenGenerator_set2_returns (rnd : nat -> nat) (fuel : nat) (length : Z) (pos : nat) :
  0 <= length ->
  tokenGenerator rnd (S fuel) length (Some set2) pos
  = (Return (drawn rnd (characterSets set2) pos (Z.to_nat length)),
     (pos + Z.to_nat length)%nat).
Proof.
  intros Hlen. rewrite tokenGenerator_drawn. cbn [resolve_set].
  apply revalidate_keep.
  - unfold len. rewrite drawn_length by (apply (resolve_set_nonempty (Some set2))). lia.
  - destruct (first_is_zero (split (drawn rnd (characterSets set2) pos (Z.to_nat length))))
      eqn:Hz; [|reflexivity].
    apply first_is_zero_split in Hz. exfalso. apply set2_has_no_zero.
    pose proof (drawn_chars rnd (characterSets set2) pos (Z.to_nat length)) as Hall.
    destruct (drawn rnd (characterSets set2) pos (Z.to_nat length)) as [|c rest];
      [discriminate|].
    injection Hz as ->. now inversion Hall.
Qed.

Lemma tokenGenerator_set2_returns_witness :
  0 <= 6
  /\ tokenGenerator sample_oracle 1 6 (Some set2) 0%nat = (Return (lit "DKRYfm"), 6%nat).
Proof.
  split; [lia|].
  rewrite (tokenGenerator_set2_returns sample_oracle 0 6 0%nat ltac:(lia)).
  vm_compute. reflexivity.
Defined.

(** ** crypt.ts: encrypt on an object *)

(** X16.  [encrypt] on an object hands it to [encryptObject] with the
    key of its options, the default key when there are no options.  For
    an object without [null] whose strings and numbers are printable
    and whose objects have distinct keys none of which is [__proto__],
    what it returns comes back through [decryptObject] under that key
    as [encryptObject]'s results do: strings trimmed, numbers and the
    booleans of properties as strings. *)
Theorem encrypt_of_object_round_trip {number : Type} (String_of_number : number -> jsstring)
    (rnd : nat -> nat) (fuel : nat) (props : list (jsstring * value number))
    (options : option EncryptOptions.t) (pos : nat) (r : value number) (pos' : nat) :
  plain String_of_number (VObject props) ->
  ordinary_keys (VObject props) ->
  encrypt_any String_of_number rnd fuel (VObject props) options pos = (Return r, pos') ->
  encryptObject String_of_number rnd fuel (VObject props)
    (EncryptOptions.key (resolved_options options)) pos = (Return r, pos')
  /\ decryptObject r (EncryptOptions.key (resolved_options options))
     = Ok (restored_property String_of_number (VObject props)).
Proof.
  intros Hp Hd H. cbn [encrypt_any] in H. apply try_rethrow_inv in H.
  split; [exact H|].
  exact (encryptObject_restored String_of_number rnd fuel props _ pos r pos' Hp Hd H).
Qed.

Lemma encrypt_of_object_round_trip_witness :
  plain String_of_Z (VObject sample_record)
  /\ ordinary_keys (VObject sample_record)
  /\ exists r pos',
       encrypt_any String_of_Z sample_oracle 5 (VObject sample_record) None 0%nat
       = (Return r, pos')
       /\ decryptObject r None
          = Ok (VObject [(lit "a", VString (lit "x"));
                         (lit "n", VString (lit "7"));
                         (lit "t", VString (lit "true"));
                         (lit "l", VArray [VBoolean true; VString (lit "2");
                                           VArray [VString (lit "y")]])]).
Proof.
  assert (Hp : plain String_of_Z (VObject sample_record)).
  { cbn. unfold printable_ascii. repeat split; repeat constructor; lia. }
  assert (Hd : ordinary_keys (VObject sample_record)).
  { ordinary_keys_by_cases. }
  split; [exact Hp|]. split; [exact Hd|].
  destruct (encrypt_any String_of_Z sample_oracle 5 (VObject sample_record) None 0%nat)
    as [[r|e|] pos'] eqn:Hrun.
  - exists r, pos'. split; [reflexivity|].
    destruct (encrypt_of_object_round_trip String_of_Z sample_oracle 5 sample_record
                None 0%nat r pos' Hp Hd Hrun) as [_ Hr].
    exact Hr.
  - vm_compute in Hrun. discriminate Hrun.
  - vm_compute in Hrun. discriminate Hrun.
Defined.

(** ** The demonstration [cryptExample] *)

Lemma originalData_plain : plain String_of_Z originalData.
Proof. cbn. unfold printable_ascii. repeat split; repeat constructor; lia. Qed.

Lemma originalData_ordinary_keys : ordinary_keys originalData.
Proof.
  ordinary_keys_by_cases.
Qed.

(** X17.  What a run of [cryptExample] that completes has computed,
    for any text, key and draws: [D] is the trimmed text, the
    comparison of the ciphertext with it says equal as soon as the
    key is not empty, [bd] is the text when the text shifted by the key
    is well formed, and the decrypted object is the original one with
    its numbers and booleans of properties as strings, so it is not the
    original object. *)
Theorem cryptExample_report (toLowerCase : jsstring -> jsstring) (rnd : nat -> nat)
    (fuel : nat) (v key : jsstring) (pos : nat) (report : CryptExample.t) (pos' : nat) :
  cryptExample toLowerCase rnd fuel v key pos = (Return report, pos') ->
  CryptExample.D report = trim v
  /\ (key <> [] -> CryptExample.eq report = true)
  /\ (is_string v -> Buffer.isWellFormed (key_shifted (Some key) v) = true ->
      CryptExample.bd report = v)
  /\ CryptExample.decryptedData report = restored_property String_of_Z originalData
  /\ CryptExample.decryptedData report <> originalData.
Proof.
  intros H. unfold cryptExample in H.
  apply bind_inv in H as (r & p & Hr & H).
  destruct r as [E|]; [|discriminate].
  apply bind_inv in H as (D & p1 & HD & H). apply lift_inv in HD as [HD _].
  cbv zeta in H.
  apply bind_inv in H as (encryptedData & p2 & Henc & H).
  apply bind_inv in H as (decryptedData & p3 & Hdec & H). apply lift_inv in Hdec as [Hdec _].
  injection H as <- _. cbn [CryptExample.D CryptExample.eq CryptExample.bd
                              CryptExample.decryptedData].
  pose proof (encrypt_Some_inv rnd fuel v _ pos E p Hr) as HE.
  unfold check_options in HE. cbn [resolved_options EncryptOptions.key] in HE.
  assert (HDv : D = trim v) by congruence.
  assert (Hrestored : decryptedData = restored_property String_of_Z originalData).
  { pose proof (encryptObject_restored String_of_Z rnd fuel _ (Some secretKey) p1
                  encryptedData p2 originalData_plain originalData_ordinary_keys Henc)
      as Hback.
    rewrite Hdec in Hback. now injection Hback as ->. }
  split; [exact HDv|]. split; [|split; [|split]].
  - intros Hkey. apply isEqual_by_decrypting. right; left.
    apply (decrypt_or_self_Ok E _ (Some key) D); [|exact HD].
    destruct key; [contradiction|reflexivity].
  - intros Hv Hwf. rewrite base64Decode_base64Encode.
    apply isWellFormed_eq in Hwf. rewrite Hwf. now apply key_unshifted_shifted.
  - exact Hrestored.
  - rewrite Hrestored. intros Heq. vm_compute in Heq. discriminate Heq.
Qed.

Lemma cryptExample_report_witness :
  exists report pos',
    cryptExample ascii_toLowerCase sample_oracle 5 (lit " hello ") (lit "key") 0%nat
    = (Return report, pos')
    /\ CryptExample.D report = lit "hello"
    /\ CryptExample.eq report = true
    /\ CryptExample.bd report = lit " hello "
    /\ get_prop (match CryptExample.decryptedData report with
                 | VObject props => props
                 | _ => []
                 end) (lit "age") = Some (VString (lit "30")).
Proof.
  destruct (cryptExample ascii_toLowerCase sample_oracle 5 (lit " hello ") (lit "key") 0%nat)
    as [[report|e|] pos'] eqn:Hrun.
  - exists report, pos'. split; [reflexivity|].
    destruct (cryptExample_report ascii_toLowerCase sample_oracle 5 (lit " hello ")
                (lit "key") 0%nat report pos' Hrun) as (HD & Heq & Hbd & Hdec & _).
    split; [exact HD|]. split; [apply Heq; discriminate|].
    split; [apply Hbd; [repeat constructor; unfold is_code_unit; lia|reflexivity]|].
    rewrite Hdec. reflexivity.
  - vm_compute in Hrun. discriminate Hrun.
  - vm_compute in Hrun. discriminate Hrun.
Defined.

(** ** decorators.ts: Field and getFieldMetadata *)

Lemma getMetadata_defined (value : list jsstring) (target : Reflect.object)
    (md : Reflect.metadata) :
  Reflect.getMetadata (Reflect.defineMetadata value target md) target = Some value.
Proof.
  unfold Reflect.getMetadata, Reflect.defineMetadata. cbn [Reflect.lookup].
  now rewrite Nat.eqb_refl.
Qed.

Lemma lookup_defined_elsewhere (value : list jsstring) (target : Reflect.object)
    (md : Reflect.metadata) (chain : list nat) :
  ~ In (Reflect.id target) chain ->
  Reflect.lookup (Reflect.defineMetadata value target md) chain = Reflect.lookup md chain.
Proof.
  induction chain as [|o chain IH]; intros Hout; [reflexivity|].
  cbn [Reflect.lookup]. unfold Reflect.defineMetadata at 1.
  destruct (Nat.eqb o (Reflect.id target)) eqn:He.
  - apply Nat.eqb_eq in He. exfalso. apply Hout. now left.
  - rewrite IH; [reflexivity|]. intros Hin. apply Hout. now right.
Qed.

Lemma fields_after_Field (target : Reflect.object) (propertyKey : jsstring)
    (md : Reflect.metadata) :
  fields_or_empty (Field target propertyKey md) target
  = fields_or_empty md target ++ [propertyKey].
Proof.
  unfold Field. cbv zeta. unfold fields_or_empty at 1.
  now rewrite getMetadata_defined.
Qed.

Lemma fields_after_decorate (target : Reflect.object) (propertyKeys : list jsstring) :
  forall md,
    fields_or_empty (decorate target propertyKeys md) target
    = fields_or_empty md target ++ propertyKeys.
Proof.
  unfold decorate.
  induction propertyKeys as [|k ks IH]; intros md; cbn [fold_left].
  - now rewrite app_nil_r.
  - rewrite IH, fields_after_Field, <- app_assoc. reflexivity.
Qed.

Lemma fields_elsewhere (target other : Reflect.object) (propertyKey : jsstring)
    (md : Reflect.metadata) :
  ~ In (Reflect.id target) (Reflect.id other :: Reflect.prototypes other) ->
  fields_or_empty (Field target propertyKey md) other = fields_or_empty md other.
Proof.
  intros Hout. unfold fields_or_empty, Reflect.getMetadata, Field. cbv zeta.
  now rewrite lookup_defined_elsewhere.
Qed.

(** X18.  The fields that [getFieldMetadata] lists for a class are the
    fields that were there, inherited ones included, followed by the
    decorated properties in the order of their decorators, repeated
    ones kept, each with the type of its current value; the type is
    [array] for arrays only, and [object] for [null] as for objects. *)
Theorem getFieldMetadata_after_decorate (md : Reflect.metadata) (target : Reflect.object)
    (propertyKeys : list jsstring) (get : jsstring -> kind) :
  getFieldMetadata (decorate target propertyKeys md) target get
  = getFieldMetadata md target get
    ++ map (fun f => (f, type_of_field (get f))) propertyKeys
  /\ (forall x, type_of_field x = lit "array" <-> x = KArray)
  /\ (forall x, type_of_field x = lit "object" <-> x = KNull \/ x = KObject)
  /\ (forall x, x <> KNull -> x <> KArray -> type_of_field x = typeof x).
Proof.
  split; [|split; [|split]].
  - unfold getFieldMetadata. cbv zeta.
    now rewrite fields_after_decorate, map_app.
  - intros x. split.
    + destruct x; intros H; try reflexivity; vm_compute in H; discriminate H.
    + intros ->. reflexivity.
  - intros x. split.
    + destruct x; intros H; auto; vm_compute in H; discriminate H.
    + intros [-> | ->]; reflexivity.
  - intros x Hn Ha. destruct x; try reflexivity; contradiction.
Qed.

(** X19.  Decorating a property of one class changes the fields of no
    object that does not have the class on its prototype chain: a base
    class keeps its fields when a class derived from it is decorated,
    while the derived class, at its first decorator, takes over the
    fields of the base class and adds its own after them. *)
Theorem Field_leaves_other_objects (md : Reflect.metadata) (target other : Reflect.object)
    (propertyKey : jsstring) (get : jsstring -> kind) :
  ~ In (Reflect.id target) (Reflect.id other :: Reflect.prototypes other) ->
  getFieldMetadata (Field target propertyKey md) other get = getFieldMetadata md other get
  /\ (md (Reflect.id target) = None ->
      Reflect.prototypes target = Reflect.id other :: Reflect.prototypes other ->
      map fst (getFieldMetadata (Field target propertyKey md) target get)
      = map fst (getFieldMetadata md other get) ++ [propertyKey]).
Proof.
  intros Hout. split.
  - unfold getFieldMetadata. cbv zeta. now rewrite fields_elsewhere.
  - intros Hnone Hchain. unfold getFieldMetadata. cbv zeta.
    rewrite fields_after_Field, !map_map. cbn [fst]. rewrite !map_id. f_equal.
    unfold fields_or_empty, Reflect.getMetadata. rewrite Hchain.
    cbn [Reflect.lookup]. now rewrite Hnone.
Qed.

Lemma Field_leaves_other_objects_witness :
  ~ In (Reflect.id sample_derived) (Reflect.id sample_base :: Reflect.prototypes sample_base)
  /\ getFieldMetadata
       (decorate sample_derived [lit "name"; lit "tags"]
          (decorate sample_base [lit "id"] Reflect.empty))
       sample_base sample_get
     = [(lit "id", lit "string")]
  /\ getFieldMetadata
       (decorate sample_derived [lit "name"; lit "tags"]
          (decorate sample_base [lit "id"] Reflect.empty))
       sample_derived sample_get
     = [(lit "id", lit "string"); (lit "name", lit "string"); (lit "tags", lit "array")].
Proof.
  assert (Hout : ~ In (Reflect.id sample_derived)
                      (Reflect.id sample_base :: Reflect.prototypes sample_base)).
  { cbn. intros [H|[]]. discriminate H. }
  split; [exact Hout|]. split.
  - unfold decorate at 1. cbn [fold_left].
    rewrite (proj1 (Field_leaves_other_objects _ sample_derived sample_base (lit "tags")
                      sample_get Hout)).
    rewrite (proj1 (Field_leaves_other_objects _ sample_derived sample_base (lit "name")
                      sample_get Hout)).
    reflexivity.
  - reflexivity.
Defined.
